(** * WiiUDownloader: the title acquisition engine of downloader.go

    A shallow embedding of [downloadFile] and [DownloadTitle] together with
    the Go values they compute on, followed by the properties of the
    natural-language specification that were checked against it. *)

From stdpp Require Import base list strings gmap.
From Stdlib Require Import ZArith Lia Ascii.
From Stdlib.Strings Require Import Byte.

Local Open Scope Z_scope.
#[local] Set Warnings "-clear-no-such-hyp".

(** ** Go values *)

Module Go.

(** Values of Go's [error] interface that the engine creates or passes on.
    [nil] is [None] of [option error]. *)
Inductive error : Type :=
  | EOF                                    (* io.EOF *)
  | ErrUnexpectedEOF                       (* io.ErrUnexpectedEOF *)
  | ErrContext                             (* ctx.Err() of a context that is done *)
  | ErrCollaborator (msg : string)         (* an error handed back by a callee outside this file *)
  | ErrStatus (attempt : Z) (code : Z)     (* "download error after %d attempts, status code: %d" *)
  | ErrStream (attempt : Z) (cause : error) (* "download error after %d attempts: %+v" *).

Definition error_eqb_EOF (e : error) : bool :=
  match e with EOF => true | _ => false end.

(** What evaluating a piece of Go code ends in: a value, a returned
    error, or a run-time panic. *)
Inductive outcome (A : Type) : Type :=
  | Done (a : A)
  | Fail (e : error)
  | Panic.
Arguments Done {A} a.
Arguments Fail {A} e.
Arguments Panic {A}.

Definition bind {A B} (m : outcome A) (f : A -> outcome B) : outcome B :=
  match m with
  | Done a => f a
  | Fail e => Fail e
  | Panic => Panic
  end.

(** A slice: the elements below its length, and the rest of the backing
    array up to its capacity. *)
Record slice : Type := { elems : list byte; spare : list byte }.

Definition backing (s : slice) : list byte := elems s ++ spare s.
Definition len (s : slice) : Z := Z.of_nat (length (elems s)).
Definition cap (s : slice) : Z := Z.of_nat (length (backing s)).

(** [s[lo:hi]]: for a slice operand the indices are in range when
    [0 <= lo <= hi <= cap(s)]; out of range is a run-time panic. *)
Definition sliceExpr (s : slice) (lo hi : Z) : outcome slice :=
  if (0 <=? lo) && (lo <=? hi) && (hi <=? cap s) then
    Done {| elems := take (Z.to_nat (hi - lo)) (drop (Z.to_nat lo) (backing s));
            spare := drop (Z.to_nat hi) (backing s) |}
  else Panic.

(** [s[i]]: in range when [0 <= i < len(s)]. *)
Definition index (s : slice) (i : Z) : outcome byte :=
  if (0 <=? i) then
    match elems s !! Z.to_nat i with
    | Some b => Done b
    | None => Panic
    end
  else Panic.

Definition u8 (b : byte) : Z := Z.of_N (Byte.to_N b).

(** Conversions between integer types keep the low bits. *)
Definition uint64 (z : Z) : Z := z mod 2 ^ 64.
Definition int64 (z : Z) : Z := (z + 2 ^ 63) mod 2 ^ 64 - 2 ^ 63.

End Go.

Notation "x <- m ;; k" := (Go.bind m (fun x => k))
  (at level 100, m at next level, right associativity).

(** ** bytes.Reader and encoding/binary, as far as the engine uses them *)

Module bytes.

Record Reader : Type := { s : list byte; i : Z }.

(** [bytes.NewReader(b)] reads the [len(b)] elements of [b]. *)
Definition NewReader (b : Go.slice) : Reader := {| s := Go.elems b; i := 0 |}.

(** [r.Seek(offset, 0)], for a non-negative offset. *)
Definition Seek (r : Reader) (offset : Z) : Reader := {| s := s r; i := offset |}.

Definition remaining (r : Reader) : list byte := drop (Z.to_nat (i r)) (s r).

End bytes.

Module binary.

(** [io.ReadFull(r, buf)] with [len(buf) = n > 0]: [io.EOF] when nothing
    is left, [io.ErrUnexpectedEOF] when fewer than [n] bytes are. *)
Definition ReadFull (r : bytes.Reader) (n : nat) : Go.outcome (list byte) :=
  let rest := bytes.remaining r in
  match rest with
  | [] => Go.Fail Go.EOF
  | _ => if (length rest <? n)%nat then Go.Fail Go.ErrUnexpectedEOF
         else Go.Done (take n rest)
  end.

Definition at_ (b : list byte) (k : nat) : Z := Go.u8 (nth k b x00).

(** [binary.BigEndian.Uint16/32/64]. *)
Definition Uint16 (b : list byte) : Z :=
  Z.lor (at_ b 1) (Z.shiftl (at_ b 0) 8).

Definition Uint32 (b : list byte) : Z :=
  Z.lor (Z.lor (Z.lor (at_ b 3) (Z.shiftl (at_ b 2) 8))
               (Z.shiftl (at_ b 1) 16))
        (Z.shiftl (at_ b 0) 24).

Definition Uint64 (b : list byte) : Z :=
  Z.lor (Z.lor (Z.lor (Z.lor (Z.lor (Z.lor (Z.lor
    (at_ b 7) (Z.shiftl (at_ b 6) 8)) (Z.shiftl (at_ b 5) 16))
    (Z.shiftl (at_ b 4) 24)) (Z.shiftl (at_ b 3) 32))
    (Z.shiftl (at_ b 2) 40)) (Z.shiftl (at_ b 1) 48))
    (Z.shiftl (at_ b 0) 56).

(** [binary.Read(r, binary.BigEndian, &x)] for [x] a uint16, uint32 or
    uint64. *)
Definition ReadUint16 (r : bytes.Reader) : Go.outcome Z :=
  bs <- ReadFull r 2 ;; Go.Done (Uint16 bs).
Definition ReadUint32 (r : bytes.Reader) : Go.outcome Z :=
  bs <- ReadFull r 4 ;; Go.Done (Uint32 bs).
Definition ReadUint64 (r : bytes.Reader) : Go.outcome Z :=
  bs <- ReadFull r 8 ;; Go.Done (Uint64 bs).

End binary.

(** ** The reads of [DownloadTitle] on the title metadata *)

Module Metadata.
Import Go.

(** Lines 172-175. *)
Definition readTitleVersion (tmdData : slice) : outcome Z :=
  b <- sliceExpr tmdData 476 478 ;;
  binary.ReadUint16 (bytes.NewReader b).

(** Lines 191-194. *)
Definition readContentCount (tmdData : slice) : outcome Z :=
  b <- sliceExpr tmdData 478 480 ;;
  binary.ReadUint16 (bytes.NewReader b).

(** Lines 196-208: the loop [for i := 0; i < int(contentCount); i++],
    with [n] the number of iterations still to run. *)
Fixpoint readContentSizes (tmdData : slice) (n : nat) (i : Z)
    (titleSize : Z) (contentSizes : list Z) : outcome (Z * list Z) :=
  match n with
  | O => Done (titleSize, contentSizes)
  | S n' =>
      let contentDataLoc := 0xB04 + 0x30 * i in
      b <- sliceExpr tmdData (contentDataLoc + 8) (contentDataLoc + 8 + 8) ;;
      contentSizeInt <- binary.ReadUint64 (bytes.NewReader b) ;;
      readContentSizes tmdData n' (i + 1)
        (uint64 (titleSize + contentSizeInt))
        (contentSizes ++ [contentSizeInt])
  end.

(** Modelled from the spec: the struct [Content] is declared in another
    file of the repository; its field [ID] is the 32-bit identifier of a
    content record, so [binary.Read] into [&content.ID] reads a uint32. *)
Definition ReadContentIDField (r : bytes.Reader) : outcome Z :=
  binary.ReadUint32 r.

(** Lines 235-239: [Seek] to the record and read [content.ID]. *)
Definition readContentID (tmdData : slice) (i : Z) : outcome Z :=
  let offset := 2820 + 48 * i in
  ReadContentIDField (bytes.Seek (bytes.NewReader tmdData) offset).

(** Line 249: [tmdData[offset+7]], and the test [&0x2 == 2] on it. *)
Definition readTypeFlags (tmdData : slice) (i : Z) : outcome byte :=
  let offset := 2820 + 48 * i in
  index tmdData (offset + 7).

Definition hasH3 (flags : byte) : bool := Z.land (u8 flags) 0x2 =? 2.

(** Line 247: [contentSizes[i]]. *)
Definition sizeAt (contentSizes : list Z) (i : Z) : outcome Z :=
  match contentSizes !! Z.to_nat i with
  | Some sz => Done sz
  | None => Panic
  end.

(** What the engine extracts from a metadata blob. *)
Record ContentRecord : Type :=
  { contentID : Z; typeFlags : byte; contentSize : Z }.

Record TitleMetadata : Type :=
  { titleVersion : Z; contentCount : Z; titleSize : Z;
    contents : list ContentRecord }.

(** Lines 234-261 without the transfers: identifier, size and flags of
    the records [i, i+1, ...], with [n] the iterations still to run. *)
Fixpoint readContents (tmdData : slice) (contentSizes : list Z)
    (n : nat) (i : Z) : outcome (list ContentRecord) :=
  match n with
  | O => Done []
  | S n' =>
      id <- readContentID tmdData i ;;
      sz <- sizeAt contentSizes i ;;
      fl <- readTypeFlags tmdData i ;;
      recs <- readContents tmdData contentSizes n' (i + 1) ;;
      Done ({| contentID := id; typeFlags := fl; contentSize := sz |} :: recs)
  end.

(** The parsing stage: the reads above in program order. *)
Definition parse (tmdData : slice) : outcome TitleMetadata :=
  version <- readTitleVersion tmdData ;;
  count <- readContentCount tmdData ;;
  sizes <- readContentSizes tmdData (Z.to_nat count) 0 0 [] ;;
  recs <- readContents tmdData (snd sizes) (Z.to_nat count) 0 ;;
  Done {| titleVersion := version; contentCount := count;
          titleSize := fst sizes; contents := recs |}.

(** The format as the specification words it: the big-endian value of
    the [n] bytes at offset [off] of the buffer. *)
Fixpoint bigEndianValue (bs : list byte) (acc : Z) : Z :=
  match bs with
  | [] => acc
  | b :: rest => bigEndianValue rest (256 * acc + u8 b)
  end.

Definition fieldAt (tmdData : slice) (off : Z) (n : nat) : Z :=
  bigEndianValue (take n (drop (Z.to_nat off) (elems tmdData))) 0.

Definition byteAt (tmdData : slice) (off : Z) : byte :=
  nth (Z.to_nat off) (elems tmdData) x00.

(** The record the specification describes at index [k] of the table
    that starts at 0xB04 and has stride 0x30. *)
Definition sizeField (tmdData : slice) (k : Z) : Z :=
  fieldAt tmdData (0xB04 + 0x30 * k + 8) 8.

Definition recordAt (tmdData : slice) (k : Z) : ContentRecord :=
  {| contentID := fieldAt tmdData (0xB04 + 0x30 * k) 4;
     typeFlags := byteAt tmdData (0xB04 + 0x30 * k + 7);
     contentSize := sizeField tmdData k |}.

(** The count the code reads at offset 478 (from the backing array,
    which is what a slice expression reaches). *)
Definition declaredCount (tmdData : slice) : Z :=
  bigEndianValue (take 2 (drop 478 (backing tmdData))) 0.

(** The end of the last field the code reads: the count at 478..480, or
    the size field of the last declared record. *)
Definition requiredLength (tmdData : slice) : Z :=
  if cap tmdData <? 480 then 480
  else if declaredCount tmdData =? 0 then 480
  else 0xB04 + 0x30 * (declaredCount tmdData - 1) + 16.

End Metadata.

(** ** fasthttp, as far as the engine uses it *)

Module fasthttp.

Definition StatusOK : Z := 200.

(** A response object of the library's pool; [statusCode] is the header
    field, 0 while it is unset. *)
Record Response : Type := { statusCode : Z }.

(** [resp.StatusCode()]: a header whose code is unset reads [StatusOK]. *)
Definition StatusCode (resp : Response) : Z :=
  if statusCode resp =? 0 then StatusOK else statusCode resp.

(** [resp.Reset()]. [ReleaseResponse(resp)] resets the object before it
    puts it back into the pool, and [resp] in the caller still points to
    that object. *)
Definition Reset (resp : Response) : Response := {| statusCode := 0 |}.

End fasthttp.

(** ** Strings and paths *)

Module Text.

Definition inCutset (c : Ascii.ascii) (cutset : string) : bool :=
  existsb (Ascii.eqb c) (String.list_ascii_of_string cutset).

(** [strings.TrimRight(s, cutset)]. *)
Fixpoint TrimRight (s cutset : string) : string :=
  match s with
  | EmptyString => EmptyString
  | String c rest =>
      match TrimRight rest cutset with
      | EmptyString => if inCutset c cutset then EmptyString
                       else String c EmptyString
      | rest' => String c rest'
      end
  end.

Definition hexDigit (d : Z) : Ascii.ascii :=
  nth (Z.to_nat d)
    ["0"; "1"; "2"; "3"; "4"; "5"; "6"; "7";
     "8"; "9"; "A"; "B"; "C"; "D"; "E"; "F"]%char "0"%char.

(** [fmt.Sprintf("%08X", v)] for a uint32 [v]: eight upper-case digits. *)
Definition hex8 (v : Z) : string :=
  String.string_of_list_ascii
    (map (fun k => hexDigit ((v / 16 ^ k) mod 16)) [7; 6; 5; 4; 3; 2; 1; 0]).

End Text.

(** ** The downloader *)

Module Downloader.
Import Go.

Definition maxRetries : Z := 5.
Definition Second : Z := 1000000000.   (* time.Second, in nanoseconds *)
Definition retryDelay : Z := 5 * Second.

(** Calls that leave the engine, in the order they are made. The calls
    of one transfer attempt carry the attempt's number. *)
Inductive event : Type :=
  | AcquireRequest (attempt : Z)
  | AcquireResponse (attempt : Z)
  | ClientDo (url : string) (attempt : Z)
  | CloseBodyStream (attempt : Z)
  | ReleaseRequest (attempt : Z)
  | ReleaseResponse (attempt : Z)
  | Sleep (d : Z)
  | OsCreate (path : string) (attempt : Z)
  | FileClose (path : string) (attempt : Z)
  | GoUpdateProgress (attempt : Z)
  | BodyWriteTo (path : string) (attempt : Z)
  | SetTotalDownloaded (total : Z)
  | SetGameTitle (title : string)
  | SetDownloadSize (size : Z)
  | AddToTotalDownloaded (toAdd : Z)
  | OsMkdirAll (dir : string)
  | OsReadFile (path : string)
  | CallGenerateKey (titleID : string)
  | CallGenerateTicket (path : string) (titleID : Z) (titleKey : list byte)
      (titleVersion : Z)
  | CallGenerateCert (contentCount : Z)
  | CertCreate (path : string)
  | CertWrite (path : string)
  | CertClose (path : string)
  | LoggerInfo (path : string)
  | CallDecryptContents (dir : string) (deleteEncryptedContents : bool).

(** The state outside the engine that its calls change. *)
Record World : Type := mkWorld
  { trace : list event;        (* the calls so far, oldest first *)
    files : gset string;       (* the paths created so far *)
    polls : nat;               (* the calls of Cancelled() by DownloadTitle so far *)
    totalDownloaded : Z;       (* the collaborator's cumulative counter *)
    deferred : list event      (* deferred calls of the running function *) }.

Definition emit (evs : list event) (w : World) : World :=
  mkWorld (trace w ++ evs) (files w) (polls w) (totalDownloaded w) (deferred w).

Definition create (path : string) (w : World) : World :=
  mkWorld (trace w) ({[ path ]} ∪ files w) (polls w) (totalDownloaded w)
    (deferred w).

(** What one transfer attempt meets outside the engine. *)
Record Attempt : Type :=
  { doErr : option error;      (* client.Do(req, resp) *)
    status : Z;                (* the status code it stores in resp *)
    createErr : option error;  (* os.Create(dstPath) *)
    writerErr : option error;  (* NewFileWriterWithProgress(file, &downloaded) *)
    ctxDone : bool;            (* ctx.Done() is closed when the select runs *)
    bodyErr : option error     (* resp.BodyWriteTo(customBufferedWriter) *) }.

Definition releaseAll (dstPath : string) (attempt : Z) : list event :=
  [CloseBodyStream attempt; FileClose dstPath attempt;
   ReleaseRequest attempt; ReleaseResponse attempt].

(** Lines 112-133, the select of one attempt: either the function
    returns, or control reaches line 134 with the flag [isError]. *)
Definition selectBody (a : Attempt) (dstPath : string) (doRetries : bool)
    (attempt : Z) (w : World) : World * (option error + bool) :=
  if ctxDone a then
    (emit (releaseAll dstPath attempt) w, inl (Some ErrContext))
  else
    let w := emit [BodyWriteTo dstPath attempt] w in
    match bodyErr a with
    | Some err =>
        if negb (error_eqb_EOF err) then
          let w := emit (releaseAll dstPath attempt) w in
          if doRetries && (attempt <? maxRetries) then
            (emit [Sleep retryDelay] w, inr true)
          else (w, inl (Some (ErrStream attempt err)))
        else (w, inr false)
    | None => (w, inr false)
    end.

(** Lines 59-143: the loop [for attempt := 1; attempt <= maxRetries;
    attempt++] and the final [return nil]. [n] counts the iterations the
    loop header still admits, [maxRetries + 1 - attempt]; when none is
    left the loop ends and line 143 returns nil. *)
Fixpoint attemptLoop (net : Z -> Attempt) (downloadURL dstPath : string)
    (doRetries : bool) (n : nat) (attempt : Z) (w : World)
    : World * option error :=
  match n with
  | O => (w, None)
  | S n' =>
      let a := net attempt in
      let w := emit [AcquireRequest attempt; AcquireResponse attempt;
                     ClientDo downloadURL attempt] w in
      match doErr a with
      | Some err =>
          (emit [ReleaseRequest attempt; ReleaseResponse attempt] w, Some err)
      | None =>
          let resp := {| fasthttp.statusCode := status a |} in
          if negb (fasthttp.StatusCode resp =? fasthttp.StatusOK) then
            if doRetries && (attempt <? maxRetries) then
              attemptLoop net downloadURL dstPath doRetries n' (attempt + 1)
                (emit [Sleep retryDelay] w)
            else
              let w := emit [CloseBodyStream attempt; ReleaseRequest attempt;
                             ReleaseResponse attempt] w in
              let resp := fasthttp.Reset resp in
              (w, Some (ErrStatus attempt (fasthttp.StatusCode resp)))
          else
            match createErr a with
            | Some err =>
                (emit [CloseBodyStream attempt; ReleaseRequest attempt;
                       ReleaseResponse attempt] w, Some err)
            | None =>
                let w := emit [OsCreate dstPath attempt;
                               GoUpdateProgress attempt] (create dstPath w) in
                match writerErr a with
                | Some err => (emit (releaseAll dstPath attempt) w, Some err)
                | None =>
                    match selectBody a dstPath doRetries attempt w with
                    | (w, inl result) => (w, result)
                    | (w, inr isError) =>
                        if negb isError then
                          (emit (releaseAll dstPath attempt) w, None)
                        else
                          attemptLoop net downloadURL dstPath doRetries n'
                            (attempt + 1) w
                    end
                end
            end
      end
  end.

Definition downloadFile (net : Z -> Attempt) (downloadURL dstPath : string)
    (doRetries : bool) (w : World) : World * option error :=
  attemptLoop net downloadURL dstPath doRetries (Z.to_nat maxRetries) 1 w.

End Downloader.

(** ** The acquisition of a title *)

Module Title.
Import Go Downloader.

(** The catalog record [getTitleEntryFromTid] returns; only the fields
    [DownloadTitle] reads. *)
Record TitleEntry : Type := { Name : string; TitleID : Z }.

(** Everything [DownloadTitle] calls that is not in downloader.go: the
    network, the file system, the progress collaborator's cancellation
    flag and the other files of the package. *)
Record Env : Type :=
  { transfer : string -> Z -> Attempt;   (* by URL and attempt number *)
    cancelled : nat -> bool;             (* the k-th poll of progressReporter.Cancelled() *)
    getTitleEntryFromTid : string -> TitleEntry;
    MkdirAll : string -> option error;
    ReadFile : string -> error + slice;
    filepathClean : string -> string;
    GenerateKey : string -> error + list byte;
    generateTicket : string -> Z -> list byte -> Z -> option error;
    GenerateCert : slice -> Z -> error + list byte;
                                         (* what the call of line 212 returns;
                                            what it does with the client, the
                                            context and the reporter it is
                                            handed is not modelled *)
    certCreate : string -> option error;
    certWrite : string -> list byte -> option error;
    DecryptContents : string -> bool -> option error;
    decryptRemoves : string -> bool -> gset string }.

(** [filepath.Join(dir, name)] for a non-empty [name]. *)
Definition Join (env : Env) (dir name : string) : string :=
  match dir with
  | EmptyString => filepathClean env name
  | _ => filepathClean env (dir +:+ "/" +:+ name)
  end.

(** How a statement of [DownloadTitle] ends: control moves on with a
    value, the function returns, or the goroutine panics. *)
Inductive step (A : Type) : Type :=
  | Next (a : A)
  | Return (err : option error)
  | Abort.
Arguments Next {A} a.
Arguments Return {A} err.
Arguments Abort {A}.

Definition M (A : Type) : Type := World -> World * step A.

Definition ret {A} (a : A) : M A := fun w => (w, Next a).

Definition bindM {A B} (m : M A) (f : A -> M B) : M B :=
  fun w =>
    match m w with
    | (w', Next a) => f a w'
    | (w', Return err) => (w', Return err)
    | (w', Abort) => (w', Abort)
    end.

Definition returns {A} (err : option error) : M A := fun w => (w, Return err).

Definition call (evs : list event) : M unit := fun w => (emit evs w, Next tt).

(** [if err != nil { return err }] after a computation on values. *)
Definition lift {A} (o : outcome A) : M A :=
  fun w =>
    match o with
    | Done a => (w, Next a)
    | Fail e => (w, Return (Some e))
    | Panic => (w, Abort)
    end.

Definition check (err : option error) : M unit :=
  match err with
  | Some e => returns (Some e)
  | None => ret tt
  end.

Definition checked {A} (r : error + A) : M A :=
  match r with
  | inl e => returns (Some e)
  | inr a => ret a
  end.

(** [progressReporter.Cancelled()], polled by [DownloadTitle]. *)
Definition Cancelled (env : Env) : M bool :=
  fun w =>
    (mkWorld (trace w) (files w) (S (polls w)) (totalDownloaded w) (deferred w),
     Next (cancelled env (polls w))).

(** Modelled from the spec: the progress collaborator is implemented in
    another file; [setTotalDownloaded(n)] sets its cumulative int64
    counter. *)
Definition setTotalDownloaded (total : Z) : M unit :=
  fun w =>
    (mkWorld (trace w ++ [SetTotalDownloaded total]) (files w) (polls w)
       total (deferred w), Next tt).

(** Modelled from the spec: [addToTotalDownloaded(delta)] of the progress
    collaborator advances the same int64 counter. *)
Definition addToTotalDownloaded (toAdd : Z) : M unit :=
  fun w =>
    (mkWorld (trace w ++ [AddToTotalDownloaded toAdd]) (files w) (polls w)
       (int64 (totalDownloaded w + toAdd)) (deferred w), Next tt).

(** Modelled from the spec: [GenerateTicket] is defined in another file;
    it builds the minimal ticket from the title ID, key and version it is
    given and, when it succeeds, has written it to the path it is given. *)
Definition GenerateTicket (env : Env) (path : string) (titleID : Z)
    (titleKey : list byte) (titleVersion : Z) : M unit :=
  fun w =>
    let w := emit [CallGenerateTicket path titleID titleKey titleVersion] w in
    match generateTicket env path titleID titleKey titleVersion with
    | Some e => (w, Return (Some e))
    | None => (create path w, Next tt)
    end.

Definition defer (ev : event) : M unit :=
  fun w =>
    (mkWorld (trace w) (files w) (polls w) (totalDownloaded w)
       (ev :: deferred w), Next tt).

Definition fetch (env : Env) (downloadURL dstPath : string)
    (doRetries : bool) : M (option error) :=
  fun w =>
    let '(w', err) :=
      downloadFile (transfer env downloadURL) downloadURL dstPath doRetries w in
    (w', Next err).

End Title.

Notation "x <~ m ;; k" := (Title.bindM m (fun x => k))
  (at level 100, m at next level, right associativity).

Module Acquisition.
Import Go Downloader Title.

Definition outputDirOf (outputDirectory : string) : string :=
  Text.TrimRight outputDirectory "/\".

Definition baseURLOf (titleID : string) : string :=
  "http://ccs.cdn.c.shop.nintendowifi.net/ccs/download/" +:+ titleID.

(** Lines 147-175: the metadata is fetched, read back and its version
    decoded. *)
Definition metadataStage (env : Env) (titleID outputDirectory : string)
    : M (slice * Z) :=
  let tEntry := getTitleEntryFromTid env titleID in
  _ <~ setTotalDownloaded 0 ;;
  _ <~ call [SetGameTitle (Name tEntry)] ;;
  let outputDir := outputDirOf outputDirectory in
  let baseURL := baseURLOf titleID in
  _ <~ call [OsMkdirAll outputDir] ;;
  _ <~ check (MkdirAll env outputDir) ;;
  let tmdPath := Join env outputDir "title.tmd" in
  err <~ fetch env (baseURL +:+ "/" +:+ "tmd") tmdPath true ;;
  _ <~ match err with
       | Some e =>
           c <~ Cancelled env ;;
           if c : bool then returns None else returns (Some e)
       | None => ret tt
       end ;;
  _ <~ call [OsReadFile tmdPath] ;;
  tmdData <~ checked (ReadFile env tmdPath) ;;
  titleVersion <~ lift (Metadata.readTitleVersion tmdData) ;;
  ret (tmdData, titleVersion).

(** Lines 177-189: the official ticket, or a synthesized one. *)
Definition obtainTicket (env : Env) (titleID outputDirectory : string)
    (titleVersion : Z) : M unit :=
  let tEntry := getTitleEntryFromTid env titleID in
  let tikPath := Join env (outputDirOf outputDirectory) "title.tik" in
  err <~ fetch env (baseURLOf titleID +:+ "/" +:+ "cetk") tikPath false ;;
  match err with
  | Some _ =>
      c <~ Cancelled env ;;
      if c : bool then returns None else
      _ <~ call [CallGenerateKey titleID] ;;
      titleKey <~ checked (GenerateKey env titleID) ;;
      GenerateTicket env tikPath (TitleID tEntry) titleKey titleVersion
  | None => ret tt
  end.

(** Lines 191-229: content count, content sizes, total size and the
    certificate chain. *)
Definition certificateStage (env : Env) (outputDirectory : string)
    (tmdData : slice) : M (Z * list Z) :=
  contentCount <~ lift (Metadata.readContentCount tmdData) ;;
  sizes <~ lift (Metadata.readContentSizes tmdData (Z.to_nat contentCount)
                   0 0 []) ;;
  let titleSize := fst sizes in
  let contentSizes := snd sizes in
  _ <~ call [SetDownloadSize (int64 titleSize)] ;;
  _ <~ call [CallGenerateCert contentCount] ;;
  cert <~ match GenerateCert env tmdData contentCount with
          | inl e =>
              c <~ Cancelled env ;;
              if c : bool then returns None else returns (Some e)
          | inr cert => ret cert
          end ;;
  let certPath := Join env (outputDirOf outputDirectory) "title.cert" in
  _ <~ call [CertCreate certPath] ;;
  _ <~ check (certCreate env certPath) ;;
  _ <~ (fun w => (create certPath w, Next tt)) ;;
  _ <~ call [CertWrite certPath] ;;
  _ <~ check (certWrite env certPath cert) ;;
  _ <~ defer (CertClose certPath) ;;
  _ <~ call [LoggerInfo certPath] ;;
  ret (contentCount, contentSizes).

(** Lines 240-246 and 250-256: a content transfer and the check after it;
    [true] stands for the [break]. *)
Definition fetchContent (env : Env) (downloadURL filePath : string) : M bool :=
  err <~ fetch env downloadURL filePath true ;;
  match err with
  | Some e =>
      c <~ Cancelled env ;;
      if c : bool then ret true else returns (Some e)
  | None => ret false
  end.

(** Lines 235-260, the body of the content loop for record [i]; [true]
    stands for a [break]. *)
Definition contentIteration (env : Env) (titleID outputDirectory : string)
    (tmdData : slice) (contentSizes : list Z) (i : Z) : M bool :=
  let outputDir := outputDirOf outputDirectory in
  let baseURL := baseURLOf titleID in
  id <~ lift (Metadata.readContentID tmdData i) ;;
  let filePath := Join env outputDir (Text.hex8 id +:+ ".app") in
  brk <~ fetchContent env (baseURL +:+ "/" +:+ Text.hex8 id) filePath ;;
  if brk : bool then ret true else
  sz <~ lift (Metadata.sizeAt contentSizes i) ;;
  _ <~ addToTotalDownloaded (int64 sz) ;;
  flags <~ lift (Metadata.readTypeFlags tmdData i) ;;
  brk <~ (if Metadata.hasH3 flags then
            let filePath := Join env outputDir (Text.hex8 id +:+ ".h3") in
            fetchContent env (baseURL +:+ "/" +:+ Text.hex8 id +:+ ".h3")
              filePath
          else ret false) ;;
  if brk : bool then ret true else
  Cancelled env.

Inductive loopExit : Type :=
  | LoopEnd                  (* the loop condition failed *)
  | LoopBreak (i : Z)        (* a [break] in the iteration of record [i] *).

(** Lines 234-261: the loop [for i := 0; i < int(contentCount); i++],
    with [n] the number of iterations still to run. *)
Fixpoint contentLoop (env : Env) (titleID outputDirectory : string)
    (tmdData : slice) (contentSizes : list Z) (n : nat) (i : Z)
    : M loopExit :=
  match n with
  | O => ret LoopEnd
  | S n' =>
      brk <~ contentIteration env titleID outputDirectory tmdData
               contentSizes i ;;
      if brk : bool then ret (LoopBreak i)
      else contentLoop env titleID outputDirectory tmdData contentSizes
             n' (i + 1)
  end.

(** Lines 147-261: everything up to the end of the content loop. *)
Definition downloadStage (env : Env) (titleID outputDirectory : string)
    : M loopExit :=
  md <~ metadataStage env titleID outputDirectory ;;
  _ <~ obtainTicket env titleID outputDirectory (snd md) ;;
  cs <~ certificateStage env outputDirectory (fst md) ;;
  contentLoop env titleID outputDirectory (fst md) (snd cs)
    (Z.to_nat (fst cs)) 0.

(** Modelled from the spec: [DecryptContents] is defined in another file;
    with [deleteEncryptedContents] set it removes encrypted originals. *)
Definition decryptContents (env : Env) (outputDir : string)
    (deleteEncryptedContents : bool) : M unit :=
  fun w =>
    (mkWorld (trace w ++ [CallDecryptContents outputDir deleteEncryptedContents])
       (files w ∖ decryptRemoves env outputDir deleteEncryptedContents)
       (polls w) (totalDownloaded w) (deferred w),
     match DecryptContents env outputDir deleteEncryptedContents with
     | Some e => Return (Some e)
     | None => Next tt
     end).

(** Lines 263-269. *)
Definition decryptStage (env : Env) (outputDirectory : string)
    (doDecryption deleteEncryptedContents : bool) : M unit :=
  go <~ (if doDecryption then c <~ Cancelled env ;; ret (negb c)
         else ret false) ;;
  _ <~ (if go : bool then
          decryptContents env (outputDirOf outputDirectory)
            deleteEncryptedContents
        else ret tt) ;;
  returns None.

Inductive result : Type :=
  | Returned (err : option error)
  | Panicked.

(** A call starts without deferred calls and runs them when it ends. *)
Definition enter (w : World) : World :=
  mkWorld (trace w) (files w) (polls w) (totalDownloaded w) [].

Definition runDeferred (w : World) : World :=
  mkWorld (trace w ++ deferred w) (files w) (polls w) (totalDownloaded w) [].

Definition DownloadTitle (env : Env) (titleID outputDirectory : string)
    (doDecryption deleteEncryptedContents : bool) (w : World)
    : World * result :=
  let body :=
    _ <~ downloadStage env titleID outputDirectory ;;
    decryptStage env outputDirectory doDecryption deleteEncryptedContents in
  match body (enter w) with
  | (w', Return err) => (runDeferred w', Returned err)
  | (w', Next _) => (runDeferred w', Returned None)
  | (w', Abort) => (runDeferred w', Panicked)
  end.

End Acquisition.

(** ** What is observed of a run *)

Module Observe.
Import Go Downloader Title.

(** The calls [downloadFile] makes. *)
Definition transferEvent (e : event) : bool :=
  match e with
  | AcquireRequest _ | AcquireResponse _ | ClientDo _ _ | CloseBodyStream _
  | ReleaseRequest _ | ReleaseResponse _ | Sleep _ | OsCreate _ _
  | FileClose _ _ | GoUpdateProgress _ | BodyWriteTo _ _ => true
  | _ => false
  end.

(** [w'] comes from [w] by calls of a transfer to [dst]. *)
Record transferred (dst : string) (w w' : World) : Prop :=
  { tr_polls : polls w' = polls w;
    tr_total : totalDownloaded w' = totalDownloaded w;
    tr_deferred : deferred w' = deferred w;
    tr_trace : exists evs,
        trace w' = trace w ++ evs /\ forallb transferEvent evs = true;
    tr_files_lower : files w ⊆ files w';
    tr_files_upper : files w' ⊆ {[ dst ]} ∪ files w }.

Definition extends (w w' : World) : Prop :=
  exists evs, trace w' = trace w ++ evs.

(** An attempt that gets as far as the select of lines 112-133. *)
Definition reachesSelect (a : Attempt) : Prop :=
  doErr a = None /\ status a = fasthttp.StatusOK
  /\ createErr a = None /\ writerErr a = None.

(** An attempt that is answered with a status other than 200. *)
Definition failsWithStatus (a : Attempt) : Prop :=
  doErr a = None
  /\ fasthttp.StatusCode {| fasthttp.statusCode := status a |}
     <> fasthttp.StatusOK.

(** The attempts and the pauses of a run. An attempt is one iteration of
    the loop of lines 59-141 and calls [client.Do] once (line 74); how many
    requests the library puts on the wire inside that call is its own
    matter and is not observed here. *)
Definition isDo (e : event) : bool :=
  match e with ClientDo _ _ => true | _ => false end.

Definition attemptsMade (tr : list event) : nat :=
  length (List.filter isDo tr).

Definition pauses (tr : list event) : list Z :=
  flat_map (fun e => match e with Sleep d => [d] | _ => [] end) tr.

(** Pooled objects and file handles that a run acquired and did not
    give back. *)
Definition isAcquisition (e : event) : bool :=
  match e with
  | AcquireRequest _ | AcquireResponse _ | OsCreate _ _ => true
  | _ => false
  end.

Definition releases (e r : event) : bool :=
  match e, r with
  | AcquireRequest a, ReleaseRequest b => a =? b
  | AcquireResponse a, ReleaseResponse b => a =? b
  | OsCreate p a, FileClose q b => String.eqb p q && (a =? b)
  | _, _ => false
  end.

Definition leaked (tr : list event) : list event :=
  List.filter (fun e => isAcquisition e && negb (existsb (releases e) tr)) tr.

(** Calls other than the decryption of the contents. *)
Definition quiet (e : event) : bool :=
  match e with CallDecryptContents _ _ => false | _ => true end.

(** Calls that synthesize a ticket. *)
Definition isSynthesis (e : event) : bool :=
  match e with
  | CallGenerateKey _ | CallGenerateTicket _ _ _ _ => true
  | _ => false
  end.

(** [w'] comes from [w] by steps of the download stage: calls other than
    decryption are added, files are only added. *)
Record progress (w w' : World) : Prop :=
  { pg_trace : exists evs,
      trace w' = trace w ++ evs /\ forallb quiet evs = true;
    pg_deferred : exists ds,
      deferred w' = ds ++ deferred w /\ forallb quiet ds = true;
    pg_files : files w ⊆ files w' }.

Definition steady {A} (m : M A) : Prop :=
  forall w w' r, m w = (w', r) -> progress w w'.

(** The state in which [DownloadTitle], called in [w], starts its first
    transfer. *)
Definition atFirstTransfer (env : Env) (titleID outputDirectory : string)
    (w : World) : World :=
  emit [OsMkdirAll (Acquisition.outputDirOf outputDirectory)]
    (emit [SetGameTitle (Name (getTitleEntryFromTid env titleID))]
       (mkWorld (trace w ++ [SetTotalDownloaded 0]) (files w) (polls w) 0 [])).

(** A run in which every acquisition is followed or preceded by its
    release: requests and responses by their return to the pool, created
    files by their close. *)
Definition settled (tr : list event) : Prop :=
  forallb (fun e => negb (isAcquisition e) || existsb (releases e) tr) tr = true.


End Observe.

(** ** The on-disk layout and the size of a title, as the specification
      words them *)

Module Layout.
Import Go Title Metadata.

(** The files of one content record: [<ID as 8 hex digits>.app], and the
    [.h3] file when bit 0x2 of the type flags is set. *)
Definition contentFiles (env : Env) (outputDir : string) (r : ContentRecord)
    : gset string :=
  {[ Join env outputDir (Text.hex8 (contentID r) +:+ ".app") ]}
  ∪ (if Z.testbit (u8 (typeFlags r)) 1
     then {[ Join env outputDir (Text.hex8 (contentID r) +:+ ".h3") ]}
     else ∅).

Definition titleFiles (env : Env) (outputDir : string)
    (recs : list ContentRecord) : gset string :=
  {[ Join env outputDir "title.tmd"; Join env outputDir "title.tik";
     Join env outputDir "title.cert" ]}
  ∪ ⋃ (contentFiles env outputDir <$> recs).

Definition sumSizes (recs : list ContentRecord) : Z :=
  foldr (fun r acc => contentSize r + acc) 0 recs.

End Layout.

(** ** Sample inputs *)

Module Samples.
Import Go Downloader Title.

Definition okAttempt : Attempt :=
  {| doErr := None; status := 200; createErr := None; writerErr := None;
     ctxDone := false; bodyErr := None |}.

Definition eofAttempt : Attempt :=
  {| doErr := None; status := 200; createErr := None; writerErr := None;
     ctxDone := false; bodyErr := Some EOF |}.

Definition brokenAttempt : Attempt :=
  {| doErr := None; status := 200; createErr := None; writerErr := None;
     ctxDone := false; bodyErr := Some (ErrCollaborator "connection reset") |}.

Definition cancelledAttempt : Attempt :=
  {| doErr := None; status := 200; createErr := None; writerErr := None;
     ctxDone := true; bodyErr := None |}.

Definition notFoundAttempt : Attempt :=
  {| doErr := None; status := 404; createErr := None; writerErr := None;
     ctxDone := false; bodyErr := None |}.

Definition unavailableAttempt : Attempt :=
  {| doErr := None; status := 503; createErr := None; writerErr := None;
     ctxDone := false; bodyErr := None |}.

(** An endpoint that answers 503 once and 200 from then on. *)
Definition unavailableOnce (attempt : Z) : Attempt :=
  if attempt =? 1 then unavailableAttempt else okAttempt.

Definition emptyWorld : World := mkWorld [] ∅ 0 0 [].

Definition zeros (n : nat) : list byte := repeat x00 n.

(** A content record of 0x30 bytes: identifier, index, type, size, hash. *)
Definition contentRecord (id flags sizeHi sizeLo : byte) : list byte :=
  [x00; x00; x00; id] ++ [x00; id] ++ [x00; flags]
  ++ [x00; x00; x00; x00; x00; x00; sizeHi; sizeLo] ++ zeros 32.

(** Metadata of version 1 with two records: 00000000 of 1000 bytes and
    00000001 of 2000 bytes, the second with the 0x2 flag. *)
Definition twoRecords : list byte :=
  zeros 476 ++ [x00; x01] ++ [x00; x02] ++ zeros (2820 - 480)
  ++ contentRecord x00 x00 x03 xe8 ++ contentRecord x01 x03 x07 xd0.

(** A slice as [os.ReadFile] allocates it for a file of 511 bytes or
    more: the size of the file and one spare byte. *)
Definition fromFile (content : list byte) : slice :=
  {| elems := content; spare := [x00] |}.

Definition sampleTmd : slice := fromFile twoRecords.

(** 600 bytes that declare one content record. *)
Definition truncatedTmd : slice :=
  fromFile (zeros 476 ++ [x00; x01] ++ [x00; x01] ++ zeros 120).

Definition sampleTitleID : string := "0005000010100000".

(** A service that has the metadata and the contents but no ticket. *)
Definition sampleEnv : Env :=
  {| transfer := fun url _ =>
       if bool_decide (url = Acquisition.baseURLOf sampleTitleID +:+ "/cetk")
       then notFoundAttempt else okAttempt;
     cancelled := fun _ => false;
     getTitleEntryFromTid := fun _ =>
       {| Name := "Sample"; TitleID := 0x0005000010100000 |};
     MkdirAll := fun _ => None;
     ReadFile := fun _ => inr sampleTmd;
     filepathClean := fun p => p;
     GenerateKey := fun _ => inr (zeros 16);
     generateTicket := fun _ _ _ _ => None;
     GenerateCert := fun _ _ => inr (zeros 8);
     certCreate := fun _ => None;
     certWrite := fun _ _ => None;
     DecryptContents := fun _ _ => None;
     decryptRemoves := fun _ _ => ∅ |}.

(** The same service with metadata cut off after 600 bytes. *)
Definition truncatedEnv : Env :=
  {| transfer := transfer sampleEnv;
     cancelled := cancelled sampleEnv;
     getTitleEntryFromTid := getTitleEntryFromTid sampleEnv;
     MkdirAll := MkdirAll sampleEnv;
     ReadFile := fun _ => inr truncatedTmd;
     filepathClean := filepathClean sampleEnv;
     GenerateKey := GenerateKey sampleEnv;
     generateTicket := generateTicket sampleEnv;
     GenerateCert := GenerateCert sampleEnv;
     certCreate := certCreate sampleEnv;
     certWrite := certWrite sampleEnv;
     DecryptContents := DecryptContents sampleEnv;
     decryptRemoves := decryptRemoves sampleEnv |}.


End Samples.

(** ** Runs of a transfer *)

Module Runs.
Import Go Downloader Title Observe.

(** An attempt whose response reads as status 200 and whose destination
    file and writer are created: it gets as far as the select of lines
    112-133. *)
Definition opensFile (a : Attempt) : Prop :=
  doErr a = None
  /\ fasthttp.StatusCode {| fasthttp.statusCode := status a |}
     = fasthttp.StatusOK
  /\ createErr a = None /\ writerErr a = None.

(** An attempt that the loop of lines 59-141 repeats when retries are on and
    attempts are left: it is answered with a status other than 200 (lines
    80-84), or streaming its body fails with an error other than io.EOF
    (lines 121-129). *)
Definition retried (a : Attempt) : Prop :=
  failsWithStatus a
  \/ (opensFile a /\ ctxDone a = false
      /\ exists e, bodyErr a = Some e /\ e <> EOF).

(** An attempt that streams its body to the end. *)
Definition completes (a : Attempt) : Prop :=
  opensFile a /\ ctxDone a = false
  /\ (bodyErr a = None \/ bodyErr a = Some EOF).

Definition isCreate (e : event) : bool :=
  match e with OsCreate _ _ => true | _ => false end.

(** The calls of [client.Do] and the pauses of a run, in the order in which
    they are made. *)
Inductive beat : Type :=
  | Do
  | Pause (d : Z).

Definition schedule (tr : list event) : list beat :=
  flat_map (fun e => match e with
                     | ClientDo _ _ => [Do]
                     | Sleep d => [Pause d]
                     | _ => []
                     end) tr.

(** [n + 1] calls of [client.Do] with a pause of [retryDelay] between each
    two of them: the first and the last beat are calls. *)
Fixpoint alternation (n : nat) : list beat :=
  match n with
  | O => [Do]
  | S n' => Do :: Pause retryDelay :: alternation n'
  end.

End Runs.

(** ** A program logic for the steps of [DownloadTitle] *)

Module Logic.
Import Go Downloader Title.

(** [wp m Q w]: the step that [m] ends in when it runs in [w], and the
    state it leaves, satisfy [Q]. *)
Definition wp {A} (m : M A) (Q : step A -> World -> Prop) (w : World) : Prop :=
  Q (snd (m w)) (fst (m w)).

(** What [m] has to establish in [x <~ m ;; f x] for the whole to
    establish [Q]: a return or a panic of [m] ends the whole. *)
Definition andThen {A B} (f : A -> M B) (Q : step B -> World -> Prop)
    : step A -> World -> Prop :=
  fun r w =>
    match r with
    | Next a => wp (f a) Q w
    | Return err => Q (Return err) w
    | Abort => Q Abort w
    end.

(** A metadata buffer that holds every field the engine reads. *)
Definition complete (tmdData : slice) : Prop :=
  Metadata.requiredLength tmdData <= len tmdData.

(** A stage that does not panic, and goes on only with a value that
    satisfies [V]. *)
Definition unpanicked {A} (V : A -> Prop) : step A -> World -> Prop :=
  fun r _ =>
    match r with
    | Next a => V a
    | Return _ => True
    | Abort => False
    end.

(** A stage that goes on, or returns nil. *)
Definition noError {A} : step A -> World -> Prop :=
  fun r _ =>
    match r with
    | Next _ | Return None => True
    | Return (Some _) | Abort => False
    end.

(** A stage that goes on with a value that satisfies [V]. *)
Definition goesOn {A} (V : A -> Prop) : step A -> World -> Prop :=
  fun r _ => exists a, r = Next a /\ V a.

End Logic.

(** ** What a run transfers, decrypts, counts and closes *)

Module Started.
Import Go Downloader Title Metadata.

(** What [DownloadTitle] starts outside itself that may use the network: a
    transfer, by a call of [downloadFile] (lines 160, 178, 241 and 251), and
    the assembly of the certificate chain, by its call of [GenerateCert]
    (line 212). What [GenerateCert] asks of the client it is handed happens
    in another file, inside that call, and is not modelled. *)
Inductive start : Type :=
  | Transfer (url : string)
  | Certificate.

(** What a run starts, in order: one entry for the first attempt of each
    transfer and one for each call of [GenerateCert]. *)
Definition started (tr : list event) : list start :=
  flat_map (fun e => match e with
                     | ClientDo url attempt =>
                         if attempt =? 1 then [Transfer url] else []
                     | CallGenerateCert _ => [Certificate]
                     | _ => []
                     end) tr.

(** The transfers of one content record. *)
Definition contentStarts (baseURL : string) (r : ContentRecord) : list start :=
  Transfer (baseURL +:+ "/" +:+ Text.hex8 (contentID r))
  :: (if Z.testbit (u8 (typeFlags r)) 1
      then [Transfer (baseURL +:+ "/" +:+ Text.hex8 (contentID r) +:+ ".h3")]
      else []).

Definition titleStarts (baseURL : string) (recs : list ContentRecord)
    : list start :=
  [Transfer (baseURL +:+ "/" +:+ "tmd"); Transfer (baseURL +:+ "/" +:+ "cetk");
   Certificate]
  ++ flat_map (contentStarts baseURL) recs.

(** What a stage that goes on starts: the entries of [l]. *)
Definition asks {A} (w : World) (l : A -> list start)
    : step A -> World -> Prop :=
  fun r w' =>
    match r with
    | Next a => started (trace w') = started (trace w) ++ l a
    | _ => True
    end.

End Started.

Module Decryption.
Import Go Downloader Title Observe.

(** The calls of [DecryptContents] in a run. *)
Definition decryptions (tr : list event) : nat :=
  length (List.filter (fun e => negb (quiet e)) tr).

End Decryption.

Module Counter.
Import Go Downloader Title Metadata.

Definition sumZ (l : list Z) : Z := foldr Z.add 0 l.

(** The content sizes [DownloadTitle] reads at lines 196-208 from the
    metadata file it reads back at line 167; none when one of the reads
    fails. *)
Definition sizesRead (env : Env) (outputDirectory : string) : list Z :=
  match ReadFile env
          (Join env (Acquisition.outputDirOf outputDirectory) "title.tmd") with
  | inr tmdData =>
      match readContentCount tmdData with
      | Done contentCount =>
          match readContentSizes tmdData (Z.to_nat contentCount) 0 0 [] with
          | Done sizes => snd sizes
          | _ => []
          end
      | _ => []
      end
  | inl _ => []
  end.

End Counter.

Module Certificate.
Import Go Downloader Title.

(** Calls other than those that follow the deferral of line 228: the log
    line of 229 and the deferred close itself. *)
Definition early (e : event) : bool :=
  match e with
  | LoggerInfo _ | CertClose _ => false
  | _ => true
  end.

Definition notClose (e : event) : bool :=
  match e with CertClose _ => false | _ => true end.

(** [w'] comes from [w] by early calls, with the same deferred calls. *)
Definition before (w w' : World) : Prop :=
  deferred w' = deferred w
  /\ exists evs, trace w' = trace w ++ evs /\ forallb early evs = true.

End Certificate.

Module Paths.
Import Go Downloader Title.

(** The names of the files of a title: the three fixed ones and, for an
    identifier, its content and hash files. *)
Definition engineName (name : string) : Prop :=
  name = "title.tmd" \/ name = "title.tik" \/ name = "title.cert"
  \/ exists id : Z,
       name = Text.hex8 id +:+ ".app" \/ name = Text.hex8 id +:+ ".h3".

(** A path that [filepath.Join] makes of the output directory and one of
    these names. *)
Definition inOutputDir (env : Env) (outputDir path : string) : Prop :=
  exists name, engineName name /\ path = Join env outputDir name.

(** [w'] has the files of [w] and, besides, only such paths. *)
Definition grows (env : Env) (outputDir : string) (w w' : World) : Prop :=
  forall path,
    path ∈ files w' -> path ∈ files w \/ inOutputDir env outputDir path.

Definition isSeparator (c : Ascii.ascii) : bool :=
  Text.inCutset c "/\".

End Paths.

(** ** The caller in the main window *)

Module Window.

(** part_000, line 204: the output directory that [onRowActivated] hands
    to [DownloadTitle], [fmt.Sprintf("%s/%s [%s]", selectedPath, nameStr,
    tidStr)]. *)
Definition downloadDirectory (selectedPath nameStr tidStr : string) : string :=
  selectedPath +:+ "/" +:+ nameStr +:+ " [" +:+ tidStr +:+ "]".

End Window.

(** ** More sample inputs *)

Module Cases.
Import Go Downloader Title Samples.

Definition refusedAttempt : Attempt :=
  {| doErr := Some (ErrCollaborator "connection refused"); status := 0;
     createErr := None; writerErr := None; ctxDone := false;
     bodyErr := None |}.

Definition readOnlyAttempt : Attempt :=
  {| doErr := None; status := 200;
     createErr := Some (ErrCollaborator "permission denied");
     writerErr := None; ctxDone := false; bodyErr := None |}.

(** An endpoint that answers 503, then breaks off a body, then serves. *)
Definition flakyThenOk (attempt : Z) : Attempt :=
  if attempt =? 1 then unavailableAttempt
  else if attempt =? 2 then brokenAttempt else okAttempt.

(** The same endpoint when the connection is refused at the third
    attempt. *)
Definition flakyThenRefused (attempt : Z) : Attempt :=
  if attempt =? 1 then unavailableAttempt
  else if attempt =? 2 then brokenAttempt else refusedAttempt.

(** The same endpoint when the file cannot be created at the third
    attempt. *)
Definition flakyThenReadOnly (attempt : Z) : Attempt :=
  if attempt =? 1 then unavailableAttempt
  else if attempt =? 2 then brokenAttempt else readOnlyAttempt.

(** An endpoint that alternates between 503 and a broken body. *)
Definition neverServes (attempt : Z) : Attempt :=
  if Z.odd attempt then unavailableAttempt else brokenAttempt.

(** The sample service with the cancellation flag set from the start. *)
Definition flagSetEnv : Env :=
  {| transfer := transfer sampleEnv;
     cancelled := fun _ => true;
     getTitleEntryFromTid := getTitleEntryFromTid sampleEnv;
     MkdirAll := MkdirAll sampleEnv;
     ReadFile := ReadFile sampleEnv;
     filepathClean := filepathClean sampleEnv;
     GenerateKey := GenerateKey sampleEnv;
     generateTicket := generateTicket sampleEnv;
     GenerateCert := GenerateCert sampleEnv;
     certCreate := certCreate sampleEnv;
     certWrite := certWrite sampleEnv;
     DecryptContents := DecryptContents sampleEnv;
     decryptRemoves := decryptRemoves sampleEnv |}.

(** The sample service when the output directory cannot be created. *)
Definition readOnlyEnv : Env :=
  {| transfer := transfer sampleEnv;
     cancelled := cancelled sampleEnv;
     getTitleEntryFromTid := getTitleEntryFromTid sampleEnv;
     MkdirAll := fun _ => Some (ErrCollaborator "permission denied");
     ReadFile := ReadFile sampleEnv;
     filepathClean := filepathClean sampleEnv;
     GenerateKey := GenerateKey sampleEnv;
     generateTicket := generateTicket sampleEnv;
     GenerateCert := GenerateCert sampleEnv;
     certCreate := certCreate sampleEnv;
     certWrite := certWrite sampleEnv;
     DecryptContents := DecryptContents sampleEnv;
     decryptRemoves := decryptRemoves sampleEnv |}.

(** A metadata file that ends two bytes into the identifier of its first
    record, in a buffer with room for the record. *)
Definition cutInIdentifier : slice :=
  {| elems := zeros 476 ++ [x00; x01] ++ [x00; x01] ++ zeros (2822 - 480);
     spare := zeros 64 |}.

(** The sample service when it also has the ticket. *)
Definition servingEnv : Env :=
  {| transfer := fun _ _ => okAttempt;
     cancelled := cancelled sampleEnv;
     getTitleEntryFromTid := getTitleEntryFromTid sampleEnv;
     MkdirAll := MkdirAll sampleEnv;
     ReadFile := ReadFile sampleEnv;
     filepathClean := filepathClean sampleEnv;
     GenerateKey := GenerateKey sampleEnv;
     generateTicket := generateTicket sampleEnv;
     GenerateCert := GenerateCert sampleEnv;
     certCreate := certCreate sampleEnv;
     certWrite := certWrite sampleEnv;
     DecryptContents := DecryptContents sampleEnv;
     decryptRemoves := decryptRemoves sampleEnv |}.

(** Metadata of version 1 with one record, 00000000, whose size field holds
    0xFFFFFFFFFFFFFFFF. *)
Definition hugeRecord : list byte :=
  zeros 476 ++ [x00; x01] ++ [x00; x01] ++ zeros (2820 - 480)
  ++ [x00; x00; x00; x00] ++ [x00; x00] ++ [x00; x00]
  ++ [xff; xff; xff; xff; xff; xff; xff; xff] ++ zeros 32.

Definition hugeTmd : slice := fromFile hugeRecord.

(** The serving service with this metadata. *)
Definition hugeEnv : Env :=
  {| transfer := transfer servingEnv;
     cancelled := cancelled servingEnv;
     getTitleEntryFromTid := getTitleEntryFromTid servingEnv;
     MkdirAll := MkdirAll servingEnv;
     ReadFile := fun _ => inr hugeTmd;
     filepathClean := filepathClean servingEnv;
     GenerateKey := GenerateKey servingEnv;
     generateTicket := generateTicket servingEnv;
     GenerateCert := GenerateCert servingEnv;
     certCreate := certCreate servingEnv;
     certWrite := certWrite servingEnv;
     DecryptContents := DecryptContents servingEnv;
     decryptRemoves := decryptRemoves servingEnv |}.

(** The sample service when the context is cancelled while the ticket is
    fetched and the flag of the progress collaborator is not set. *)
Definition contextCancelledAtTicket : Env :=
  {| transfer := fun url _ =>
       if bool_decide (url = Acquisition.baseURLOf sampleTitleID +:+ "/cetk")
       then cancelledAttempt else okAttempt;
     cancelled := fun _ => false;
     getTitleEntryFromTid := getTitleEntryFromTid sampleEnv;
     MkdirAll := MkdirAll sampleEnv;
     ReadFile := ReadFile sampleEnv;
     filepathClean := filepathClean sampleEnv;
     GenerateKey := GenerateKey sampleEnv;
     generateTicket := generateTicket sampleEnv;
     GenerateCert := GenerateCert sampleEnv;
     certCreate := certCreate sampleEnv;
     certWrite := certWrite sampleEnv;
     DecryptContents := DecryptContents sampleEnv;
     decryptRemoves := decryptRemoves sampleEnv |}.


End Cases.

(** ** Cancellation in the content loop *)

Module Cancellation.
Import Go Downloader Title Acquisition.




End Cancellation.

(** * Properties *)

(** ** Big-endian decoding *)

Section BigEndian.
Import Go.

Lemma u8_range (b : byte) : 0 <= u8 b < 256.
Proof.
  unfold u8. pose proof (Byte.to_N_bounded b). lia.
Qed.

Lemma lor_shiftl_add (lo hi k : Z) :
  0 <= k -> 0 <= lo < 2 ^ k -> Z.lor lo (Z.shiftl hi k) = lo + hi * 2 ^ k.
Proof.
  intros Hk Hlo.
  rewrite <- Z.shiftl_mul_pow2 by assumption.
  symmetry. apply Z.add_nocarry_lor.
  apply Z.bits_inj'. intros n Hn.
  rewrite Z.land_spec, Z.bits_0.
  destruct (Z.lt_ge_cases n k) as [Hlt | Hge].
  - rewrite (Z.shiftl_spec_low hi k n Hlt). apply andb_false_r.
  - replace (Z.testbit lo n) with false; [reflexivity |].
    symmetry. rewrite <- (Z.mod_small lo (2 ^ k)) by assumption.
    apply Z.mod_pow2_bits_high. lia.
Qed.

Lemma Uint16_value (a b : byte) :
  binary.Uint16 [a; b] = Metadata.bigEndianValue [a; b] 0.
Proof.
  unfold binary.Uint16, binary.at_. simpl.
  pose proof (u8_range a). pose proof (u8_range b).
  rewrite lor_shiftl_add by lia. lia.
Qed.

Lemma Uint32_value (a b c d : byte) :
  binary.Uint32 [a; b; c; d] = Metadata.bigEndianValue [a; b; c; d] 0.
Proof.
  unfold binary.Uint32, binary.at_. simpl.
  pose proof (u8_range a). pose proof (u8_range b).
  pose proof (u8_range c). pose proof (u8_range d).
  rewrite (lor_shiftl_add (u8 d)) by lia.
  rewrite (lor_shiftl_add (u8 d + _)) by lia.
  rewrite (lor_shiftl_add (u8 d + _ + _)) by lia.
  lia.
Qed.

Lemma Uint64_value (a b c d e f g h : byte) :
  binary.Uint64 [a; b; c; d; e; f; g; h]
  = Metadata.bigEndianValue [a; b; c; d; e; f; g; h] 0.
Proof.
  unfold binary.Uint64, binary.at_. simpl.
  pose proof (u8_range a). pose proof (u8_range b).
  pose proof (u8_range c). pose proof (u8_range d).
  pose proof (u8_range e). pose proof (u8_range f).
  pose proof (u8_range g). pose proof (u8_range h).
  rewrite (lor_shiftl_add (u8 h)) by lia.
  rewrite (lor_shiftl_add (u8 h + _)) by lia.
  rewrite (lor_shiftl_add (u8 h + _ + _)) by lia.
  rewrite (lor_shiftl_add (u8 h + _ + _ + _)) by lia.
  rewrite (lor_shiftl_add (u8 h + _ + _ + _ + _)) by lia.
  rewrite (lor_shiftl_add (u8 h + _ + _ + _ + _ + _)) by lia.
  rewrite (lor_shiftl_add (u8 h + _ + _ + _ + _ + _ + _)) by lia.
  lia.
Qed.

End BigEndian.

(** ** Slice expressions and reads at fixed offsets *)

Section Reads.
Import Go.

Lemma len_le_cap (s : slice) : len s <= cap s.
Proof. unfold len, cap, backing. rewrite length_app. lia. Qed.

Lemma sliceExpr_in_range (s : slice) (lo hi : Z) :
  0 <= lo -> lo <= hi -> hi <= cap s ->
  exists b, sliceExpr s lo hi = Done b
    /\ elems b = take (Z.to_nat (hi - lo)) (drop (Z.to_nat lo) (backing s))
    /\ length (elems b) = Z.to_nat (hi - lo).
Proof.
  intros H0 Hlh Hc. unfold sliceExpr.
  replace ((0 <=? lo) && (lo <=? hi) && (hi <=? cap s)) with true
    by (symmetry; rewrite !andb_true_iff; repeat split; lia).
  eexists. split; [reflexivity |]. split; [reflexivity |]. simpl.
  rewrite length_take, length_drop. unfold cap in Hc. lia.
Qed.

Lemma sliceExpr_out_of_range (s : slice) (lo hi : Z) :
  cap s < hi -> sliceExpr s lo hi = Panic.
Proof.
  intros Hc. unfold sliceExpr.
  replace (hi <=? cap s) with false by (symmetry; lia).
  now rewrite andb_false_r.
Qed.

Lemma backing_below_len (s : slice) (lo : Z) (n : nat) :
  0 <= lo -> lo + Z.of_nat n <= len s ->
  take n (drop (Z.to_nat lo) (backing s))
  = take n (drop (Z.to_nat lo) (elems s)).
Proof.
  intros H0 Hl. unfold backing, len in *.
  rewrite drop_app_le by lia.
  rewrite take_app_le; [reflexivity |]. rewrite length_drop. lia.
Qed.

Lemma ReadFull_exact (bs : list byte) (n : nat) :
  (0 < n)%nat -> length bs = n ->
  binary.ReadFull {| bytes.s := bs; bytes.i := 0 |} n = Done bs.
Proof.
  intros Hn Hl. unfold binary.ReadFull, bytes.remaining.
  cbn [bytes.i bytes.s]. change (Z.to_nat 0) with 0%nat. rewrite drop_0.
  destruct bs as [| b bs']; [simpl in Hl; lia |].
  replace (length (b :: bs') <? n)%nat with false
    by (symmetry; apply Nat.ltb_ge; lia).
  f_equal. subst n. apply firstn_all.
Qed.

Lemma length2 {A} (l : list A) :
  length l = 2%nat -> exists a b, l = [a; b].
Proof.
  destruct l as [| a [| b [| c l]]]; simpl; intros; try lia. eauto.
Qed.

Lemma length4 {A} (l : list A) :
  length l = 4%nat -> exists a b c d, l = [a; b; c; d].
Proof.
  destruct l as [| a [| b [| c [| d [| e l]]]]]; simpl; intros; try lia.
  eauto 6.
Qed.

Lemma length8 {A} (l : list A) :
  length l = 8%nat -> exists a b c d e f g h, l = [a; b; c; d; e; f; g; h].
Proof.
  destruct l as [| a [| b [| c [| d [| e [| f [| g [| h [| k l]]]]]]]]];
    simpl; intros; try lia.
  eauto 10.
Qed.

(** A two-byte field inside the capacity decodes to the big-endian value
    of the backing array. *)
Lemma read16_backing (s : slice) (off : Z) :
  0 <= off -> off + 2 <= cap s ->
  (b <- sliceExpr s off (off + 2) ;; binary.ReadUint16 (bytes.NewReader b))
  = Done (Metadata.bigEndianValue
            (take 2 (drop (Z.to_nat off) (backing s))) 0).
Proof.
  intros H0 Hc.
  destruct (sliceExpr_in_range s off (off + 2)) as (b & -> & He & Hl);
    try lia.
  replace (Z.to_nat (off + 2 - off)) with 2%nat in * by lia.
  simpl. unfold binary.ReadUint16, bytes.NewReader.
  rewrite (ReadFull_exact _ 2) by (auto; lia). simpl.
  rewrite <- He. destruct (length2 _ Hl) as (x & y & ->).
  now rewrite Uint16_value.
Qed.

Lemma read64_backing (s : slice) (off : Z) :
  0 <= off -> off + 8 <= cap s ->
  (b <- sliceExpr s off (off + 8) ;; binary.ReadUint64 (bytes.NewReader b))
  = Done (Metadata.bigEndianValue
            (take 8 (drop (Z.to_nat off) (backing s))) 0).
Proof.
  intros H0 Hc.
  destruct (sliceExpr_in_range s off (off + 8)) as (b & -> & He & Hl);
    try lia.
  replace (Z.to_nat (off + 8 - off)) with 8%nat in * by lia.
  simpl. unfold binary.ReadUint64, bytes.NewReader.
  rewrite (ReadFull_exact _ 8) by (auto; lia). simpl.
  rewrite <- He. destruct (length8 _ Hl) as (x1 & x2 & x3 & x4 & x5 & x6 & x7 & x8 & ->).
  now rewrite Uint64_value.
Qed.

Lemma read16_ok (s : slice) (off : Z) :
  0 <= off -> off + 2 <= len s ->
  (b <- sliceExpr s off (off + 2) ;; binary.ReadUint16 (bytes.NewReader b))
  = Done (Metadata.fieldAt s off 2).
Proof.
  intros H0 Hl. pose proof (len_le_cap s).
  rewrite read16_backing by lia. unfold Metadata.fieldAt.
  now rewrite backing_below_len by lia.
Qed.

Lemma read64_ok (s : slice) (off : Z) :
  0 <= off -> off + 8 <= len s ->
  (b <- sliceExpr s off (off + 8) ;; binary.ReadUint64 (bytes.NewReader b))
  = Done (Metadata.fieldAt s off 8).
Proof.
  intros H0 Hl. pose proof (len_le_cap s).
  rewrite read64_backing by lia. unfold Metadata.fieldAt.
  now rewrite backing_below_len by lia.
Qed.

Lemma bind_assoc {A B C} (m : outcome A) (g : A -> outcome B)
    (h : B -> outcome C) :
  Go.bind (Go.bind m g) h = Go.bind m (fun x => Go.bind (g x) h).
Proof. destruct m; reflexivity. Qed.

Lemma read64_then {A} (s : slice) (off : Z) (k : Z -> outcome A) :
  0 <= off -> off + 8 <= len s ->
  (b <- sliceExpr s off (off + 8) ;;
   x <- binary.ReadUint64 (bytes.NewReader b) ;; k x)
  = k (Metadata.fieldAt s off 8).
Proof.
  intros H0 Hl.
  transitivity
    (Go.bind (b <- sliceExpr s off (off + 8) ;;
              binary.ReadUint64 (bytes.NewReader b)) k).
  - symmetry. apply bind_assoc.
  - now rewrite read64_ok.
Qed.

Lemma readContentID_ok (s : slice) (i : Z) :
  0 <= i -> 2820 + 48 * i + 4 <= len s ->
  Metadata.readContentID s i = Done (Metadata.fieldAt s (0xB04 + 0x30 * i) 4).
Proof.
  intros H0 Hl. unfold Metadata.readContentID, Metadata.ReadContentIDField,
    binary.ReadUint32, binary.ReadFull, bytes.remaining, Metadata.fieldAt.
  simpl bytes.i. simpl bytes.s.
  change (0xB04 + 0x30 * i) with (2820 + 48 * i).
  set (rest := drop (Z.to_nat (2820 + 48 * i)) (elems s)).
  assert (Hr : (4 <= length rest)%nat)
    by (unfold rest; rewrite length_drop; unfold len in Hl; lia).
  destruct rest as [| r0 rest'] eqn:Er; [simpl in Hr; lia |].
  replace (length (r0 :: rest') <? 4)%nat with false
    by (symmetry; apply Nat.ltb_ge; exact Hr).
  assert (Ht : length (take 4 (r0 :: rest')) = 4%nat)
    by (rewrite length_take; lia).
  destruct (length4 _ Ht) as (a & b & c & d & Hq).
  cbn [Go.bind]. rewrite Hq. now rewrite Uint32_value.
Qed.

Lemma readTypeFlags_ok (s : slice) (i : Z) :
  0 <= i -> 2820 + 48 * i + 7 < len s ->
  Metadata.readTypeFlags s i
  = Done (Metadata.byteAt s (0xB04 + 0x30 * i + 7)).
Proof.
  intros H0 Hl. unfold Metadata.readTypeFlags, index, Metadata.byteAt.
  change (0xB04 + 0x30 * i + 7) with (2820 + 48 * i + 7).
  replace (0 <=? 2820 + 48 * i + 7) with true by (symmetry; lia).
  destruct (elems s !! Z.to_nat (2820 + 48 * i + 7)) as [b |] eqn:E.
  - f_equal. symmetry. now apply nth_lookup_Some with (d := x00) in E.
  - apply lookup_ge_None in E. unfold len in Hl. lia.
Qed.

Lemma hasH3_bit (b : byte) :
  Metadata.hasH3 b = Z.testbit (u8 b) 1.
Proof. destruct b; reflexivity. Qed.

(** ** Formatting *)

Lemma hex8_length (v : Z) : String.length (Text.hex8 v) = 8%nat.
Proof. reflexivity. Qed.

Lemma hex8_examples :
  Text.hex8 0 = "00000000" /\ Text.hex8 1 = "00000001"
  /\ Text.hex8 0xDEADBEEF = "DEADBEEF".
Proof. repeat split; reflexivity. Qed.

Lemma TrimRight_examples :
  Text.TrimRight "out/" "/\" = "out" /\ Text.TrimRight "a/b//\" "/\" = "a/b"
  /\ Text.TrimRight "out" "/\" = "out".
Proof. repeat split; reflexivity. Qed.

End Reads.

(** ** The parsing stage on buffers that hold their declared fields *)

Section Parse.
Import Go Metadata.

Lemma readContentSizes_ok (s : slice) (n : nat) :
  forall i ts cs,
    0 <= i ->
    (n = 0%nat \/ 0xB04 + 0x30 * (i + Z.of_nat n - 1) + 16 <= len s) ->
    exists ts',
      readContentSizes s n i ts cs
      = Done (ts', cs ++ (sizeField s <$> seqZ i (Z.of_nat n))).
Proof.
  induction n as [| n IH]; intros i ts cs Hi Hb.
  - exists ts. simpl. now rewrite app_nil_r.
  - destruct Hb as [Hb | Hb]; [discriminate |].
    cbn [readContentSizes]. cbv zeta.
    rewrite read64_then by lia.
    fold (sizeField s i).
    destruct (IH (i + 1) (uint64 (ts + sizeField s i)) (cs ++ [sizeField s i]))
      as (ts' & ->); [lia | right; lia |].
    exists ts'. f_equal. f_equal.
    rewrite <- app_assoc. f_equal.
    replace (Z.of_nat (S n)) with (Z.succ (Z.of_nat n)) by lia.
    rewrite (seqZ_cons i) by lia. simpl.
    replace (Z.pred (Z.succ (Z.of_nat n))) with (Z.of_nat n) by lia.
    replace (Z.succ i) with (i + 1) by lia.
    reflexivity.
Qed.

Lemma readContents_ok (s : slice) (sizes : list Z) (n : nat) :
  forall i,
    0 <= i ->
    (n = 0%nat \/ 0xB04 + 0x30 * (i + Z.of_nat n - 1) + 16 <= len s) ->
    (forall k, i <= k < i + Z.of_nat n ->
               sizes !! Z.to_nat k = Some (sizeField s k)) ->
    readContents s sizes n i = Done (recordAt s <$> seqZ i (Z.of_nat n)).
Proof.
  induction n as [| n IH]; intros i Hi Hb Hs.
  - reflexivity.
  - destruct Hb as [Hb | Hb]; [discriminate |].
    cbn [readContents].
    rewrite readContentID_ok by lia. cbn [Go.bind].
    unfold sizeAt. rewrite (Hs i) by lia. cbn [Go.bind].
    rewrite readTypeFlags_ok by lia. cbn [Go.bind].
    rewrite IH; [| lia | right; lia | intros k Hk; apply Hs; lia].
    cbn [Go.bind]. f_equal.
    replace (Z.of_nat (S n)) with (Z.succ (Z.of_nat n)) by lia.
    rewrite (seqZ_cons i) by lia. simpl.
    replace (Z.pred (Z.succ (Z.of_nat n))) with (Z.of_nat n) by lia.
    replace (Z.succ i) with (i + 1) by lia.
    reflexivity.
Qed.

Lemma declaredCount_below_len (s : slice) :
  480 <= len s -> declaredCount s = fieldAt s 478 2.
Proof.
  intros H. unfold declaredCount, fieldAt.
  change 478%nat with (Z.to_nat 478).
  now rewrite backing_below_len by lia.
Qed.

Lemma bigEndianValue_bound (bs : list byte) :
  forall acc, 0 <= acc ->
    0 <= bigEndianValue bs acc
    < (acc + 1) * 256 ^ Z.of_nat (length bs).
Proof.
  induction bs as [| b bs IH]; intros acc Hacc.
  - simpl. lia.
  - cbn [bigEndianValue length]. pose proof (u8_range b).
    specialize (IH (256 * acc + u8 b) ltac:(lia)).
    replace (Z.of_nat (S (length bs))) with (Z.of_nat (length bs) + 1) by lia.
    rewrite Z.pow_add_r by lia.
    assert (0 < 256 ^ Z.of_nat (length bs)) by (apply Z.pow_pos_nonneg; lia).
    nia.
Qed.

Lemma declaredCount_range (s : slice) : 0 <= declaredCount s < 65536.
Proof.
  unfold declaredCount.
  pose proof (bigEndianValue_bound (take 2 (drop 478 (backing s))) 0
                ltac:(lia)) as H.
  assert (Hl : (length (take 2 (drop 478 (backing s))) <= 2)%nat)
    by (rewrite length_take; lia).
  assert (256 ^ Z.of_nat (length (take 2 (drop 478 (backing s)))) <= 256 ^ 2)
    by (apply Z.pow_le_mono_r; lia).
  lia.
Qed.

End Parse.

Section ParseValid.
Import Go Metadata.

Lemma readTitleVersion_ok (s : slice) :
  478 <= len s -> readTitleVersion s = Done (fieldAt s 476 2).
Proof.
  intros H. exact (read16_ok s 476 ltac:(lia) ltac:(lia)).
Qed.

Lemma readContentCount_ok (s : slice) :
  480 <= len s -> readContentCount s = Done (fieldAt s 478 2).
Proof.
  intros H. exact (read16_ok s 478 ltac:(lia) ltac:(lia)).
Qed.

Lemma requiredLength_inv (s : slice) :
  requiredLength s <= len s ->
  480 <= len s
  /\ (declaredCount s = 0
      \/ 0xB04 + 0x30 * (declaredCount s - 1) + 16 <= len s).
Proof.
  unfold requiredLength. pose proof (len_le_cap s).
  pose proof (declaredCount_range s).
  destruct (cap s <? 480) eqn:E1; [lia |].
  destruct (declaredCount s =? 0) eqn:E2; lia.
Qed.

Lemma parse_ok (s : slice) :
  requiredLength s <= len s ->
  exists ts,
    parse s = Done {| titleVersion := fieldAt s 476 2;
                      contentCount := fieldAt s 478 2;
                      titleSize := ts;
                      contents := recordAt s <$> seqZ 0 (fieldAt s 478 2) |}.
Proof.
  intros H. destruct (requiredLength_inv s H) as [H480 Hrec].
  rewrite declaredCount_below_len in Hrec by assumption.
  pose proof (declaredCount_range s) as Hr.
  rewrite declaredCount_below_len in Hr by assumption.
  set (c := fieldAt s 478 2) in *.
  unfold parse.
  rewrite readTitleVersion_ok by lia. cbn [Go.bind].
  rewrite readContentCount_ok by lia. cbn [Go.bind]. fold c.
  assert (Hb : Z.to_nat c = 0%nat
               \/ 0xB04 + 0x30 * (0 + Z.of_nat (Z.to_nat c) - 1) + 16 <= len s)
    by (destruct Hrec; [left | right]; lia).
  destruct (readContentSizes_ok s (Z.to_nat c) 0 0 [] ltac:(lia) Hb)
    as (ts & ->).
  cbn [Go.bind snd fst app].
  rewrite readContents_ok; [| lia | exact Hb |].
  - cbn [Go.bind]. exists ts. rewrite Z2Nat.id by lia. reflexivity.
  - intros k Hk. rewrite list_lookup_fmap.
    rewrite lookup_seqZ_lt by lia. simpl. f_equal. f_equal. lia.
Qed.

End ParseValid.

Section ParseClaims.
Import Go Metadata Samples.

(** ** Buffers that are too short *)

Lemma declaredCount_read (s : slice) :
  480 <= cap s -> readContentCount s = Done (declaredCount s).
Proof.
  intros H. exact (read16_backing s 478 ltac:(lia) ltac:(lia)).
Qed.

Lemma readTitleVersion_within_cap (s : slice) :
  478 <= cap s -> exists v, readTitleVersion s = Done v.
Proof.
  intros H. eexists. exact (read16_backing s 476 ltac:(lia) ltac:(lia)).
Qed.

Lemma readContentSizes_short (s : slice) (n : nat) :
  forall i ts cs,
    0 <= i -> (0 < n)%nat ->
    cap s < 0xB04 + 0x30 * (i + Z.of_nat n - 1) + 16 ->
    readContentSizes s n i ts cs = Panic.
Proof.
  induction n as [| n IH]; intros i ts cs Hi Hn Hc; [lia |].
  cbn [readContentSizes]. cbv zeta.
  destruct (Z.lt_ge_cases (cap s) (0xB04 + 0x30 * i + 8 + 8)) as [Hlt | Hge].
  - now rewrite sliceExpr_out_of_range.
  - transitivity
      (Go.bind (b <- sliceExpr s (0xB04 + 0x30 * i + 8) (0xB04 + 0x30 * i + 8 + 8) ;;
                binary.ReadUint64 (bytes.NewReader b))
         (fun contentSizeInt =>
            readContentSizes s n (i + 1) (uint64 (ts + contentSizeInt))
              (cs ++ [contentSizeInt]))).
    { symmetry. apply bind_assoc. }
    rewrite read64_backing by lia. cbn [Go.bind].
    apply IH; lia.
Qed.

(** C1, as amended. For every metadata buffer whose capacity is below the
    end of the last field the code reads (480, or the end of the size field
    of the last declared record), parsing returns no truncation error: it
    stops in a run-time panic at the first slice expression that reaches
    past the buffer, and no byte outside the buffer is read. *)
Theorem short_buffer_panics (tmdData : slice) :
  cap tmdData < requiredLength tmdData -> parse tmdData = Panic.
Proof.
  unfold requiredLength. intros H. unfold parse.
  destruct (cap tmdData <? 480) eqn:E480.
  - destruct (Z.lt_ge_cases (cap tmdData) 478) as [Hlt | Hge].
    + unfold readTitleVersion. now rewrite sliceExpr_out_of_range.
    + destruct (readTitleVersion_within_cap tmdData Hge) as (v & ->).
      cbn [Go.bind]. unfold readContentCount.
      rewrite sliceExpr_out_of_range by lia. reflexivity.
  - destruct (readTitleVersion_within_cap tmdData ltac:(lia)) as (v & ->).
    cbn [Go.bind]. rewrite declaredCount_read by lia. cbn [Go.bind].
    pose proof (declaredCount_range tmdData) as Hr.
    destruct (declaredCount tmdData =? 0) eqn:E0; [lia |].
    rewrite readContentSizes_short; [reflexivity | lia | lia |].
    rewrite Z2Nat.id by lia. lia.
Qed.

(** C1, the claim as stated fails: 600 bytes of metadata that declare one
    content record are shorter than the 2836 bytes that record needs, and
    parsing ends in a panic, not in a returned error. *)
Lemma truncated_metadata_panics :
  len truncatedTmd = 600 /\ requiredLength truncatedTmd = 2836
  /\ parse truncatedTmd = Panic.
Proof. vm_compute. auto. Qed.

(** The amended C1 at the truncated sample. *)
Lemma short_buffer_panics_witness :
  cap truncatedTmd < requiredLength truncatedTmd /\ parse truncatedTmd = Panic.
Proof.
  split; [vm_compute; reflexivity |].
  apply (short_buffer_panics truncatedTmd). vm_compute. reflexivity.
Defined.

(** A short file in a buffer with spare capacity is read past its end. *)
Lemma spare_capacity_is_read :
  parse {| elems := []; spare := zeros 512 |}
  = Done {| titleVersion := 0; contentCount := 0; titleSize := 0;
            contents := [] |}.
Proof. vm_compute. reflexivity. Qed.

(** C5. For every metadata buffer long enough to hold its declared fields,
    parsing returns the version as the big-endian 16-bit value at offset
    476, the content count as the big-endian 16-bit value at offset 478,
    and exactly that many records from the table at 0xB04 with stride 0x30:
    each with its 32-bit identifier, its type-flags byte at offset 7 of the
    record (bit 0x2 marks the integrity-tree file) and its big-endian
    64-bit size at offset 8. *)
Theorem parse_returns_declared_fields (tmdData : slice) :
  requiredLength tmdData <= len tmdData ->
  exists tmd,
    parse tmdData = Done tmd
    /\ titleVersion tmd = fieldAt tmdData 476 2
    /\ contentCount tmd = fieldAt tmdData 478 2
    /\ Z.of_nat (length (contents tmd)) = contentCount tmd
    /\ forall k, 0 <= k < contentCount tmd ->
         exists r,
           contents tmd !! Z.to_nat k = Some r
           /\ contentID r = fieldAt tmdData (0xB04 + 0x30 * k) 4
           /\ typeFlags r = byteAt tmdData (0xB04 + 0x30 * k + 7)
           /\ hasH3 (typeFlags r) = Z.testbit (u8 (typeFlags r)) 1
           /\ contentSize r = fieldAt tmdData (0xB04 + 0x30 * k + 8) 8.
Proof.
  intros H. destruct (parse_ok tmdData H) as (ts & Hp).
  destruct (requiredLength_inv tmdData H) as [H480 _].
  pose proof (declaredCount_range tmdData) as Hr.
  rewrite declaredCount_below_len in Hr by assumption.
  eexists. split; [exact Hp |]. cbn [titleVersion contentCount contents].
  split; [reflexivity |]. split; [reflexivity |]. split.
  - rewrite length_fmap, length_seqZ. lia.
  - intros k Hk. exists (recordAt tmdData k). split.
    + rewrite list_lookup_fmap, lookup_seqZ_lt by lia. cbn. f_equal. f_equal. lia.
    + unfold recordAt, sizeField. cbn. repeat split; try reflexivity.
      apply hasH3_bit.
Qed.

(** C5 at the sample metadata. *)
Lemma parse_returns_declared_fields_witness :
  requiredLength sampleTmd <= len sampleTmd
  /\ exists tmd,
       parse sampleTmd = Done tmd
       /\ titleVersion tmd = fieldAt sampleTmd 476 2
       /\ contentCount tmd = fieldAt sampleTmd 478 2
       /\ Z.of_nat (length (contents tmd)) = contentCount tmd
       /\ forall k, 0 <= k < contentCount tmd ->
            exists r,
              contents tmd !! Z.to_nat k = Some r
              /\ contentID r = fieldAt sampleTmd (0xB04 + 0x30 * k) 4
              /\ typeFlags r = byteAt sampleTmd (0xB04 + 0x30 * k + 7)
              /\ hasH3 (typeFlags r) = Z.testbit (u8 (typeFlags r)) 1
              /\ contentSize r = fieldAt sampleTmd (0xB04 + 0x30 * k + 8) 8.
Proof.
  split; [vm_compute; discriminate |].
  apply (parse_returns_declared_fields sampleTmd). vm_compute. discriminate.
Defined.

End ParseClaims.

(** ** Transfers *)

Section Transfers.
Import Go Downloader Observe Samples.

Lemma transferred_refl dst w : transferred dst w w.
Proof.
  split; try reflexivity.
  - exists []. rewrite app_nil_r. auto.
  - apply union_subseteq_r.
Qed.

Lemma transferred_trans dst w1 w2 w3 :
  transferred dst w1 w2 -> transferred dst w2 w3 -> transferred dst w1 w3.
Proof.
  intros [p1 t1 d1 (e1 & E1 & F1) l1 u1] [p2 t2 d2 (e2 & E2 & F2) l2 u2].
  split; try congruence.
  - exists (e1 ++ e2). rewrite E2, E1, <- app_assoc. split; [reflexivity |].
    rewrite forallb_app, F1, F2. reflexivity.
  - etrans; eassumption.
  - intros x Hx. apply u2 in Hx. apply elem_of_union in Hx as [Hx | Hx].
    + apply elem_of_union_l, Hx.
    + apply u1, Hx.
Qed.

Lemma transferred_emit dst evs w :
  forallb transferEvent evs = true -> transferred dst w (emit evs w).
Proof.
  intros H. split; try reflexivity.
  - exists evs. auto.
  - apply union_subseteq_r.
Qed.

Lemma transferred_create dst w : transferred dst w (create dst w).
Proof.
  split; try reflexivity.
  - exists []. simpl. rewrite app_nil_r. auto.
  - apply union_subseteq_r.
Qed.

Lemma selectBody_transferred a dst doRetries attempt w w' r :
  selectBody a dst doRetries attempt w = (w', r) -> transferred dst w w'.
Proof.
  unfold selectBody. intros H.
  repeat match type of H with
         | context [if ?b then _ else _] => destruct b
         | context [match ?o with Some _ => _ | None => _ end] => destruct o
         end;
    inversion H; subst; clear H;
    repeat (eapply transferred_trans; [| apply transferred_emit; reflexivity]);
    apply transferred_refl.
Qed.

Lemma attemptLoop_transferred net url dst doRetries n :
  forall attempt w w' r,
    attemptLoop net url dst doRetries n attempt w = (w', r) ->
    transferred dst w w'.
Proof.
  induction n as [| n IH]; intros attempt w w' r H.
  - inversion H; subst. apply transferred_refl.
  - cbn [attemptLoop] in H.
    destruct (doErr (net attempt)).
    { inversion H; subst; clear H.
      repeat (eapply transferred_trans; [| apply transferred_emit; reflexivity]).
      apply transferred_refl. }
    destruct (negb _).
    { destruct (doRetries && _).
      - apply IH in H.
        eapply transferred_trans; [| exact H].
        repeat (eapply transferred_trans; [| apply transferred_emit; reflexivity]).
        apply transferred_refl.
      - inversion H; subst; clear H.
        repeat (eapply transferred_trans; [| apply transferred_emit; reflexivity]).
        apply transferred_refl. }
    destruct (createErr (net attempt)).
    { inversion H; subst; clear H.
      repeat (eapply transferred_trans; [| apply transferred_emit; reflexivity]).
      apply transferred_refl. }
    destruct (writerErr (net attempt)).
    { inversion H; subst; clear H.
      repeat (eapply transferred_trans; [| apply transferred_emit; reflexivity]).
      eapply transferred_trans; [| apply transferred_create].
      repeat (eapply transferred_trans; [| apply transferred_emit; reflexivity]).
      apply transferred_refl. }
    destruct (selectBody _ _ _ _ _) as [w1 [res | isError]] eqn:Es.
    all: apply selectBody_transferred in Es.
    all: assert (Hpre : transferred dst w w1)
      by (eapply transferred_trans; [| exact Es];
          repeat (eapply transferred_trans; [| apply transferred_emit; reflexivity]);
          eapply transferred_trans; [| apply transferred_create];
          repeat (eapply transferred_trans; [| apply transferred_emit; reflexivity]);
          apply transferred_refl).
    + inversion H; subst. exact Hpre.
    + destruct (negb isError).
      * inversion H; subst; clear H.
        eapply transferred_trans; [exact Hpre |]. apply transferred_emit. reflexivity.
      * apply IH in H. eapply transferred_trans; eauto.
Qed.

Lemma attemptLoop_success_creates net url dst doRetries n :
  forall attempt w w',
    attemptLoop net url dst doRetries n attempt w = (w', None) ->
    (0 < n)%nat -> attempt + Z.of_nat n = maxRetries + 1 ->
    dst ∈ files w'.
Proof.
  induction n as [| n IH]; intros attempt w w' H Hn Hinv; [lia |].
  cbn [attemptLoop] in H.
  destruct (doErr (net attempt)); [discriminate |].
  destruct (negb _).
  { destruct doRetries; cbn [andb] in H; [| discriminate].
    destruct (attempt <? maxRetries) eqn:Hlt; [| discriminate].
    apply IH in H; [exact H | lia | lia]. }
  destruct (createErr (net attempt)); [discriminate |].
  destruct (writerErr (net attempt)); [discriminate |].
  match type of H with
  | context [selectBody ?a ?p ?r ?k ?w1] =>
      assert (Hin : dst ∈ files w1) by (simpl; apply elem_of_union_l, elem_of_singleton; reflexivity);
      destruct (selectBody a p r k w1) as [w2 [res | isError]] eqn:Es
  end.
  all: apply selectBody_transferred in Es; apply (tr_files_lower _ _ _ Es) in Hin.
  - inversion H; subst. exact Hin.
  - destruct (negb isError).
    + inversion H; subst. exact Hin.
    + apply attemptLoop_transferred in H. apply (tr_files_lower _ _ _ H), Hin.
Qed.

Lemma downloadFile_transferred net url dst doRetries w w' r :
  downloadFile net url dst doRetries w = (w', r) -> transferred dst w w'.
Proof. apply attemptLoop_transferred. Qed.

Lemma downloadFile_success_files net url dst doRetries w w' :
  downloadFile net url dst doRetries w = (w', None) ->
  files w' = {[ dst ]} ∪ files w.
Proof.
  intros H. pose proof (downloadFile_transferred _ _ _ _ _ _ _ H) as Ht.
  apply attemptLoop_success_creates in H; [| unfold maxRetries; lia ..].
  apply set_eq. intros x. split; intros Hx.
  - apply (tr_files_upper _ _ _ Ht), Hx.
  - apply elem_of_union in Hx as [Hx | Hx].
    + apply elem_of_singleton in Hx. subst. exact H.
    + apply (tr_files_lower _ _ _ Ht), Hx.
Qed.

Lemma attemptLoop_at_select net url dst doRetries n attempt w :
  reachesSelect (net attempt) ->
  attemptLoop net url dst doRetries (S n) attempt w
  = match selectBody (net attempt) dst doRetries attempt
            (emit [OsCreate dst attempt; GoUpdateProgress attempt]
               (create dst
                  (emit [AcquireRequest attempt; AcquireResponse attempt;
                         ClientDo url attempt] w))) with
    | (w1, inl result) => (w1, result)
    | (w1, inr isError) =>
        if negb isError then (emit (releaseAll dst attempt) w1, None)
        else attemptLoop net url dst doRetries n (attempt + 1) w1
    end.
Proof.
  intros (Hd & Hs & Hc & Hw). cbn [attemptLoop].
  rewrite Hd, Hs, Hc, Hw. reflexivity.
Qed.

(** C10. An attempt whose streaming ends with [io.EOF] completes the
    transfer: the body stream and the file are closed, request and response
    are released, no further attempt or pause follows, and the result is
    nil. *)
Theorem eof_completes_transfer net url dst doRetries n attempt w :
  reachesSelect (net attempt) ->
  ctxDone (net attempt) = false ->
  bodyErr (net attempt) = Some EOF ->
  exists w',
    attemptLoop net url dst doRetries (S n) attempt w = (w', None)
    /\ trace w' = trace w ++
         [AcquireRequest attempt; AcquireResponse attempt; ClientDo url attempt;
          OsCreate dst attempt; GoUpdateProgress attempt;
          BodyWriteTo dst attempt;
          CloseBodyStream attempt; FileClose dst attempt;
          ReleaseRequest attempt; ReleaseResponse attempt].
Proof.
  intros Hr Hctx Hb. rewrite attemptLoop_at_select by assumption.
  unfold selectBody. rewrite Hctx, Hb. cbn [error_eqb_EOF negb].
  eexists. split; [reflexivity |].
  unfold emit, create, releaseAll; cbn. rewrite <- !app_assoc. reflexivity.
Qed.

(** C3, as amended. When the context is done as an attempt reaches its
    cancellation check, [downloadFile] streams nothing, closes the body
    stream and the file, releases request and response, and returns the
    context's error: at the level of the fetch, cancellation is an error. *)
Theorem context_done_returns_context_error net url dst doRetries n attempt w :
  reachesSelect (net attempt) ->
  ctxDone (net attempt) = true ->
  exists w',
    attemptLoop net url dst doRetries (S n) attempt w = (w', Some ErrContext)
    /\ trace w' = trace w ++
         [AcquireRequest attempt; AcquireResponse attempt; ClientDo url attempt;
          OsCreate dst attempt; GoUpdateProgress attempt;
          CloseBodyStream attempt; FileClose dst attempt;
          ReleaseRequest attempt; ReleaseResponse attempt].
Proof.
  intros Hr Hctx. rewrite attemptLoop_at_select by assumption.
  unfold selectBody. rewrite Hctx.
  eexists. split; [reflexivity |].
  unfold emit, create, releaseAll; cbn. rewrite <- !app_assoc. reflexivity.
Qed.

Lemma extends_refl w : extends w w.
Proof. exists []. now rewrite app_nil_r. Qed.

Lemma extends_trans w1 w2 w3 : extends w1 w2 -> extends w2 w3 -> extends w1 w3.
Proof.
  intros (e1 & E1) (e2 & E2). exists (e1 ++ e2).
  now rewrite E2, E1, <- app_assoc.
Qed.

Lemma extends_emit evs w : extends w (emit evs w).
Proof. now exists evs. Qed.

Lemma extends_create p w : extends w (create p w).
Proof. exists []. simpl. now rewrite app_nil_r. Qed.

Lemma transferred_extends dst w w' : transferred dst w w' -> extends w w'.
Proof. intros H. destruct (tr_trace _ _ _ H) as (evs & E & _). now exists evs. Qed.

Lemma attemptLoop_starts_with_get net url dst doRetries n attempt w :
  exists evs,
    trace (fst (attemptLoop net url dst doRetries (S n) attempt w))
    = trace w ++ [AcquireRequest attempt; AcquireResponse attempt;
                  ClientDo url attempt] ++ evs.
Proof.
  destruct (attemptLoop net url dst doRetries (S n) attempt w) as [w' r] eqn:E.
  cbn [attemptLoop] in E.
  match type of E with
  | context [emit ?evs w] => set (w1 := emit evs w) in *
  end.
  assert (Ht : extends w1 w').
  { destruct (doErr (net attempt)).
    { inversion E; subst. apply extends_emit. }
    destruct (negb _).
    { destruct (doRetries && _).
      - apply attemptLoop_transferred, transferred_extends in E.
        eapply extends_trans; [apply extends_emit | exact E].
      - inversion E; subst. apply extends_emit. }
    destruct (createErr (net attempt)).
    { inversion E; subst. apply extends_emit. }
    assert (Hc : extends w1 (emit [OsCreate dst attempt; GoUpdateProgress attempt]
                               (create dst w1)))
      by (eapply extends_trans; [apply extends_create | apply extends_emit]).
    destruct (writerErr (net attempt)).
    { inversion E; subst. eapply extends_trans; [exact Hc | apply extends_emit]. }
    destruct (selectBody _ _ _ _ _) as [w2 [res | isError]] eqn:Es.
    all: apply selectBody_transferred, transferred_extends in Es.
    all: pose proof (extends_trans _ _ _ Hc Es) as H2.
    - inversion E; subst. exact H2.
    - destruct (negb isError).
      + inversion E; subst. eapply extends_trans; [exact H2 | apply extends_emit].
      + apply attemptLoop_transferred, transferred_extends in E.
        eapply extends_trans; eassumption. }
  destruct Ht as (evs & Ht). exists evs. cbn [fst]. rewrite Ht. unfold w1.
  cbn [emit trace]. rewrite <- app_assoc. reflexivity.
Qed.

(** C4. A write or body error while streaming is never dropped: with
    retries enabled and attempts remaining, the attempt's resources are
    released and, after the pause, the GET of the next attempt is issued;
    otherwise [downloadFile] returns an error that carries the attempt
    count. *)
Theorem stream_error_retried_or_returned net url dst doRetries n attempt w e :
  reachesSelect (net attempt) ->
  ctxDone (net attempt) = false ->
  bodyErr (net attempt) = Some e -> e <> EOF ->
  attempt + Z.of_nat (S n) = maxRetries + 1 ->
  let w1 := emit ([AcquireRequest attempt; AcquireResponse attempt;
                   ClientDo url attempt; OsCreate dst attempt;
                   GoUpdateProgress attempt; BodyWriteTo dst attempt]
                  ++ releaseAll dst attempt) (create dst w) in
  if doRetries && (attempt <? maxRetries) then
    attemptLoop net url dst doRetries (S n) attempt w
    = attemptLoop net url dst doRetries n (attempt + 1)
        (emit [Sleep retryDelay] w1)
    /\ exists evs,
         trace (fst (attemptLoop net url dst doRetries (S n) attempt w))
         = trace w1 ++ [Sleep retryDelay; AcquireRequest (attempt + 1);
                        AcquireResponse (attempt + 1);
                        ClientDo url (attempt + 1)] ++ evs
  else
    attemptLoop net url dst doRetries (S n) attempt w
    = (w1, Some (ErrStream attempt e)).
Proof.
  intros Hr Hctx Hb Hne Hinv w1.
  assert (Heof : error_eqb_EOF e = false)
    by (destruct e; [exfalso; apply Hne; reflexivity | reflexivity ..]).
  rewrite attemptLoop_at_select by assumption.
  unfold selectBody. rewrite Hctx, Hb, Heof. cbn [negb].
  destruct (doRetries && (attempt <? maxRetries)) eqn:Hretry.
  - cbn [negb].
    assert (Hw : emit [Sleep retryDelay]
              (emit (releaseAll dst attempt)
                 (emit [BodyWriteTo dst attempt]
                    (emit [OsCreate dst attempt; GoUpdateProgress attempt]
                       (create dst
                          (emit [AcquireRequest attempt; AcquireResponse attempt;
                                 ClientDo url attempt] w)))))
            = emit [Sleep retryDelay] w1).
    { unfold w1, emit, create, releaseAll; cbn. rewrite <- !app_assoc. reflexivity. }
    rewrite Hw. split; [reflexivity |].
    apply andb_true_iff in Hretry as [_ Hlt].
    destruct n as [| n']; [lia |].
    destruct (attemptLoop_starts_with_get net url dst doRetries n' (attempt + 1)
                (emit [Sleep retryDelay] w1)) as (evs & Hevs).
    exists evs. rewrite Hevs. simpl. rewrite <- !app_assoc. reflexivity.
  - f_equal. unfold w1, emit, create, releaseAll; cbn.
    rewrite <- !app_assoc. reflexivity.
Qed.

Lemma attemptLoop_status_retry net url dst n attempt w :
  failsWithStatus (net attempt) -> attempt < maxRetries ->
  attemptLoop net url dst true (S n) attempt w
  = attemptLoop net url dst true n (attempt + 1)
      (emit [AcquireRequest attempt; AcquireResponse attempt; ClientDo url attempt; Sleep retryDelay] w).
Proof.
  intros [Hd Hs] Hlt. cbn [attemptLoop]. rewrite Hd.
  apply Z.eqb_neq in Hs. rewrite Hs. cbn [negb andb].
  replace (attempt <? maxRetries) with true by (symmetry; lia).
  f_equal. unfold emit. cbn. rewrite <- app_assoc. reflexivity.
Qed.

Lemma attemptLoop_status_final net url dst doRetries n attempt w :
  failsWithStatus (net attempt) -> doRetries && (attempt <? maxRetries) = false ->
  attemptLoop net url dst doRetries (S n) attempt w
  = (emit [AcquireRequest attempt; AcquireResponse attempt; ClientDo url attempt;
           CloseBodyStream attempt; ReleaseRequest attempt; ReleaseResponse attempt] w,
     Some (ErrStatus attempt fasthttp.StatusOK)).
Proof.
  intros [Hd Hs] Hlt. cbn [attemptLoop]. rewrite Hd.
  apply Z.eqb_neq in Hs. rewrite Hs. cbn [negb]. rewrite Hlt.
  f_equal. unfold emit. cbn. rewrite <- app_assoc. reflexivity.
Qed.

Lemma downloadFile_status_no_retry net url dst w :
  failsWithStatus (net 1) ->
  downloadFile net url dst false w
  = (emit [AcquireRequest 1; AcquireResponse 1; ClientDo url 1;
           CloseBodyStream 1; ReleaseRequest 1; ReleaseResponse 1] w,
     Some (ErrStatus 1 fasthttp.StatusOK)).
Proof.
  intros H. unfold downloadFile. change (Z.to_nat maxRetries) with 5%nat.
  now rewrite attemptLoop_status_final.
Qed.

Lemma downloadFile_status_retries net url dst w :
  (forall a, failsWithStatus (net a)) ->
  downloadFile net url dst true w
  = (emit [AcquireRequest 1; AcquireResponse 1; ClientDo url 1; Sleep retryDelay;
           AcquireRequest 2; AcquireResponse 2; ClientDo url 2; Sleep retryDelay;
           AcquireRequest 3; AcquireResponse 3; ClientDo url 3; Sleep retryDelay;
           AcquireRequest 4; AcquireResponse 4; ClientDo url 4; Sleep retryDelay;
           AcquireRequest 5; AcquireResponse 5; ClientDo url 5;
           CloseBodyStream 5; ReleaseRequest 5; ReleaseResponse 5] w,
     Some (ErrStatus 5 fasthttp.StatusOK)).
Proof.
  intros H. unfold downloadFile.
  change (Z.to_nat maxRetries) with 5%nat.
  do 4 (rewrite attemptLoop_status_retry by (auto; unfold maxRetries; lia)).
  cbn [Z.add Pos.add Pos.succ].
  rewrite attemptLoop_status_final by (auto).
  f_equal. unfold emit; cbn. rewrite <- !app_assoc. reflexivity.
Qed.

Lemma attemptLoop_no_retry net url dst n attempt w w' r :
  attemptLoop net url dst false (S n) attempt w = (w', r) ->
  exists evs,
    trace w' = trace w ++ evs
    /\ attemptsMade evs = 1%nat /\ pauses evs = []
    /\ forallb transferEvent evs = true.
Proof.
  cbn [attemptLoop]. unfold selectBody. cbn [andb].
  intros H.
  repeat (cbn [negb] in H;
          match type of H with
          | context [match ?o with Some _ => _ | None => _ end] => destruct o
          | context [if ?b then _ else _] => destruct b
          end);
    cbn [negb] in H; inversion H; subst; clear H;
    unfold emit, create, releaseAll; cbn [trace];
    rewrite <- ?app_assoc; eexists; (split; [reflexivity |]);
    repeat split; reflexivity.
Qed.

Lemma downloadFile_no_retry net url dst w w' r :
  downloadFile net url dst false w = (w', r) ->
  exists evs,
    trace w' = trace w ++ evs
    /\ attemptsMade evs = 1%nat /\ pauses evs = []
    /\ forallb transferEvent evs = true.
Proof. apply attemptLoop_no_retry. Qed.

(** ** Every path but the retry after a status gives back what it took *)

Lemma settled_leaked_aux tr l :
  forallb (fun e => negb (isAcquisition e) || existsb (releases e) tr) l = true ->
  List.filter (fun e => isAcquisition e && negb (existsb (releases e) tr)) l = [].
Proof.
  induction l as [| e l IH]; [reflexivity |].
  cbn [forallb List.filter]. intros H.
  apply andb_true_iff in H as [He Hl].
  rewrite IH by exact Hl.
  destruct (isAcquisition e); cbn [negb orb andb] in *; [| reflexivity].
  now rewrite He.
Qed.

Lemma settled_leaked tr : settled tr -> leaked tr = [].
Proof. apply settled_leaked_aux. Qed.

Lemma settled_app l1 l2 : settled l1 -> settled l2 -> settled (l1 ++ l2).
Proof.
  unfold settled. intros H1 H2. rewrite forallb_app.
  apply andb_true_iff. split; apply forallb_forall; intros e Hin.
  - pose proof (proj1 (forallb_forall _ _) H1 e Hin) as He. cbv beta in He.
    rewrite existsb_app.
    apply orb_true_iff in He as [He | He]; [now rewrite He |].
    rewrite He. now rewrite orb_true_r.
  - pose proof (proj1 (forallb_forall _ _) H2 e Hin) as He. cbv beta in He.
    rewrite existsb_app.
    apply orb_true_iff in He as [He | He]; [now rewrite He |].
    rewrite He. now rewrite !orb_true_r.
Qed.

Lemma settled_nil : settled [].
Proof. reflexivity. Qed.

Ltac settle :=
  unfold settled, releaseAll;
  cbn [app forallb isAcquisition existsb releases negb orb andb];
  rewrite ?Z.eqb_refl, ?String.eqb_refl;
  cbn [forallb isAcquisition existsb releases negb orb andb];
  rewrite ?orb_true_r; reflexivity.

Lemma attemptLoop_settled net url dst doRetries n :
  (forall a, doErr (net a) = None ->
             fasthttp.StatusCode {| fasthttp.statusCode := status (net a) |}
             <> fasthttp.StatusOK ->
             doRetries && (a <? maxRetries) = false) ->
  forall attempt w w' r,
    attemptLoop net url dst doRetries n attempt w = (w', r) ->
    exists evs, trace w' = trace w ++ evs /\ settled evs.
Proof.
  intros Hno. induction n as [| n IH]; intros attempt w w' r H.
  - inversion H; subst. exists []. rewrite app_nil_r. split; [reflexivity | apply settled_nil].
  - cbn [attemptLoop] in H.
    destruct (doErr (net attempt)) eqn:Hd.
    { inversion H; subst. cbn [emit trace]. rewrite <- app_assoc.
      eexists. split; [reflexivity |]. cbn [app]. settle. }
    destruct (negb _) eqn:Hs.
    { rewrite (Hno attempt Hd) in H
        by (apply negb_true_iff, Z.eqb_neq in Hs; exact Hs).
      inversion H; subst. cbn [emit trace]. rewrite <- app_assoc.
      eexists. split; [reflexivity |]. cbn [app]. settle. }
    destruct (createErr (net attempt)).
    { inversion H; subst. cbn [emit trace]. rewrite <- app_assoc.
      eexists. split; [reflexivity |]. cbn [app]. settle. }
    destruct (writerErr (net attempt)).
    { inversion H; subst. cbn [emit create trace releaseAll].
      rewrite <- !app_assoc. eexists. split; [reflexivity |]. cbn [app]. settle. }
    unfold selectBody in H.
    destruct (ctxDone (net attempt)).
    { inversion H; subst. cbn [emit create trace releaseAll].
      rewrite <- !app_assoc. eexists. split; [reflexivity |]. cbn [app]. settle. }
    destruct (bodyErr (net attempt)) as [err |].
    + destruct (negb (error_eqb_EOF err)).
      * destruct (doRetries && (attempt <? maxRetries)).
        -- cbn [negb] in H. apply IH in H as (evs & E & S).
           exists (([AcquireRequest attempt; AcquireResponse attempt;
                     ClientDo url attempt]
                    ++ [OsCreate dst attempt; GoUpdateProgress attempt]
                    ++ [BodyWriteTo dst attempt] ++ releaseAll dst attempt
                    ++ [Sleep retryDelay]) ++ evs).
           split.
           ++ rewrite E. cbn [emit create trace]. rewrite <- !app_assoc.
              reflexivity.
           ++ apply settled_app; [settle | exact S].
        -- inversion H; subst. cbn [emit create trace releaseAll].
           rewrite <- !app_assoc. eexists. split; [reflexivity |]. cbn [app]. settle.
      * cbn [negb] in H. inversion H; subst. cbn [emit create trace releaseAll].
        rewrite <- !app_assoc. eexists. split; [reflexivity |]. cbn [app]. settle.
    + cbn [negb] in H. inversion H; subst. cbn [emit create trace releaseAll].
      rewrite <- !app_assoc. eexists. split; [reflexivity |]. cbn [app]. settle.
Qed.

Lemma downloadFile_releases_without_status_retry net url dst doRetries w w' r :
  (forall a, doErr (net a) = None ->
             fasthttp.StatusCode {| fasthttp.statusCode := status (net a) |}
             <> fasthttp.StatusOK ->
             doRetries && (a <? maxRetries) = false) ->
  downloadFile net url dst doRetries w = (w', r) ->
  exists evs, trace w' = trace w ++ evs /\ leaked evs = [].
Proof.
  intros Hno H. apply attemptLoop_settled in H as (evs & E & S); [| exact Hno].
  exists evs. split; [exact E | now apply settled_leaked].
Qed.

(** ** Runs on sample endpoints *)

(** C2. Against an endpoint that answers 404 to every attempt, a retrying
    transfer makes exactly five GET requests with a pause of five seconds
    between consecutive ones and returns an error with attempt count 5; a
    transfer without retries makes exactly one and returns an error at
    once. The status in both errors is read from the response after it went
    back to the pool: it is 200, not the 404 of the endpoint. *)
Theorem status_error_reports_reset_status :
  attemptsMade
    (trace (fst (downloadFile (fun _ => notFoundAttempt) "u" "d" true emptyWorld)))
  = 5%nat
  /\ pauses
       (trace (fst (downloadFile (fun _ => notFoundAttempt) "u" "d" true emptyWorld)))
     = [retryDelay; retryDelay; retryDelay; retryDelay]
  /\ retryDelay = 5 * Second
  /\ snd (downloadFile (fun _ => notFoundAttempt) "u" "d" true emptyWorld)
     = Some (ErrStatus 5 200)
  /\ attemptsMade
       (trace (fst (downloadFile (fun _ => notFoundAttempt) "u" "d" false emptyWorld)))
     = 1%nat
  /\ snd (downloadFile (fun _ => notFoundAttempt) "u" "d" false emptyWorld)
     = Some (ErrStatus 1 200)
  /\ status notFoundAttempt = 404.
Proof. vm_compute. repeat split; reflexivity. Qed.

(** C9. Against an endpoint that answers 503 once and 200 afterwards, the
    transfer succeeds, and the request and the response of the first
    attempt are never released (nor is its body stream closed): the retry
    after a non-success status continues without giving them back. *)
Theorem status_retry_leaks_request_and_response :
  snd (downloadFile unavailableOnce "u" "d" true emptyWorld) = None
  /\ leaked (trace (fst (downloadFile unavailableOnce "u" "d" true emptyWorld)))
     = [AcquireRequest 1; AcquireResponse 1]
  /\ existsb (fun e => match e with CloseBodyStream 1 => true | _ => false end)
       (trace (fst (downloadFile unavailableOnce "u" "d" true emptyWorld)))
     = false.
Proof. vm_compute. repeat split; reflexivity. Qed.

(** C3, the claim as stated fails: with the context done before the
    transfer, [downloadFile] returns the context's error, not nil. *)
Lemma cancellation_is_returned_as_error :
  ctxDone cancelledAttempt = true
  /\ snd (downloadFile (fun _ => cancelledAttempt) "u" "d" true emptyWorld)
     = Some ErrContext.
Proof. vm_compute. split; reflexivity. Qed.

(** C10 at an endpoint whose body ends with [io.EOF]. *)
Lemma eof_completes_transfer_witness :
  exists w',
    attemptLoop (fun _ => eofAttempt) "u" "d" true 5 1 emptyWorld = (w', None)
    /\ trace w' = trace emptyWorld ++
         [AcquireRequest 1; AcquireResponse 1; ClientDo "u" 1;
          OsCreate "d" 1; GoUpdateProgress 1; BodyWriteTo "d" 1;
          CloseBodyStream 1; FileClose "d" 1;
          ReleaseRequest 1; ReleaseResponse 1].
Proof.
  apply (eof_completes_transfer (fun _ => eofAttempt) "u" "d" true 4 1 emptyWorld).
  - repeat split; reflexivity.
  - reflexivity.
  - reflexivity.
Defined.

(** The amended C3 at an endpoint fetched under a cancelled context. *)
Lemma context_done_returns_context_error_witness :
  exists w',
    attemptLoop (fun _ => cancelledAttempt) "u" "d" true 5 1 emptyWorld
    = (w', Some ErrContext)
    /\ trace w' = trace emptyWorld ++
         [AcquireRequest 1; AcquireResponse 1; ClientDo "u" 1;
          OsCreate "d" 1; GoUpdateProgress 1;
          CloseBodyStream 1; FileClose "d" 1;
          ReleaseRequest 1; ReleaseResponse 1].
Proof.
  apply (context_done_returns_context_error (fun _ => cancelledAttempt)
           "u" "d" true 4 1 emptyWorld).
  - repeat split; reflexivity.
  - reflexivity.
Defined.

(** C4 at an endpoint whose body breaks: the first attempt is retried, the
    fifth returns the error. *)
Lemma stream_error_retried_or_returned_witness :
  (attemptLoop (fun _ => brokenAttempt) "u" "d" true 5 1 emptyWorld
   = attemptLoop (fun _ => brokenAttempt) "u" "d" true 4 2
       (emit [Sleep retryDelay]
          (emit ([AcquireRequest 1; AcquireResponse 1; ClientDo "u" 1;
                  OsCreate "d" 1; GoUpdateProgress 1; BodyWriteTo "d" 1]
                 ++ releaseAll "d" 1) (create "d" emptyWorld)))
   /\ exists evs,
        trace (fst (attemptLoop (fun _ => brokenAttempt) "u" "d" true 5 1
                      emptyWorld))
        = trace (emit ([AcquireRequest 1; AcquireResponse 1; ClientDo "u" 1;
                        OsCreate "d" 1; GoUpdateProgress 1; BodyWriteTo "d" 1]
                       ++ releaseAll "d" 1) (create "d" emptyWorld))
          ++ [Sleep retryDelay; AcquireRequest 2; AcquireResponse 2;
              ClientDo "u" 2] ++ evs)
  /\ attemptLoop (fun _ => brokenAttempt) "u" "d" true 1 5 emptyWorld
     = (emit ([AcquireRequest 5; AcquireResponse 5; ClientDo "u" 5;
               OsCreate "d" 5; GoUpdateProgress 5; BodyWriteTo "d" 5]
              ++ releaseAll "d" 5) (create "d" emptyWorld),
        Some (ErrStream 5 (ErrCollaborator "connection reset"))).
Proof.
  split.
  - apply (stream_error_retried_or_returned (fun _ => brokenAttempt)
             "u" "d" true 4 1 emptyWorld (ErrCollaborator "connection reset")).
    + repeat split; reflexivity.
    + reflexivity.
    + reflexivity.
    + discriminate.
    + reflexivity.
  - apply (stream_error_retried_or_returned (fun _ => brokenAttempt)
             "u" "d" true 0 5 emptyWorld (ErrCollaborator "connection reset")).
    + repeat split; reflexivity.
    + reflexivity.
    + reflexivity.
    + discriminate.
    + reflexivity.
Defined.

End Transfers.

(** ** The acquisition *)

Section AcquisitionFacts.
Import Go Downloader Title Acquisition Metadata Layout Observe Samples Cases.

(** ** Inversion of the steps of [DownloadTitle] *)

Lemma bindM_Next {A B} (m : M A) (f : A -> M B) w w' b :
  bindM m f w = (w', Next b) ->
  exists a w1, m w = (w1, Next a) /\ f a w1 = (w', Next b).
Proof.
  unfold bindM. destruct (m w) as [w1 [a | e |]]; intros H;
    try discriminate. eauto.
Qed.

Lemma ret_Next {A} (a b : A) w w' : ret a w = (w', Next b) -> w' = w /\ b = a.
Proof. unfold ret. intros H. inversion H. auto. Qed.

Lemma call_Next evs w w' u : call evs w = (w', Next u) -> w' = emit evs w.
Proof. unfold call. intros H. now inversion H. Qed.

Lemma check_Next err w w' u : check err w = (w', Next u) -> err = None /\ w' = w.
Proof. destruct err; unfold check, returns, ret; intros H; inversion H; auto. Qed.

Lemma checked_Next {A} (r : error + A) w w' a :
  checked r w = (w', Next a) -> r = inr a /\ w' = w.
Proof. destruct r; unfold checked, returns, ret; intros H; inversion H; auto. Qed.

Lemma lift_Next {A} (o : outcome A) w w' a :
  lift o w = (w', Next a) -> o = Done a /\ w' = w.
Proof. destruct o; unfold lift; intros H; inversion H; auto. Qed.

Lemma fetch_Next env url dst dr w w' err :
  fetch env url dst dr w = (w', Next err) ->
  downloadFile (transfer env url) url dst dr w = (w', err).
Proof.
  unfold fetch. destruct (downloadFile _ _ _ _ _) as [w1 e].
  intros H. now inversion H.
Qed.

Lemma Cancelled_Next env w w' c :
  Cancelled env w = (w', Next c) ->
  c = cancelled env (polls w)
  /\ w' = mkWorld (trace w) (files w) (S (polls w)) (totalDownloaded w) (deferred w).
Proof. unfold Cancelled. intros H. inversion H. auto. Qed.

Lemma fetchContent_Next env url dst w w' brk :
  fetchContent env url dst w = (w', Next brk) ->
  exists w1 err,
    downloadFile (transfer env url) url dst true w = (w1, err)
    /\ match err with
       | None => brk = false /\ w' = w1
       | Some _ =>
           brk = true /\ cancelled env (polls w1) = true
           /\ w' = mkWorld (trace w1) (files w1) (S (polls w1))
                     (totalDownloaded w1) (deferred w1)
       end.
Proof.
  unfold fetchContent. intros H.
  apply bindM_Next in H as (err & w1 & Hf & H).
  apply fetch_Next in Hf. exists w1, err. split; [exact Hf |].
  destruct err as [e |].
  - apply bindM_Next in H as (c & w2 & Hc & H).
    apply Cancelled_Next in Hc as [-> ->].
    destruct (cancelled env (polls w1)) eqn:Ec.
    + apply ret_Next in H as [-> ->]. auto.
    + discriminate.
  - apply ret_Next in H as [-> ->]. auto.
Qed.

Lemma int64_add_l a b : int64 (int64 a + b) = int64 (a + b).
Proof.
  unfold int64.
  replace ((a + 2 ^ 63) mod 2 ^ 64 - 2 ^ 63 + b + 2 ^ 63)
    with ((a + 2 ^ 63) mod 2 ^ 64 + b) by lia.
  rewrite Zplus_mod_idemp_l. f_equal. f_equal. lia.
Qed.

Lemma int64_add_r a b : int64 (a + int64 b) = int64 (a + b).
Proof. rewrite (Z.add_comm a), int64_add_l. f_equal. lia. Qed.

Lemma int64_idem a : int64 (int64 a) = int64 a.
Proof.
  replace (int64 a) with (int64 a + 0) at 1 by lia.
  rewrite int64_add_l. f_equal. lia.
Qed.

Lemma int64_small a : 0 <= a < 2 ^ 63 -> int64 a = a.
Proof. intros H. unfold int64. rewrite Z.mod_small; lia. Qed.

Section Iteration.
Context (env : Env) (titleID outputDirectory : string)
        (tmdData : slice) (contentSizes : list Z).

Lemma contentIteration_continue i w w' :
  contentIteration env titleID outputDirectory tmdData contentSizes i w
  = (w', Next false) ->
  exists id sz fl,
    readContentID tmdData i = Done id
    /\ sizeAt contentSizes i = Done sz
    /\ readTypeFlags tmdData i = Done fl
    /\ files w' = files w ∪ contentFiles env (outputDirOf outputDirectory)
                    {| contentID := id; typeFlags := fl; contentSize := sz |}
    /\ totalDownloaded w' = int64 (totalDownloaded w + int64 sz).
Proof.
  unfold contentIteration. intros H.
  apply bindM_Next in H as (id & w1 & H1 & H). apply lift_Next in H1 as [Hid ->].
  apply bindM_Next in H as (brk & w1 & H1 & H).
  apply fetchContent_Next in H1 as (w2 & err & Hd & Herr).
  destruct brk; [apply ret_Next in H as [_ H]; discriminate |].
  destruct err as [e |]; [destruct Herr as [Hb _]; discriminate |].
  destruct Herr as [_ ->]. apply downloadFile_success_files in Hd as Hf1.
  apply downloadFile_transferred in Hd as Ht1.
  apply bindM_Next in H as (sz & w3 & H1 & H). apply lift_Next in H1 as [Hsz ->].
  apply bindM_Next in H as (u & w3 & H1 & H).
  unfold addToTotalDownloaded in H1. inversion H1; subst w3 u; clear H1.
  apply bindM_Next in H as (fl & w3 & H1 & H). apply lift_Next in H1 as [Hfl ->].
  apply bindM_Next in H as (brk & w3 & H1 & H).
  destruct brk; [apply ret_Next in H as [_ H]; discriminate |].
  apply Cancelled_Next in H as [Hc ->].
  exists id, sz, fl. repeat split; try assumption.
  - cbn [files]. unfold contentFiles. cbn [contentID typeFlags].
    rewrite <- hasH3_bit.
    destruct (hasH3 fl).
    + apply fetchContent_Next in H1 as (w4 & err & Hd2 & Herr).
      destruct err as [e |]; [destruct Herr as [Hb _]; discriminate |].
      destruct Herr as [_ ->]. apply downloadFile_success_files in Hd2.
      rewrite Hd2. cbn [files]. rewrite Hf1. set_solver.
    + apply ret_Next in H1 as [-> _]. cbn [files]. rewrite Hf1. set_solver.
  - cbn [totalDownloaded].
    destruct (hasH3 fl).
    + apply fetchContent_Next in H1 as (w4 & err & Hd2 & Herr).
      destruct err as [e |]; [destruct Herr as [Hb _]; discriminate |].
      destruct Herr as [_ ->]. apply downloadFile_transferred in Hd2.
      rewrite (tr_total _ _ _ Hd2). cbn [totalDownloaded].
      now rewrite (tr_total _ _ _ Ht1).
    + apply ret_Next in H1 as [-> _]. cbn [totalDownloaded].
      now rewrite (tr_total _ _ _ Ht1).
Qed.

Lemma contentLoop_end n :
  forall i w w',
    contentLoop env titleID outputDirectory tmdData contentSizes n i w
    = (w', Next LoopEnd) ->
    int64 (totalDownloaded w) = totalDownloaded w ->
    exists recs,
      readContents tmdData contentSizes n i = Done recs
      /\ files w' = files w ∪ ⋃ (contentFiles env (outputDirOf outputDirectory) <$> recs)
      /\ totalDownloaded w' = int64 (totalDownloaded w + sumSizes recs).
Proof.
  induction n as [| n IH]; intros i w w' H Hnorm.
  - apply ret_Next in H as [-> _]. exists []. cbn.
    split; [reflexivity |]. split; [set_solver |].
    rewrite Z.add_0_r. now rewrite Hnorm.
  - cbn [contentLoop] in H.
    apply bindM_Next in H as (brk & w1 & H1 & H).
    destruct brk; [apply ret_Next in H as [_ H]; discriminate |].
    apply contentIteration_continue in H1
      as (id & sz & fl & Hid & Hsz & Hfl & Hf & Ht).
    apply IH in H as (recs & Hr & Hf' & Ht');
      [| rewrite Ht; apply int64_idem].
    exists ({| contentID := id; typeFlags := fl; contentSize := sz |} :: recs).
    cbn [readContents]. rewrite Hid, Hsz, Hfl, Hr. cbn [Go.bind].
    split; [reflexivity |]. split.
    + rewrite Hf', Hf. cbn. set_solver.
    + rewrite Ht', Ht. cbn [sumSizes foldr contentSize].
      fold (sumSizes recs).
      rewrite int64_add_l.
      replace (totalDownloaded w + int64 sz + sumSizes recs)
        with (totalDownloaded w + sumSizes recs + int64 sz) by lia.
      rewrite int64_add_r. f_equal. lia.
Qed.

End Iteration.

(** ** The stages before the content loop *)

Section Stages.
Context (env : Env) (titleID outputDirectory : string).

Lemma metadataStage_Next w w' tmdData titleVersion :
  metadataStage env titleID outputDirectory w
  = (w', Next (tmdData, titleVersion)) ->
  ReadFile env (Join env (outputDirOf outputDirectory) "title.tmd") = inr tmdData
  /\ readTitleVersion tmdData = Done titleVersion
  /\ files w' = {[ Join env (outputDirOf outputDirectory) "title.tmd" ]} ∪ files w
  /\ totalDownloaded w' = 0.
Proof.
  unfold metadataStage. intros H.
  apply bindM_Next in H as ([] & w1 & H1 & H).
  unfold setTotalDownloaded in H1. inversion H1; subst w1; clear H1.
  apply bindM_Next in H as ([] & w1 & H1 & H). apply call_Next in H1 as ->.
  apply bindM_Next in H as ([] & w1 & H1 & H). apply call_Next in H1 as ->.
  apply bindM_Next in H as ([] & w1 & H1 & H). apply check_Next in H1 as [_ ->].
  apply bindM_Next in H as (err & w1 & H1 & H). apply fetch_Next in H1.
  apply bindM_Next in H as ([] & w2 & H2 & H).
  destruct err as [e |].
  { apply bindM_Next in H2 as (c & w3 & _ & H2). destruct c; discriminate. }
  apply ret_Next in H2 as [-> _].
  apply bindM_Next in H as ([] & w2 & H2 & H). apply call_Next in H2 as ->.
  apply bindM_Next in H as (td & w2 & H2 & H). apply checked_Next in H2 as [Hrf ->].
  apply bindM_Next in H as (v & w2 & H2 & H). apply lift_Next in H2 as [Hv ->].
  apply ret_Next in H as [-> Heq]. inversion Heq; subst td v.
  apply downloadFile_success_files in H1 as Hf.
  apply downloadFile_transferred in H1 as Ht.
  split; [assumption |]. split; [assumption |]. split; [exact Hf |].
  cbn [totalDownloaded emit]. rewrite (tr_total _ _ _ Ht). reflexivity.
Qed.

Lemma obtainTicket_Next titleVersion w w' u :
  obtainTicket env titleID outputDirectory titleVersion w = (w', Next u) ->
  files w' = {[ Join env (outputDirOf outputDirectory) "title.tik" ]} ∪ files w
  /\ totalDownloaded w' = totalDownloaded w.
Proof.
  unfold obtainTicket. intros H.
  apply bindM_Next in H as (err & w1 & H1 & H). apply fetch_Next in H1.
  apply downloadFile_transferred in H1 as Ht.
  destruct err as [e |].
  - apply bindM_Next in H as (c & w2 & H2 & H).
    apply Cancelled_Next in H2 as [-> ->].
    destruct (cancelled env (polls w1)); [discriminate |].
    apply bindM_Next in H as ([] & w2 & H2 & H). apply call_Next in H2 as ->.
    apply bindM_Next in H as (key & w2 & H2 & H).
    apply checked_Next in H2 as [_ ->].
    unfold GenerateTicket in H.
    destruct (generateTicket _ _ _ _ _); [discriminate |].
    inversion H; subst w'; clear H. cbn [files totalDownloaded emit create].
    split; [| apply (tr_total _ _ _ Ht)].
    pose proof (tr_files_lower _ _ _ Ht). pose proof (tr_files_upper _ _ _ Ht).
    set_solver.
  - apply ret_Next in H as [-> _].
    split; [now apply downloadFile_success_files in H1 |].
    apply (tr_total _ _ _ Ht).
Qed.

Lemma certificateStage_Next tmdData w w' contentCount contentSizes :
  certificateStage env outputDirectory tmdData w
  = (w', Next (contentCount, contentSizes)) ->
  readContentCount tmdData = Done contentCount
  /\ (exists titleSize,
        readContentSizes tmdData (Z.to_nat contentCount) 0 0 []
        = Done (titleSize, contentSizes))
  /\ files w' = {[ Join env (outputDirOf outputDirectory) "title.cert" ]} ∪ files w
  /\ totalDownloaded w' = totalDownloaded w.
Proof.
  unfold certificateStage. intros H.
  apply bindM_Next in H as (c & w1 & H1 & H). apply lift_Next in H1 as [Hc ->].
  apply bindM_Next in H as ([ts cs] & w1 & H1 & H).
  apply lift_Next in H1 as [Hs ->]. cbn [fst snd] in H.
  apply bindM_Next in H as ([] & w1 & H1 & H). apply call_Next in H1 as ->.
  apply bindM_Next in H as ([] & w1 & H1 & H). apply call_Next in H1 as ->.
  apply bindM_Next in H as (cert & w1 & H1 & H).
  destruct (GenerateCert env tmdData c) as [e | cert'].
  { apply bindM_Next in H1 as (b & w3 & _ & H1). destruct b; discriminate. }
  apply ret_Next in H1 as [-> _].
  apply bindM_Next in H as ([] & w1 & H1 & H). apply call_Next in H1 as ->.
  apply bindM_Next in H as ([] & w1 & H1 & H). apply check_Next in H1 as [_ ->].
  apply bindM_Next in H as ([] & w1 & H1 & H). inversion H1; subst w1; clear H1.
  apply bindM_Next in H as ([] & w1 & H1 & H). apply call_Next in H1 as ->.
  apply bindM_Next in H as ([] & w1 & H1 & H). apply check_Next in H1 as [_ ->].
  apply bindM_Next in H as ([] & w1 & H1 & H).
  unfold defer in H1. inversion H1; subst w1; clear H1.
  apply bindM_Next in H as ([] & w1 & H1 & H). apply call_Next in H1 as ->.
  apply ret_Next in H as [-> Heq]. inversion Heq; subst c cs.
  repeat split; try assumption; eauto.
Qed.

End Stages.

(** ** Sizes are unsigned *)

Lemma Uint64_nonneg (b : list byte) : 0 <= binary.Uint64 b.
Proof.
  unfold binary.Uint64, binary.at_.
  repeat (apply Z.lor_nonneg; split);
    try (apply Z.shiftl_nonneg); apply u8_range.
Qed.

Lemma ReadUint64_nonneg r v : binary.ReadUint64 r = Done v -> 0 <= v.
Proof.
  unfold binary.ReadUint64. destruct (binary.ReadFull r 8); cbn [Go.bind];
    intros H; inversion H. apply Uint64_nonneg.
Qed.

Lemma readContentSizes_nonneg tmdData n :
  forall i ts cs ts' cs',
    readContentSizes tmdData n i ts cs = Done (ts', cs') ->
    Forall (Z.le 0) cs -> Forall (Z.le 0) cs'.
Proof.
  induction n as [| n IH]; intros i ts cs ts' cs' H Hcs.
  - inversion H; subst. exact Hcs.
  - cbn [readContentSizes] in H. cbv zeta in H.
    destruct (sliceExpr _ _ _) as [b | |]; cbn [Go.bind] in H; try discriminate.
    destruct (binary.ReadUint64 _) as [v | |] eqn:Ev; cbn [Go.bind] in H;
      try discriminate.
    apply IH in H; [exact H |].
    apply Forall_app. split; [exact Hcs |].
    constructor; [| constructor]. eapply ReadUint64_nonneg, Ev.
Qed.

Lemma readContents_sum_nonneg tmdData sizes n :
  Forall (Z.le 0) sizes ->
  forall i recs,
    readContents tmdData sizes n i = Done recs -> 0 <= sumSizes recs.
Proof.
  intros Hs. induction n as [| n IH]; intros i recs H.
  - inversion H. cbn. lia.
  - cbn [readContents] in H.
    destruct (readContentID _ _); cbn [Go.bind] in H; try discriminate.
    destruct (sizeAt sizes i) as [sz | |] eqn:Es; cbn [Go.bind] in H;
      try discriminate.
    destruct (readTypeFlags _ _); cbn [Go.bind] in H; try discriminate.
    destruct (readContents tmdData sizes n (i + 1)) as [rs | |] eqn:Er;
      cbn [Go.bind] in H; try discriminate.
    inversion H; subst. cbn [sumSizes foldr contentSize]. fold (sumSizes rs).
    specialize (IH _ _ Er).
    unfold sizeAt in Es. destruct (sizes !! Z.to_nat i) as [s |] eqn:El;
      [| discriminate].
    inversion Es; subst.
    pose proof (proj1 (Forall_lookup _ _) Hs _ _ El). simpl in *. lia.
Qed.

(** C6. When the download stage completes without error or cancellation,
    the files created are exactly title.tmd, title.tik, title.cert, one
    <ID as 8 upper-case hex digits>.app per content record and the .h3 file
    of exactly the records whose type flags have bit 0x2 set; and the
    cumulative counter of the progress collaborator holds the sum of the
    record sizes (as an int64, which is the sum itself below 2^63) before
    decryption begins. *)
Theorem download_stage_layout env titleID outputDirectory w w' :
  downloadStage env titleID outputDirectory w = (w', Next LoopEnd) ->
  exists tmdData tmd,
    ReadFile env (Join env (outputDirOf outputDirectory) "title.tmd")
    = inr tmdData
    /\ parse tmdData = Done tmd
    /\ files w' = files w
                  ∪ titleFiles env (outputDirOf outputDirectory) (contents tmd)
    /\ totalDownloaded w' = int64 (sumSizes (contents tmd))
    /\ (sumSizes (contents tmd) < 2 ^ 63 ->
        totalDownloaded w' = sumSizes (contents tmd)).
Proof.
  unfold downloadStage. intros H.
  apply bindM_Next in H as ([tmdData v] & w1 & H1 & H). cbn [fst snd] in H.
  apply metadataStage_Next in H1 as (Hrf & Hv & Hf1 & Ht1).
  apply bindM_Next in H as ([] & w2 & H2 & H).
  apply obtainTicket_Next in H2 as (Hf2 & Ht2).
  apply bindM_Next in H as ([c sizes] & w3 & H3 & H). cbn [fst snd] in H.
  apply certificateStage_Next in H3 as (Hc & (ts & Hs) & Hf3 & Ht3).
  apply contentLoop_end in H as (recs & Hr & Hf4 & Ht4);
    [| rewrite Ht3, Ht2, Ht1; reflexivity].
  exists tmdData,
    {| titleVersion := v; contentCount := c; titleSize := ts; contents := recs |}.
  split; [exact Hrf |]. split.
  { unfold parse. rewrite Hv. cbn [Go.bind]. rewrite Hc. cbn [Go.bind].
    rewrite Hs. cbn [Go.bind snd fst]. rewrite Hr. reflexivity. }
  cbn [contents].
  assert (Htot : totalDownloaded w' = int64 (sumSizes recs)).
  { rewrite Ht4, Ht3, Ht2, Ht1. f_equal. }
  split.
  { rewrite Hf4, Hf3, Hf2, Hf1. unfold titleFiles. set_solver. }
  split; [exact Htot |].
  intros Hlt. rewrite Htot. apply int64_small. split; [| exact Hlt].
  eapply readContents_sum_nonneg; [| exact Hr].
  eapply readContentSizes_nonneg; [exact Hs | constructor].
Qed.

(** ** Steps of the download stage never decrypt and never remove files *)

Lemma progress_refl w : progress w w.
Proof.
  split; [exists [] | exists [] |]; try (rewrite ?app_nil_r; auto); reflexivity.
Qed.

Lemma progress_trans w1 w2 w3 : progress w1 w2 -> progress w2 w3 -> progress w1 w3.
Proof.
  intros [(e1 & E1 & Q1) (d1 & D1 & R1) F1] [(e2 & E2 & Q2) (d2 & D2 & R2) F2].
  split.
  - exists (e1 ++ e2). rewrite E2, E1, <- app_assoc. split; [reflexivity |].
    now rewrite forallb_app, Q1, Q2.
  - exists (d2 ++ d1). rewrite D2, D1, <- app_assoc. split; [reflexivity |].
    now rewrite forallb_app, R1, R2.
  - etrans; eassumption.
Qed.

Lemma transferEvent_quiet evs :
  forallb transferEvent evs = true -> forallb quiet evs = true.
Proof.
  induction evs as [| e evs IH]; [reflexivity |]. cbn [forallb].
  intros H. apply andb_true_iff in H as [He Hevs].
  rewrite IH by assumption. destruct e; try discriminate; reflexivity.
Qed.

Lemma transferred_progress dst w w' : transferred dst w w' -> progress w w'.
Proof.
  intros [_ _ Hd (evs & E & Q) Hl _]. split.
  - exists evs. split; [exact E | now apply transferEvent_quiet].
  - exists []. now rewrite Hd.
  - exact Hl.
Qed.

Lemma steady_ret {A} (a : A) : steady (ret a).
Proof. intros w w' r H. inversion H. apply progress_refl. Qed.

Lemma steady_returns {A} err : steady (@returns A err).
Proof. intros w w' r H. inversion H. apply progress_refl. Qed.

Lemma steady_bind {A B} (m : M A) (f : A -> M B) :
  steady m -> (forall a, steady (f a)) -> steady (bindM m f).
Proof.
  intros Hm Hf w w' r H. unfold bindM in H.
  destruct (m w) as [w1 [a | e |]] eqn:E.
  - eapply progress_trans; [eapply Hm, E | eapply Hf, H].
  - inversion H; subst. eapply Hm, E.
  - inversion H; subst. eapply Hm, E.
Qed.

Lemma steady_call evs : forallb quiet evs = true -> steady (call evs).
Proof.
  intros Q w w' r H. inversion H; subst. split.
  - exists evs. auto.
  - exists []. auto.
  - reflexivity.
Qed.

Lemma steady_lift {A} (o : outcome A) : steady (lift o).
Proof. intros w w' r H. destruct o; inversion H; apply progress_refl. Qed.

Lemma steady_check err : steady (check err).
Proof. destruct err; [apply steady_returns | apply steady_ret]. Qed.

Lemma steady_checked {A} (x : error + A) : steady (checked x).
Proof. destruct x; [apply steady_returns | apply steady_ret]. Qed.

Lemma steady_Cancelled env : steady (Cancelled env).
Proof.
  intros w w' r H. inversion H; subst. split; cbn.
  - exists []. now rewrite app_nil_r.
  - now exists [].
  - reflexivity.
Qed.

Lemma steady_setTotalDownloaded n : steady (setTotalDownloaded n).
Proof.
  intros w w' r H. inversion H; subst. split; cbn.
  - eexists. split; [reflexivity | reflexivity].
  - now exists [].
  - reflexivity.
Qed.

Lemma steady_addToTotalDownloaded n : steady (addToTotalDownloaded n).
Proof.
  intros w w' r H. inversion H; subst. split; cbn.
  - eexists. split; [reflexivity | reflexivity].
  - now exists [].
  - reflexivity.
Qed.

Lemma steady_created path : steady (fun w => (create path w, Next tt)).
Proof.
  intros w w' r H. inversion H; subst. split; cbn.
  - exists []. now rewrite app_nil_r.
  - now exists [].
  - apply union_subseteq_r.
Qed.

Lemma steady_defer ev : quiet ev = true -> steady (defer ev).
Proof.
  intros Q w w' r H. inversion H; subst. split; cbn.
  - exists []. now rewrite app_nil_r.
  - exists [ev]. cbn. now rewrite Q.
  - reflexivity.
Qed.

Lemma steady_GenerateTicket env path tid key v :
  steady (GenerateTicket env path tid key v).
Proof.
  intros w w' r H. unfold GenerateTicket in H.
  destruct (generateTicket _ _ _ _ _); inversion H; subst; split; cbn.
  - eexists. split; reflexivity.
  - now exists [].
  - reflexivity.
  - eexists. split; reflexivity.
  - now exists [].
  - apply union_subseteq_r.
Qed.

Lemma steady_fetch env url dst dr : steady (fetch env url dst dr).
Proof.
  intros w w' r H. unfold fetch in H.
  destruct (downloadFile _ _ _ _ _) as [w1 e] eqn:E. inversion H; subst.
  eapply transferred_progress, downloadFile_transferred, E.
Qed.

Create HintDb steady.
#[local] Hint Resolve steady_ret steady_returns steady_call steady_lift
  steady_check steady_checked steady_Cancelled steady_setTotalDownloaded
  steady_addToTotalDownloaded steady_created steady_defer
  steady_GenerateTicket steady_fetch : steady.

Ltac steady_steps :=
  repeat first
    [ apply steady_bind; [| intros ?]
    | match goal with
      | |- steady (match ?x with _ => _ end) => destruct x
      | |- steady (if ?b then _ else _) => destruct b
      end
    | solve [auto with steady] ].

Lemma steady_fetchContent env url dst : steady (fetchContent env url dst).
Proof. unfold fetchContent. steady_steps. Qed.

Lemma steady_metadataStage env titleID outputDirectory :
  steady (metadataStage env titleID outputDirectory).
Proof. unfold metadataStage. steady_steps. Qed.

Lemma steady_obtainTicket env titleID outputDirectory v :
  steady (obtainTicket env titleID outputDirectory v).
Proof. unfold obtainTicket. steady_steps. Qed.

Lemma steady_certificateStage env outputDirectory tmdData :
  steady (certificateStage env outputDirectory tmdData).
Proof. unfold certificateStage. steady_steps. Qed.

Lemma steady_contentIteration env titleID outputDirectory tmdData sizes i :
  steady (contentIteration env titleID outputDirectory tmdData sizes i).
Proof.
  unfold contentIteration. pose proof steady_fetchContent. steady_steps.
Qed.

Lemma steady_contentLoop env titleID outputDirectory tmdData sizes n :
  forall i, steady (contentLoop env titleID outputDirectory tmdData sizes n i).
Proof.
  induction n as [| n IH]; intros i; cbn [contentLoop].
  - apply steady_ret.
  - pose proof steady_contentIteration. steady_steps.
Qed.

Lemma steady_downloadStage env titleID outputDirectory :
  steady (downloadStage env titleID outputDirectory).
Proof.
  unfold downloadStage.
  pose proof steady_metadataStage. pose proof steady_obtainTicket.
  pose proof steady_certificateStage. pose proof steady_contentLoop.
  steady_steps.
Qed.

(** C7. In every acquisition that reaches the ticket stage, the official
    ticket is fetched with retries disabled: one attempt, that is one call
    of [client.Do], and no pause. If the fetch succeeds nothing is
    synthesized. If it fails, for whatever reason, what follows is decided
    by the answer of [progressReporter.Cancelled()] after the failed fetch
    (line 179), and by nothing else: the error of the fetch is not looked
    at. When the answer is true, [DownloadTitle] returns nil and calls
    nothing further. When it is false, a key is derived from the title ID
    and a ticket built from the title ID, that key and the version read
    from the metadata is written to the ticket path. *)
Theorem ticket_fetched_once_else_synthesized env titleID outputDirectory
    doDecryption deleteEncryptedContents w w1 tmdData titleVersion :
  metadataStage env titleID outputDirectory (enter w)
  = (w1, Next (tmdData, titleVersion)) ->
  exists w2 err evs,
    downloadFile (transfer env (baseURLOf titleID +:+ "/" +:+ "cetk"))
      (baseURLOf titleID +:+ "/" +:+ "cetk")
      (Join env (outputDirOf outputDirectory) "title.tik") false w1
    = (w2, err)
    /\ trace w2 = trace w1 ++ evs
    /\ attemptsMade evs = 1%nat /\ pauses evs = []
    /\ forallb transferEvent evs = true
    /\ readTitleVersion tmdData = Done titleVersion
    /\ match err with
       | None =>
           obtainTicket env titleID outputDirectory titleVersion w1
           = (w2, Next tt)
       | Some _ =>
           if cancelled env (polls w2) then
             exists wf,
               DownloadTitle env titleID outputDirectory doDecryption
                 deleteEncryptedContents w = (wf, Returned None)
               /\ trace wf = trace w2 ++ deferred w2
           else
             exists w3 r,
               obtainTicket env titleID outputDirectory titleVersion w1
               = (w3, r)
               /\ trace w3
                  = trace w2 ++ CallGenerateKey titleID ::
                      match GenerateKey env titleID with
                      | inr titleKey =>
                          [CallGenerateTicket
                             (Join env (outputDirOf outputDirectory) "title.tik")
                             (TitleID (getTitleEntryFromTid env titleID))
                             titleKey titleVersion]
                      | inl _ => []
                      end
               /\ (forall titleKey,
                     GenerateKey env titleID = inr titleKey ->
                     generateTicket env
                       (Join env (outputDirOf outputDirectory) "title.tik")
                       (TitleID (getTitleEntryFromTid env titleID))
                       titleKey titleVersion = None ->
                     r = Next tt
                     /\ Join env (outputDirOf outputDirectory) "title.tik"
                        ∈ files w3)
       end.
Proof.
  intros Hmeta.
  pose proof (metadataStage_Next _ _ _ _ _ _ _ Hmeta) as (_ & Hv & _).
  destruct (downloadFile (transfer env (baseURLOf titleID +:+ "/" +:+ "cetk"))
              (baseURLOf titleID +:+ "/" +:+ "cetk")
              (Join env (outputDirOf outputDirectory) "title.tik") false w1)
    as [w2 err] eqn:Hd.
  destruct (downloadFile_no_retry _ _ _ _ _ _ Hd) as (evs & Etr & Hatt & Hp & Ht).
  exists w2, err, evs.
  repeat (split; [assumption || reflexivity |]).
  assert (Hfetch : fetch env (baseURLOf titleID +:+ "/" +:+ "cetk")
             (Join env (outputDirOf outputDirectory) "title.tik") false w1
           = (w2, Next err))
    by (unfold fetch; now rewrite Hd).
  destruct err as [e |].
  - destruct (cancelled env (polls w2)) eqn:Hc.
    + eexists. unfold DownloadTitle, downloadStage, bindM at 1 2.
      rewrite Hmeta. cbn [snd].
      unfold obtainTicket, bindM at 1 2. rewrite Hfetch.
      unfold bindM, Cancelled. rewrite Hc. cbn.
      split; reflexivity.
    + unfold obtainTicket, bindM at 1. rewrite Hfetch.
      unfold bindM, Cancelled. rewrite Hc. cbn.
      destruct (GenerateKey env titleID) as [ek | key]; cbn.
      * eexists _, _. split; [reflexivity |]. cbn. split; [reflexivity |].
        intros titleKey Hk. discriminate.
      * unfold GenerateTicket.
        destruct (generateTicket env _ _ key titleVersion) eqn:Hg.
        -- eexists _, _. split; [reflexivity |]. cbn.
           split; [now rewrite <- app_assoc |].
           intros titleKey Hk Hn. inversion Hk; subst. congruence.
        -- eexists _, _. split; [reflexivity |]. cbn.
           split; [now rewrite <- app_assoc |].
           intros titleKey Hk Hn. split; [reflexivity |].
           apply elem_of_union_l, elem_of_singleton. reflexivity.
  - unfold obtainTicket, bindM. rewrite Hfetch. reflexivity.
Qed.

(** C6 at the sample title: records of 1000 and 2000 bytes, the second
    with an integrity tree. *)
Lemma download_stage_layout_witness :
  files (fst (downloadStage sampleEnv sampleTitleID "out/" emptyWorld))
  = {[ "out/title.tmd"; "out/title.tik"; "out/title.cert";
       "out/00000000.app"; "out/00000001.app"; "out/00000001.h3" ]}
  /\ totalDownloaded (fst (downloadStage sampleEnv sampleTitleID "out/" emptyWorld))
     = 3000.
Proof.
  destruct (download_stage_layout sampleEnv sampleTitleID "out/" emptyWorld
              (fst (downloadStage sampleEnv sampleTitleID "out/" emptyWorld)))
    as (tmdData & tmd & Hrf & Hp & Hf & Ht & _).
  { vm_compute. reflexivity. }
  inversion Hrf; subst tmdData.
  assert (Htmd : parse sampleTmd
                 = Done {| titleVersion := 1; contentCount := 2; titleSize := 3000;
                           contents := [ {| contentID := 0; typeFlags := x00;
                                            contentSize := 1000 |};
                                         {| contentID := 1; typeFlags := x03;
                                            contentSize := 2000 |} ] |})
    by (vm_compute; reflexivity).
  rewrite Htmd in Hp. inversion Hp; subst tmd. clear Hp Htmd.
  split.
  - rewrite Hf. vm_compute. reflexivity.
  - rewrite Ht. reflexivity.
Defined.

(** C6, the claim as stated fails: the sizes are uint64 and the counter
    is advanced by [int64(contentSizes[i])] (line 247). For one record
    whose size field holds 0xFFFFFFFFFFFFFFFF the download stage runs to
    its end and the counter stands at -1, not at the sum of the sizes. *)
Lemma counter_wraps_past_int64 :
  snd (downloadStage hugeEnv sampleTitleID "out/" emptyWorld) = Next LoopEnd
  /\ parse hugeTmd
     = Done {| titleVersion := 1; contentCount := 1;
               titleSize := 18446744073709551615;
               contents := [ {| contentID := 0; typeFlags := x00;
                                contentSize := 18446744073709551615 |} ] |}
  /\ sumSizes [ {| contentID := 0; typeFlags := x00;
                   contentSize := 18446744073709551615 |} ]
     = 18446744073709551615
  /\ totalDownloaded (fst (downloadStage hugeEnv sampleTitleID "out/"
                             emptyWorld))
     = -1.
Proof. vm_compute. repeat split; reflexivity. Qed.

(** C7 at the sample title, whose service has no ticket. *)
Lemma ticket_fetched_once_else_synthesized_witness :
  metadataStage sampleEnv sampleTitleID "out/" (enter emptyWorld)
  = (fst (metadataStage sampleEnv sampleTitleID "out/" (enter emptyWorld)),
     Next (sampleTmd, 1))
  /\ exists w2 err evs,
       downloadFile
         (transfer sampleEnv (baseURLOf sampleTitleID +:+ "/" +:+ "cetk"))
         (baseURLOf sampleTitleID +:+ "/" +:+ "cetk")
         (Join sampleEnv (outputDirOf "out/") "title.tik") false
         (fst (metadataStage sampleEnv sampleTitleID "out/" (enter emptyWorld)))
       = (w2, err)
       /\ attemptsMade evs = 1%nat /\ pauses evs = [].
Proof.
  split; [vm_compute; reflexivity |].
  destruct (ticket_fetched_once_else_synthesized sampleEnv sampleTitleID "out/"
              true false emptyWorld
              (fst (metadataStage sampleEnv sampleTitleID "out/" (enter emptyWorld)))
              sampleTmd 1)
    as (w2 & err & evs & Hd & _ & Hatt & Hp & _).
  { vm_compute. reflexivity. }
  exists w2, err, evs. auto.
Defined.

(** C7, the claim as stated fails in both directions. When the fetch of
    the ticket fails on the cancelled context and the flag of the progress
    collaborator is not set, a key is derived and a ticket synthesized all
    the same. When the fetch fails on a status 404 and the flag is set,
    nothing is synthesized and [DownloadTitle] returns nil. *)
Lemma synthesis_follows_the_flag_not_the_error :
  (snd (downloadFile
          (transfer contextCancelledAtTicket
             (baseURLOf sampleTitleID +:+ "/" +:+ "cetk"))
          (baseURLOf sampleTitleID +:+ "/" +:+ "cetk") "out/title.tik" false
          (fst (metadataStage contextCancelledAtTicket sampleTitleID "out/"
                  (enter emptyWorld))))
   = Some ErrContext
   /\ cancelled contextCancelledAtTicket 0%nat = false
   /\ List.filter isSynthesis
        (trace (fst (DownloadTitle contextCancelledAtTicket sampleTitleID
                       "out/" true false emptyWorld)))
      = [CallGenerateKey sampleTitleID;
         CallGenerateTicket "out/title.tik" 0x0005000010100000 (zeros 16) 1])
  /\ (status (transfer flagSetEnv (baseURLOf sampleTitleID +:+ "/" +:+ "cetk") 1)
      = 404
      /\ ctxDone (transfer flagSetEnv
                    (baseURLOf sampleTitleID +:+ "/" +:+ "cetk") 1)
         = false
      /\ cancelled flagSetEnv 0%nat = true
      /\ List.filter isSynthesis
           (trace (fst (DownloadTitle flagSetEnv sampleTitleID "out/" true
                          false emptyWorld)))
         = []
      /\ snd (DownloadTitle flagSetEnv sampleTitleID "out/" true false
                emptyWorld)
         = Returned None).
Proof. vm_compute. repeat split; reflexivity. Qed.

(** The acquisition on the truncated metadata: the goroutine panics, after
    the ticket has been obtained. *)
Lemma DownloadTitle_panics_on_truncated_metadata :
  snd (DownloadTitle truncatedEnv sampleTitleID "out/" true false emptyWorld)
  = Panicked
  /\ "out/title.tik"
     ∈ files (fst (DownloadTitle truncatedEnv sampleTitleID "out/" true false
                     emptyWorld)).
Proof. split; [vm_compute; reflexivity |]. vm_compute. set_solver. Qed.

(** What [DownloadTitle] makes of a failed metadata fetch: a non-error
    return when the progress collaborator reports cancellation, the error
    otherwise. *)
Lemma failed_metadata_fetch env titleID outputDirectory doDecryption
    deleteEncryptedContents w w1 e :
  MkdirAll env (outputDirOf outputDirectory) = None ->
  downloadFile (transfer env (baseURLOf titleID +:+ "/" +:+ "tmd"))
    (baseURLOf titleID +:+ "/" +:+ "tmd")
    (Join env (outputDirOf outputDirectory) "title.tmd") true
    (atFirstTransfer env titleID outputDirectory w)
  = (w1, Some e) ->
  snd (DownloadTitle env titleID outputDirectory doDecryption
         deleteEncryptedContents w)
  = Returned (if cancelled env (polls w1) then None else Some e).
Proof.
  intros Hmk Hd.
  unfold DownloadTitle, downloadStage, bindM at 1 2.
  unfold metadataStage, bindM, setTotalDownloaded, call, check, fetch, enter,
    Cancelled.
  cbn [trace files polls totalDownloaded deferred].
  rewrite Hmk. unfold ret.
  unfold atFirstTransfer in Hd. rewrite Hd.
  destruct (cancelled env (polls w1)); reflexivity.
Qed.

End AcquisitionFacts.

(** ** Runs of [downloadFile] *)

Section TransferRuns.
Import Go Downloader Observe Samples Runs.

Lemma attemptsMade_app l1 l2 :
  attemptsMade (l1 ++ l2) = (attemptsMade l1 + attemptsMade l2)%nat.
Proof. unfold attemptsMade. rewrite List.filter_app, length_app. reflexivity. Qed.

Lemma pauses_app l1 l2 : pauses (l1 ++ l2) = pauses l1 ++ pauses l2.
Proof. unfold pauses. apply flat_map_app. Qed.

Lemma status_ok_reads_ok a :
  fasthttp.StatusCode {| fasthttp.statusCode := status a |} = fasthttp.StatusOK ->
  negb (fasthttp.StatusCode {| fasthttp.statusCode := status a |}
        =? fasthttp.StatusOK) = false.
Proof. intros ->. reflexivity. Qed.

Lemma not_EOF e : e <> EOF -> error_eqb_EOF e = false.
Proof. destruct e; intros H; try reflexivity; contradiction. Qed.

Lemma not_EOF_inv e : error_eqb_EOF e = false -> e <> EOF.
Proof. intros H ->. discriminate. Qed.

Lemma status_fail_reads_fail a :
  fasthttp.StatusCode {| fasthttp.statusCode := status a |} <> fasthttp.StatusOK ->
  negb (fasthttp.StatusCode {| fasthttp.statusCode := status a |}
        =? fasthttp.StatusOK) = true.
Proof. intros H. apply negb_true_iff, Z.eqb_neq, H. Qed.

(** One retried attempt: the loop goes on with the next attempt after one
    call of [client.Do] and one pause. *)
Lemma attemptLoop_retried_once net url dst n attempt w :
  retried (net attempt) -> attempt < maxRetries ->
  exists evs w1,
    attemptLoop net url dst true (S n) attempt w
      = attemptLoop net url dst true n (attempt + 1) w1
    /\ trace w1 = trace w ++ evs
    /\ attemptsMade evs = 1%nat /\ pauses evs = [retryDelay]
    /\ files w ⊆ files w1.
Proof.
  intros Hr Hlt. apply Z.ltb_lt in Hlt.
  cbn [attemptLoop]. destruct Hr as [[Hdo Hst] | ([Hdo [Hst [Hc Hw]]] & Hctx & e & He & Hne)].
  - rewrite Hdo, (status_fail_reads_fail _ Hst), Hlt. cbn [andb].
    eexists _, _. split; [reflexivity |].
    cbn [emit trace files]. rewrite <- app_assoc.
    split; [reflexivity |]. repeat split; reflexivity.
  - rewrite Hdo, (status_ok_reads_ok _ Hst), Hc, Hw.
    unfold selectBody. rewrite Hctx, He, (not_EOF _ Hne), Hlt. cbn [negb andb].
    eexists _, _. split; [reflexivity |].
    cbn [emit create trace files]. rewrite <- !app_assoc.
    split; [reflexivity |]. repeat split; try reflexivity.
    apply union_subseteq_r.
Qed.

Lemma attemptLoop_retried net url dst m :
  forall n attempt w,
    (forall j, attempt <= j < attempt + Z.of_nat m -> retried (net j)) ->
    attempt + Z.of_nat m <= maxRetries ->
    exists evs w1,
      attemptLoop net url dst true (m + n) attempt w
        = attemptLoop net url dst true n (attempt + Z.of_nat m) w1
      /\ trace w1 = trace w ++ evs
      /\ attemptsMade evs = m /\ pauses evs = repeat retryDelay m
      /\ files w ⊆ files w1.
Proof.
  induction m as [| m IH]; intros n attempt w Hr Hle.
  - exists [], w. rewrite Z.add_0_r, app_nil_r. repeat split; reflexivity.
  - destruct (attemptLoop_retried_once net url dst (m + n) attempt w)
      as (e1 & w1 & E1 & T1 & A1 & P1 & F1); [apply Hr; lia | lia |].
    destruct (IH n (attempt + 1) w1) as (e2 & w2 & E2 & T2 & A2 & P2 & F2);
      [intros j Hj; apply Hr; lia | lia |].
    exists (e1 ++ e2), w2.
    split.
    { change (S m + n)%nat with (S (m + n)). rewrite E1, E2.
      f_equal. lia. }
    split; [rewrite T2, T1, app_assoc; reflexivity |].
    split; [rewrite attemptsMade_app, A1, A2; reflexivity |].
    split; [rewrite pauses_app, P1, P2; reflexivity |].
    etrans; eassumption.
Qed.

(** The transfer as it stands when attempt [k] starts after [k - 1]
    retried attempts. *)
Lemma downloadFile_reaches net url dst doRetries (k : Z) w :
  1 <= k <= maxRetries ->
  (1 < k -> doRetries = true) ->
  (forall j, 1 <= j < k -> retried (net j)) ->
  exists evs w1,
    downloadFile net url dst doRetries w
      = attemptLoop net url dst doRetries (S (Z.to_nat (maxRetries - k))) k w1
    /\ trace w1 = trace w ++ evs
    /\ attemptsMade evs = Z.to_nat (k - 1)
    /\ pauses evs = repeat retryDelay (Z.to_nat (k - 1))
    /\ files w ⊆ files w1.
Proof.
  intros Hk Hdr Hr. unfold downloadFile.
  destruct (Z.eq_dec k 1) as [-> | Hne].
  - exists [], w. rewrite app_nil_r. repeat split; reflexivity.
  - rewrite Hdr by lia.
    destruct (attemptLoop_retried net url dst (Z.to_nat (k - 1))
                (S (Z.to_nat (maxRetries - k))) 1 w)
      as (evs & w1 & E & T & A & P & F).
    { intros j Hj. apply Hr. lia. }
    { unfold maxRetries in *. lia. }
    exists evs, w1. split; [| auto].
    replace (Z.to_nat maxRetries)
      with (Z.to_nat (k - 1) + S (Z.to_nat (maxRetries - k)))%nat
      by (unfold maxRetries in *; lia).
    rewrite E. f_equal. lia.
Qed.

Ltac run_ends :=
  cbn [negb]; eexists; cbn [fst emit create trace]; rewrite <- ?app_assoc;
  (split; [reflexivity |]); cbn; repeat split; try lia; reflexivity.

Ltac run_goes_on IH Hlt :=
  apply Z.ltb_lt in Hlt;
  match goal with
  | |- context [attemptLoop _ _ _ _ _ ?a ?w1] =>
      let e := fresh "e" in
      let T := fresh "T" in
      let A1 := fresh "A" in
      let A2 := fresh "A" in
      let P := fresh "P" in
      destruct (IH a w1) as (e & T & A1 & A2 & P); [lia |];
      rewrite T; cbn [emit create trace]; rewrite <- ?app_assoc;
      eexists; (split; [reflexivity |]);
      unfold attemptsMade, pauses, releaseAll in *;
      cbn [List.filter isDo flat_map app length];
      rewrite P;
      assert (1 <= length (List.filter isDo e))%nat by (apply A2; lia);
      repeat split; try lia;
      match goal with
      | |- context [(S ?x - 1)%nat] =>
          replace (S x - 1)%nat with (S (x - 1))%nat by lia
      end; reflexivity
  end.

Lemma attemptLoop_counts net url dst doRetries n :
  forall attempt w,
    attempt + Z.of_nat n = maxRetries + 1 ->
    exists evs,
      trace (fst (attemptLoop net url dst doRetries n attempt w))
        = trace w ++ evs
      /\ (attemptsMade evs <= n)%nat
      /\ ((0 < n)%nat -> (1 <= attemptsMade evs)%nat)
      /\ pauses evs = repeat retryDelay (attemptsMade evs - 1).
Proof.
  induction n as [| n IH]; intros attempt w Hinv.
  - exists []. cbn. rewrite app_nil_r. repeat split; auto; lia.
  - cbn [attemptLoop]. unfold selectBody.
    destruct (doErr (net attempt)); [run_ends |].
    destruct (negb _).
    { destruct doRetries; cbn [andb]; [| run_ends].
      destruct (attempt <? maxRetries) eqn:Hlt; [| run_ends].
      run_goes_on IH Hlt. }
    destruct (createErr (net attempt)); [run_ends |].
    destruct (writerErr (net attempt)); [run_ends |].
    destruct (ctxDone (net attempt)); [run_ends |].
    destruct (bodyErr (net attempt)) as [err |]; [| run_ends].
    destruct (negb (error_eqb_EOF err)); [| run_ends].
    destruct doRetries; cbn [andb]; [| run_ends].
    destruct (attempt <? maxRetries) eqn:Hlt; [| run_ends].
    cbn [negb]. run_goes_on IH Hlt.
Qed.

Lemma schedule_app l1 l2 : schedule (l1 ++ l2) = schedule l1 ++ schedule l2.
Proof. unfold schedule. apply flat_map_app. Qed.

Ltac beat_ends :=
  cbn [negb]; eexists; cbn [fst emit create trace]; rewrite <- ?app_assoc;
  (split; [reflexivity |]); unfold releaseAll; cbn; split; [lia | reflexivity].

Ltac beat_goes_on IH Hlt :=
  apply Z.ltb_lt in Hlt;
  match goal with
  | |- context [attemptLoop _ _ _ _ _ ?a ?w1] =>
      let e := fresh "e" in
      let T := fresh "T" in
      let A := fresh "A" in
      let B := fresh "B" in
      destruct (IH a w1) as (e & T & A & B); [lia | lia |];
      rewrite T; cbn [emit create trace]; rewrite <- ?app_assoc;
      eexists; (split; [reflexivity |]);
      unfold releaseAll;
      rewrite !attemptsMade_app, !schedule_app, B;
      destruct (attemptsMade e) as [| k]; [lia |];
      change (alternation (S k - 1)) with (alternation (k - 0));
      rewrite Nat.sub_0_r;
      split; [lia | reflexivity]
  end.

(** The calls of [client.Do] and the pauses of the loop alternate, and the
    first and the last of them are calls. *)
Lemma attemptLoop_schedule net url dst doRetries n :
  forall attempt w,
    (0 < n)%nat -> attempt + Z.of_nat n = maxRetries + 1 ->
    exists evs,
      trace (fst (attemptLoop net url dst doRetries n attempt w))
        = trace w ++ evs
      /\ (1 <= attemptsMade evs)%nat
      /\ schedule evs = alternation (attemptsMade evs - 1).
Proof.
  induction n as [| n IH]; intros attempt w Hn Hinv; [lia |].
  cbn [attemptLoop]. unfold selectBody.
  destruct (doErr (net attempt)); [beat_ends |].
  destruct (negb _).
  { destruct doRetries; cbn [andb]; [| beat_ends].
    destruct (attempt <? maxRetries) eqn:Hlt; [| beat_ends].
    beat_goes_on IH Hlt. }
  destruct (createErr (net attempt)); [beat_ends |].
  destruct (writerErr (net attempt)); [beat_ends |].
  destruct (ctxDone (net attempt)); [beat_ends |].
  destruct (bodyErr (net attempt)) as [err |]; [| beat_ends].
  destruct (negb (error_eqb_EOF err)); [| beat_ends].
  destruct doRetries; cbn [andb]; [| beat_ends].
  destruct (attempt <? maxRetries) eqn:Hlt; [| beat_ends].
  cbn [negb]. beat_goes_on IH Hlt.
Qed.

(** X1. Whatever the network, the file system and the context do, a call of
    [downloadFile] makes at least one and at most [maxRetries] attempts,
    each of them one call of [client.Do], and between the calls it pauses as
    follows: the calls of [client.Do] and the pauses alternate, the first
    and the last of them are calls of [client.Do], and every pause lasts
    [retryDelay]. So there is exactly one pause between two consecutive
    attempts, none before the first and none after the last. An attempt is
    a call of [client.Do], not a request on the wire. *)
Theorem downloadFile_attempts_bounded net url dst doRetries w :
  exists evs,
    trace (fst (downloadFile net url dst doRetries w)) = trace w ++ evs
    /\ 1 <= Z.of_nat (attemptsMade evs) <= maxRetries
    /\ pauses evs = repeat retryDelay (attemptsMade evs - 1)
    /\ schedule evs = alternation (attemptsMade evs - 1).
Proof.
  destruct (attemptLoop_counts net url dst doRetries (Z.to_nat maxRetries) 1 w)
    as (evs & T & A1 & A2 & P); [reflexivity |].
  destruct (attemptLoop_schedule net url dst doRetries (Z.to_nat maxRetries) 1 w)
    as (evs' & T' & _ & B); [vm_compute; lia | reflexivity |].
  assert (evs' = evs) as ->.
  { apply (app_inv_head (trace w)). rewrite <- T, <- T'. reflexivity. }
  exists evs. split; [exact T |]. split; [| split; [exact P | exact B]].
  assert (1 <= attemptsMade evs)%nat by (apply A2; vm_compute; lia).
  unfold maxRetries in *. lia.
Qed.

(** X2. Without retries [downloadFile] makes exactly one attempt, that is
    one call of [client.Do], and never pauses, whatever the attempt ends
    in. *)
Theorem downloadFile_single_attempt_without_retries net url dst w :
  exists evs,
    trace (fst (downloadFile net url dst false w)) = trace w ++ evs
    /\ attemptsMade evs = 1%nat /\ pauses evs = [].
Proof.
  destruct (downloadFile net url dst false w) as [w' r] eqn:E.
  destruct (downloadFile_no_retry _ _ _ _ _ _ E) as (evs & T & A & P & _).
  exists evs. auto.
Qed.

(** X3. An error of [client.Do] ends the transfer at once, also with retries
    enabled and attempts left: when the attempts before attempt [k] were
    retried and the call of [client.Do] of attempt [k] returns an error,
    [downloadFile] returns that error unwrapped after [k] calls of
    [client.Do] and [k - 1] pauses, after releasing request and response,
    without closing a body stream, creating a file or pausing again. *)
Theorem transport_error_ends_transfer net url dst doRetries k w e :
  1 <= k <= maxRetries ->
  (1 < k -> doRetries = true) ->
  (forall j, 1 <= j < k -> retried (net j)) ->
  doErr (net k) = Some e ->
  snd (downloadFile net url dst doRetries w) = Some e
  /\ exists evs,
       trace (fst (downloadFile net url dst doRetries w))
       = trace w ++ evs
         ++ [AcquireRequest k; AcquireResponse k; ClientDo url k;
             ReleaseRequest k; ReleaseResponse k]
       /\ attemptsMade evs = Z.to_nat (k - 1)
       /\ pauses evs = repeat retryDelay (Z.to_nat (k - 1)).
Proof.
  intros Hk Hdr Hr Hdo.
  destruct (downloadFile_reaches net url dst doRetries k w Hk Hdr Hr)
    as (evs & w1 & E & T & A & P & F).
  rewrite E. cbn [attemptLoop]. rewrite Hdo. cbn [fst snd].
  split; [reflexivity |]. exists evs.
  cbn [emit trace]. rewrite T, <- !app_assoc. auto.
Qed.

(** X4. An error of [os.Create] ends the transfer at once: when the
    attempts before attempt [k] were retried and the destination cannot be
    created at attempt [k], [downloadFile] returns that error unwrapped,
    after closing the body stream and releasing request and response. *)
Theorem create_error_ends_transfer net url dst doRetries k w e :
  1 <= k <= maxRetries ->
  (1 < k -> doRetries = true) ->
  (forall j, 1 <= j < k -> retried (net j)) ->
  doErr (net k) = None ->
  fasthttp.StatusCode {| fasthttp.statusCode := status (net k) |}
    = fasthttp.StatusOK ->
  createErr (net k) = Some e ->
  snd (downloadFile net url dst doRetries w) = Some e
  /\ exists evs,
       trace (fst (downloadFile net url dst doRetries w))
       = trace w ++ evs
         ++ [AcquireRequest k; AcquireResponse k; ClientDo url k;
             CloseBodyStream k; ReleaseRequest k; ReleaseResponse k]
       /\ attemptsMade evs = Z.to_nat (k - 1)
       /\ pauses evs = repeat retryDelay (Z.to_nat (k - 1)).
Proof.
  intros Hk Hdr Hr Hdo Hst Hc.
  destruct (downloadFile_reaches net url dst doRetries k w Hk Hdr Hr)
    as (evs & w1 & E & T & A & P & F).
  rewrite E. cbn [attemptLoop].
  rewrite Hdo, (status_ok_reads_ok _ Hst), Hc. cbn [fst snd].
  split; [reflexivity |]. exists evs.
  cbn [emit trace]. rewrite T, <- !app_assoc. auto.
Qed.

(** X5. Retrying recovers: when the attempts before attempt [k] were
    retried (a status other than 200, or a broken body) and attempt [k]
    streams its body to the end, [downloadFile] returns nil after exactly
    [k] attempts, each one call of [client.Do], and [k - 1] pauses, the
    destination exists, and the last calls close the body stream and the
    file and release request and response. *)
Theorem retry_recovers net url dst doRetries k w :
  1 <= k <= maxRetries ->
  (1 < k -> doRetries = true) ->
  (forall j, 1 <= j < k -> retried (net j)) ->
  completes (net k) ->
  snd (downloadFile net url dst doRetries w) = None
  /\ dst ∈ files (fst (downloadFile net url dst doRetries w))
  /\ exists evs,
       trace (fst (downloadFile net url dst doRetries w))
       = trace w ++ evs
         ++ [AcquireRequest k; AcquireResponse k; ClientDo url k;
             OsCreate dst k; GoUpdateProgress k; BodyWriteTo dst k]
         ++ releaseAll dst k
       /\ attemptsMade evs = Z.to_nat (k - 1)
       /\ pauses evs = repeat retryDelay (Z.to_nat (k - 1)).
Proof.
  intros Hk Hdr Hr ((Hdo & Hst & Hc & Hw) & Hctx & Hb).
  destruct (downloadFile_reaches net url dst doRetries k w Hk Hdr Hr)
    as (evs & w1 & E & T & A & P & F).
  rewrite E. cbn [attemptLoop].
  rewrite Hdo, (status_ok_reads_ok _ Hst), Hc, Hw.
  unfold selectBody. rewrite Hctx.
  assert (Hend :
    match bodyErr (net k) with
    | Some err => negb (error_eqb_EOF err) = false
    | None => True
    end) by (destruct Hb as [-> | ->]; [exact I | reflexivity]).
  destruct (bodyErr (net k)) as [err |]; [rewrite Hend |];
    cbn [negb fst snd emit create trace files].
  all: split; [reflexivity |].
  all: split; [apply elem_of_union_l, elem_of_singleton; reflexivity |].
  all: exists evs; rewrite T, <- !app_assoc; auto.
Qed.

(** X6. When every one of the [maxRetries] attempts fails in a way that is
    retried, [downloadFile] gives up after [maxRetries] attempts, each one
    call of [client.Do], and [maxRetries - 1] pauses and returns an error
    that carries the attempt count [maxRetries]: the status error when the
    last attempt was answered with a status other than 200, the wrapped
    streaming error otherwise. *)
Theorem retries_exhausted net url dst w :
  (forall j, 1 <= j <= maxRetries -> retried (net j)) ->
  ((failsWithStatus (net maxRetries)
    /\ exists code,
         snd (downloadFile net url dst true w)
         = Some (ErrStatus maxRetries code))
   \/ exists e, bodyErr (net maxRetries) = Some e
        /\ snd (downloadFile net url dst true w)
           = Some (ErrStream maxRetries e))
  /\ exists evs,
       trace (fst (downloadFile net url dst true w)) = trace w ++ evs
       /\ Z.of_nat (attemptsMade evs) = maxRetries
       /\ pauses evs = repeat retryDelay (Z.to_nat (maxRetries - 1)).
Proof.
  intros Hr.
  destruct (downloadFile_reaches net url dst true maxRetries w)
    as (evs & w1 & E & T & A & P & F);
    [unfold maxRetries; lia | reflexivity | intros j Hj; apply Hr; lia |].
  rewrite E. change (Z.to_nat (maxRetries - maxRetries)) with 0%nat.
  cbn [attemptLoop].
  destruct (Hr maxRetries) as [[Hdo Hst] | ((Hdo & Hst & Hc & Hw) & Hctx & e & He & Hne)];
    [unfold maxRetries; lia | |].
  - rewrite Hdo, (status_fail_reads_fail _ Hst).
    change (maxRetries <? maxRetries) with false. cbn [andb fst snd].
    split; [left; split; [split; assumption | eexists; reflexivity] |].
    eexists. cbn [emit trace]. rewrite T, <- !app_assoc.
    split; [reflexivity |].
    rewrite attemptsMade_app, pauses_app, A, P, app_nil_r.
    split; reflexivity.
  - rewrite Hdo, (status_ok_reads_ok _ Hst), Hc, Hw.
    unfold selectBody. rewrite Hctx, He, (not_EOF _ Hne).
    change (maxRetries <? maxRetries) with false. cbn [negb andb fst snd].
    split; [right; exists e; auto |].
    eexists. cbn [emit create trace]. rewrite T, <- !app_assoc.
    split; [reflexivity |].
    rewrite attemptsMade_app, pauses_app, A, P, app_nil_r.
    split; reflexivity.
Qed.

Lemma attemptLoop_nil net url dst doRetries n :
  forall attempt w,
    snd (attemptLoop net url dst doRetries n attempt w) = None ->
    (0 < n)%nat -> attempt + Z.of_nat n = maxRetries + 1 ->
    exists k,
      attempt <= k <= maxRetries /\ completes (net k)
      /\ (forall j, attempt <= j < k -> retried (net j))
      /\ (attempt < k -> doRetries = true).
Proof.
  induction n as [| n IH]; intros attempt w H Hn Hinv; [lia |].
  cbn [attemptLoop] in H.
  destruct (doErr (net attempt)) eqn:Hdo; [discriminate |].
  destruct (negb _) eqn:Hst.
  { destruct doRetries; cbn [andb] in H; [| discriminate].
    destruct (attempt <? maxRetries) eqn:Hlt; [| discriminate].
    apply Z.ltb_lt in Hlt.
    apply IH in H; [| lia | lia].
    destruct H as (k & Hk & Hc & Hr & _).
    exists k. split; [lia |]. split; [exact Hc |]. split; [| reflexivity].
    intros j Hj. destruct (Z.eq_dec j attempt) as [-> | Hne].
    - left. split; [exact Hdo |].
      apply negb_true_iff, Z.eqb_neq in Hst. exact Hst.
    - apply Hr. lia. }
  apply negb_false_iff, Z.eqb_eq in Hst.
  destruct (createErr (net attempt)) eqn:Hc; [discriminate |].
  destruct (writerErr (net attempt)) eqn:Hw; [discriminate |].
  unfold selectBody in H.
  destruct (ctxDone (net attempt)) eqn:Hctx; [discriminate |].
  assert (Ho : opensFile (net attempt)) by (repeat split; assumption).
  assert (Hhere : (bodyErr (net attempt) = None
                   \/ bodyErr (net attempt) = Some EOF) ->
    exists k, attempt <= k <= maxRetries /\ completes (net k)
      /\ (forall j, attempt <= j < k -> retried (net j))
      /\ (attempt < k -> doRetries = true)).
  { intros Hb. exists attempt. split; [unfold maxRetries in *; lia |].
    split; [repeat split; assumption |]. split; intros; lia. }
  destruct (bodyErr (net attempt)) as [err |] eqn:Hb; [| apply Hhere; auto].
  destruct (negb (error_eqb_EOF err)) eqn:He.
  2:{ apply Hhere. right. destruct err; try discriminate. reflexivity. }
  apply negb_true_iff, not_EOF_inv in He.
  destruct doRetries; cbn [andb] in H; [| discriminate].
  destruct (attempt <? maxRetries) eqn:Hlt; [| discriminate].
  apply Z.ltb_lt in Hlt. cbn [negb] in H.
  apply IH in H; [| lia | lia].
  destruct H as (k & Hk & Hcm & Hr & _).
  exists k. split; [lia |]. split; [exact Hcm |]. split; [| reflexivity].
  intros j Hj. destruct (Z.eq_dec j attempt) as [-> | Hne].
  - right. split; [exact Ho |]. split; [exact Hctx |]. exists err. auto.
  - apply Hr. lia.
Qed.

(** X7. [downloadFile] returns nil only when one of its at most
    [maxRetries] attempts streamed its body to the end, after every earlier
    attempt was retried; the [return nil] of line 143 is never reached by
    running out of attempts. *)
Theorem nil_result_means_completed net url dst doRetries w :
  snd (downloadFile net url dst doRetries w) = None ->
  exists k,
    1 <= k <= maxRetries /\ completes (net k)
    /\ (forall j, 1 <= j < k -> retried (net j))
    /\ (1 < k -> doRetries = true).
Proof.
  intros H. apply attemptLoop_nil in H; [exact H | vm_compute; lia | reflexivity].
Qed.

Lemma attemptLoop_without_ok net url dst doRetries n :
  forall attempt w,
    (forall j, attempt <= j <= maxRetries ->
       doErr (net j) <> None
       \/ fasthttp.StatusCode {| fasthttp.statusCode := status (net j) |}
          <> fasthttp.StatusOK) ->
    (0 < n)%nat -> attempt + Z.of_nat n = maxRetries + 1 ->
    files (fst (attemptLoop net url dst doRetries n attempt w)) = files w
    /\ snd (attemptLoop net url dst doRetries n attempt w) <> None
    /\ exists evs,
         trace (fst (attemptLoop net url dst doRetries n attempt w))
         = trace w ++ evs
         /\ forallb (fun e => negb (isCreate e)) evs = true.
Proof.
  induction n as [| n IH]; intros attempt w Hno Hn Hinv; [lia |].
  cbn [attemptLoop].
  destruct (Hno attempt) as [Hdo | Hst]; [unfold maxRetries in *; lia | |].
  - destruct (doErr (net attempt)); [| contradiction].
    cbn [fst snd emit files trace]. split; [reflexivity |].
    split; [discriminate |]. eexists. rewrite <- app_assoc.
    split; reflexivity.
  - destruct (doErr (net attempt)).
    { cbn [fst snd emit files trace]. split; [reflexivity |].
      split; [discriminate |]. eexists. rewrite <- app_assoc.
      split; reflexivity. }
    rewrite (status_fail_reads_fail _ Hst).
    destruct (doRetries && (attempt <? maxRetries)) eqn:Hgo.
    + apply andb_true_iff in Hgo. destruct Hgo as [_ Hlt].
      apply Z.ltb_lt in Hlt.
      match goal with
      | |- context [attemptLoop _ _ _ _ _ ?a ?w1] =>
          destruct (IH a w1) as (F & R & evs & T & C);
            [intros j Hj; apply Hno; lia | lia | lia |]
      end.
      rewrite F, T. cbn [emit files trace]. split; [reflexivity |].
      split; [exact R |]. eexists. rewrite <- !app_assoc.
      split; [reflexivity |]. cbn. exact C.
    + cbn [fst snd emit files trace]. split; [reflexivity |].
      split; [discriminate |]. eexists. rewrite <- app_assoc.
      split; reflexivity.
Qed.

(** X8. When no attempt is answered with status 200, [downloadFile]
    returns an error and never calls [os.Create]: the destination is left
    as it was. *)
Theorem destination_untouched_without_ok net url dst doRetries w :
  (forall j, 1 <= j <= maxRetries ->
     doErr (net j) <> None
     \/ fasthttp.StatusCode {| fasthttp.statusCode := status (net j) |}
        <> fasthttp.StatusOK) ->
  files (fst (downloadFile net url dst doRetries w)) = files w
  /\ snd (downloadFile net url dst doRetries w) <> None
  /\ exists evs,
       trace (fst (downloadFile net url dst doRetries w)) = trace w ++ evs
       /\ forallb (fun e => negb (isCreate e)) evs = true.
Proof.
  intros H. apply attemptLoop_without_ok; [exact H | vm_compute; lia | reflexivity].
Qed.

End TransferRuns.

(** ** Rules of the program logic *)

Section ProgramLogic.
Import Go Downloader Title Acquisition Metadata Layout Observe Samples Logic.

Lemma wp_bind {A B} (m : M A) (f : A -> M B) Q w :
  wp m (andThen f Q) w -> wp (bindM m f) Q w.
Proof.
  unfold wp, andThen, bindM. destruct (m w) as [w1 [a | err |]]; auto.
Qed.

Lemma wp_mono {A} (m : M A) (Q Q' : step A -> World -> Prop) w :
  (forall r w', Q r w' -> Q' r w') -> wp m Q w -> wp m Q' w.
Proof. unfold wp. auto. Qed.

Lemma wp_fetch env url dst dr (Q : step (option error) -> World -> Prop) w :
  (forall w1 err,
     downloadFile (transfer env url) url dst dr w = (w1, err) ->
     Q (Next err) w1) ->
  wp (fetch env url dst dr) Q w.
Proof.
  intros H. unfold wp, fetch.
  destruct (downloadFile _ _ _ _ _) as [w1 err] eqn:E. apply H. reflexivity.
Qed.

Lemma wp_lift_Done {A} (o : outcome A) a (Q : step A -> World -> Prop) w :
  o = Done a -> Q (Next a) w -> wp (lift o) Q w.
Proof. intros ->. auto. Qed.

Lemma wp_ret {A} (a : A) (Q : step A -> World -> Prop) w :
  Q (Next a) w -> wp (ret a) Q w.
Proof. auto. Qed.

Lemma wp_returns {A} err (Q : step A -> World -> Prop) w :
  Q (Return err) w -> wp (returns err) Q w.
Proof. auto. Qed.

Lemma wp_call evs (Q : step unit -> World -> Prop) w :
  Q (Next tt) (emit evs w) -> wp (call evs) Q w.
Proof. auto. Qed.

Lemma wp_check err (Q : step unit -> World -> Prop) w :
  match err with
  | Some e => Q (Return (Some e)) w
  | None => Q (Next tt) w
  end ->
  wp (check err) Q w.
Proof. destruct err; auto. Qed.

Lemma wp_checked {A} (r : error + A) (Q : step A -> World -> Prop) w :
  match r with
  | inl e => Q (Return (Some e)) w
  | inr a => Q (Next a) w
  end ->
  wp (checked r) Q w.
Proof. destruct r; auto. Qed.

Lemma wp_lift {A} (o : outcome A) (Q : step A -> World -> Prop) w :
  match o with
  | Done a => Q (Next a) w
  | Fail e => Q (Return (Some e)) w
  | Panic => Q Abort w
  end ->
  wp (lift o) Q w.
Proof. destruct o; auto. Qed.

Lemma wp_Cancelled env (Q : step bool -> World -> Prop) w :
  Q (Next (cancelled env (polls w)))
    (mkWorld (trace w) (files w) (S (polls w)) (totalDownloaded w)
       (deferred w)) ->
  wp (Cancelled env) Q w.
Proof. auto. Qed.

Lemma wp_setTotalDownloaded total (Q : step unit -> World -> Prop) w :
  Q (Next tt)
    (mkWorld (trace w ++ [SetTotalDownloaded total]) (files w) (polls w)
       total (deferred w)) ->
  wp (setTotalDownloaded total) Q w.
Proof. auto. Qed.

Lemma wp_addToTotalDownloaded toAdd (Q : step unit -> World -> Prop) w :
  Q (Next tt)
    (mkWorld (trace w ++ [AddToTotalDownloaded toAdd]) (files w) (polls w)
       (int64 (totalDownloaded w + toAdd)) (deferred w)) ->
  wp (addToTotalDownloaded toAdd) Q w.
Proof. auto. Qed.

Lemma wp_defer ev (Q : step unit -> World -> Prop) w :
  Q (Next tt)
    (mkWorld (trace w) (files w) (polls w) (totalDownloaded w)
       (ev :: deferred w)) ->
  wp (defer ev) Q w.
Proof. auto. Qed.

Lemma wp_created path (Q : step unit -> World -> Prop) w :
  Q (Next tt) (create path w) ->
  wp (fun w => (create path w, Next tt)) Q w.
Proof. auto. Qed.

Lemma wp_GenerateTicket env path tid key v
    (Q : step unit -> World -> Prop) w :
  match generateTicket env path tid key v with
  | Some e => Q (Return (Some e)) (emit [CallGenerateTicket path tid key v] w)
  | None =>
      Q (Next tt) (create path (emit [CallGenerateTicket path tid key v] w))
  end ->
  wp (GenerateTicket env path tid key v) Q w.
Proof.
  unfold wp, GenerateTicket. destruct (generateTicket _ _ _ _ _); auto.
Qed.

Lemma wp_decryptContents env dir del (Q : step unit -> World -> Prop) w :
  Q (match DecryptContents env dir del with
     | Some e => Return (Some e)
     | None => Next tt
     end)
    (mkWorld (trace w ++ [CallDecryptContents dir del])
       (files w ∖ decryptRemoves env dir del) (polls w) (totalDownloaded w)
       (deferred w)) ->
  wp (decryptContents env dir del) Q w.
Proof. auto. Qed.

End ProgramLogic.

(** One step of symbolic execution of a stage. *)
Ltac wp_step :=
  lazymatch goal with
  | |- Logic.wp (Title.bindM _ _) _ _ => apply wp_bind
  | |- Logic.wp (Title.fetch _ _ _ _) _ _ => apply wp_fetch; intros ? ? ?
  | |- Logic.wp (Title.ret _) _ _ => apply wp_ret
  | |- Logic.wp (Title.returns _) _ _ => apply wp_returns
  | |- Logic.wp (Title.call _) _ _ => apply wp_call
  | |- Logic.wp (Title.check _) _ _ => apply wp_check
  | |- Logic.wp (Title.lift (Go.Done _)) _ _ => apply wp_lift
  | |- Logic.wp (Title.checked _) _ _ => apply wp_checked
  | |- Logic.wp (Title.Cancelled _) _ _ => apply wp_Cancelled
  | |- Logic.wp (Title.setTotalDownloaded _) _ _ =>
      apply wp_setTotalDownloaded
  | |- Logic.wp (Title.addToTotalDownloaded _) _ _ =>
      apply wp_addToTotalDownloaded
  | |- Logic.wp (Title.defer _) _ _ => apply wp_defer
  | |- Logic.wp (Title.GenerateTicket _ _ _ _ _) _ _ =>
      apply wp_GenerateTicket
  | |- Logic.wp (Acquisition.decryptContents _ _ _) _ _ =>
      apply wp_decryptContents
  | |- Logic.wp (fun w => (Downloader.create _ w, Title.Next tt)) _ _ =>
      apply wp_created
  | |- Logic.wp (match ?x with _ => _ end) _ _ => destruct x eqn:?
  | |- match ?x with _ => _ end => destruct x eqn:?
  end.

Ltac wp_run := repeat first [progress cbn [Logic.andThen] | wp_step].

(** The same, through the reads of the metadata as well. *)
Ltac wp_all :=
  repeat first
    [ progress cbn [Logic.andThen]
    | wp_step
    | lazymatch goal with
      | |- Logic.wp (Title.lift _) _ _ => apply wp_lift
      end ].

(** ** No panic on complete metadata *)

Section Complete.
Import Go Downloader Title Acquisition Metadata Layout Observe Samples Logic.

Section NoPanic.
Context (env : Env) (titleID outputDirectory : string).
Hypothesis Hcomplete :
  forall tmdData,
    ReadFile env (Join env (outputDirOf outputDirectory) "title.tmd")
    = inr tmdData ->
    complete tmdData.

Lemma metadataStage_unpanicked w :
  wp (metadataStage env titleID outputDirectory)
    (unpanicked (fun md => complete (fst md))) w.
Proof.
  unfold metadataStage. wp_run; try exact I.
  pose proof (Hcomplete _ eq_refl) as Hc.
  destruct (requiredLength_inv _ Hc) as [Hlen _].
  eapply wp_lift_Done; [apply readTitleVersion_ok; lia |].
  wp_run. exact Hc.
Qed.

Lemma obtainTicket_unpanicked v w :
  wp (obtainTicket env titleID outputDirectory v)
    (unpanicked (fun _ => True)) w.
Proof. unfold obtainTicket. wp_run; exact I. Qed.

Lemma certificateStage_unpanicked tmdData w :
  complete tmdData ->
  wp (certificateStage env outputDirectory tmdData)
    (unpanicked (fun cs =>
       fst cs = declaredCount tmdData
       /\ snd cs = sizeField tmdData <$> seqZ 0 (fst cs))) w.
Proof.
  intros Hc. destruct (requiredLength_inv _ Hc) as [Hlen Hrec].
  pose proof (declaredCount_range tmdData) as Hrange.
  unfold certificateStage. wp_run.
  eapply wp_lift_Done;
    [rewrite readContentCount_ok, <- declaredCount_below_len by lia;
     reflexivity |].
  wp_run.
  destruct (readContentSizes_ok tmdData (Z.to_nat (declaredCount tmdData))
              0 0 []) as [ts Hs]; [lia | |].
  { destruct Hrec as [-> | Hrec]; [left; reflexivity | right; lia]. }
  eapply wp_lift_Done; [exact Hs |].
  wp_run; try exact I. cbn [fst snd]. split; [reflexivity |].
  rewrite Z2Nat.id by lia. reflexivity.
Qed.

Lemma contentLoop_unpanicked tmdData n :
  complete tmdData ->
  forall i w,
    0 <= i -> i + Z.of_nat n = declaredCount tmdData ->
    wp (contentLoop env titleID outputDirectory tmdData
          (sizeField tmdData <$> seqZ 0 (declaredCount tmdData)) n i)
      (unpanicked (fun _ => True)) w.
Proof.
  intros Hc. destruct (requiredLength_inv _ Hc) as [Hlen Hrec].
  induction n as [| n IH]; intros i w Hi Hn; cbn [contentLoop].
  - exact I.
  - assert (Hlast : 0xB04 + 0x30 * (declaredCount tmdData - 1) + 16
                    <= len tmdData) by (destruct Hrec; [lia | assumption]).
    unfold contentIteration. wp_run.
    eapply wp_lift_Done; [apply readContentID_ok; lia |].
    assert (Hsz : sizeAt (sizeField tmdData <$> seqZ 0 (declaredCount tmdData)) i
                  = Done (sizeField tmdData i)).
    { unfold sizeAt. rewrite list_lookup_fmap.
      rewrite (lookup_seqZ_lt _ _ (Z.to_nat i)) by lia.
      cbn. do 2 f_equal. lia. }
    assert (Hfl : readTypeFlags tmdData i
                  = Done (byteAt tmdData (0xB04 + 0x30 * i + 7)))
      by (apply readTypeFlags_ok; lia).
    unfold fetchContent.
    wp_run; try exact I;
      try (eapply wp_lift_Done; [exact Hsz |]);
      wp_run; try exact I;
      try (eapply wp_lift_Done; [exact Hfl |]);
      wp_run; try exact I;
      try (apply IH; lia).
Qed.

Lemma decryptStage_unpanicked doDecryption deleteEncryptedContents w :
  wp (decryptStage env outputDirectory doDecryption deleteEncryptedContents)
    (unpanicked (fun _ => True)) w.
Proof.
  unfold decryptStage. wp_run; try exact I.
  all: destruct (DecryptContents _ _ _); wp_run; exact I.
Qed.

Lemma downloadStage_unpanicked w :
  wp (downloadStage env titleID outputDirectory) (unpanicked (fun _ => True)) w.
Proof.
  unfold downloadStage. apply wp_bind.
  eapply wp_mono; [| apply metadataStage_unpanicked].
  intros [[tmdData v] | err |] w1 H1; cbn [andThen unpanicked fst snd] in *;
    [| exact I | contradiction].
  apply wp_bind.
  eapply wp_mono; [| apply obtainTicket_unpanicked].
  intros [[] | err |] w2 H2; cbn [andThen unpanicked] in *;
    [| exact I | contradiction].
  apply wp_bind.
  eapply wp_mono; [| apply certificateStage_unpanicked; exact H1].
  intros [[c sizes] | err |] w3 H3; cbn [andThen unpanicked fst snd] in *;
    [| exact I | contradiction].
  destruct H3 as [-> ->].
  pose proof (declaredCount_range tmdData).
  apply contentLoop_unpanicked; [exact H1 | lia | lia].
Qed.

End NoPanic.

(** X9. When the metadata file read back at line 167 holds every field
    that is read (the buffers of C5), no statement of [DownloadTitle]
    panics, whatever the transfers, the cancellation flag and the
    collaborators' results are. *)
Theorem complete_metadata_never_panics env titleID outputDirectory
    doDecryption deleteEncryptedContents w :
  (forall tmdData,
     ReadFile env (Join env (outputDirOf outputDirectory) "title.tmd")
     = inr tmdData ->
     complete tmdData) ->
  snd (DownloadTitle env titleID outputDirectory doDecryption
         deleteEncryptedContents w) <> Panicked.
Proof.
  intros Hc. unfold DownloadTitle.
  assert (H : wp (_ <~ downloadStage env titleID outputDirectory ;;
                  decryptStage env outputDirectory doDecryption
                    deleteEncryptedContents)
                (unpanicked (fun _ => True)) (enter w)).
  { apply wp_bind. eapply wp_mono; [| apply downloadStage_unpanicked, Hc].
    intros [ex | err |] w1 H1; cbn [andThen unpanicked] in *;
      [| exact I | contradiction].
    apply decryptStage_unpanicked. }
  unfold wp in H.
  destruct ((_ <~ downloadStage env titleID outputDirectory ;;
             decryptStage env outputDirectory doDecryption
               deleteEncryptedContents) (enter w)) as [w' [[] | err |]];
    cbn [fst snd unpanicked] in *; [discriminate | discriminate | contradiction].
Qed.

(** X9 at the sample service. *)
Lemma complete_metadata_never_panics_witness :
  snd (DownloadTitle sampleEnv sampleTitleID "out/" true false emptyWorld)
  <> Panicked.
Proof.
  apply (complete_metadata_never_panics sampleEnv sampleTitleID "out/" true
           false emptyWorld).
  intros tmdData H. injection H as <-. vm_compute. discriminate.
Defined.

End Complete.

(** ** The order of the transfers *)

Section TransferOrder.
Import Go Downloader Title Acquisition Metadata Layout Observe Samples Logic
  Started.

Lemma started_app l1 l2 : started (l1 ++ l2) = started l1 ++ started l2.
Proof. apply flat_map_app. Qed.

Ltac started_end Hne :=
  cbn [negb fst emit create trace]; unfold releaseAll;
  rewrite ?started_app; cbn [started flat_map app];
  rewrite ?Hne, ?app_nil_r; reflexivity.

Lemma attemptLoop_later_attempts net url dst doRetries n :
  forall attempt w,
    1 < attempt ->
    started (trace (fst (attemptLoop net url dst doRetries n attempt w)))
    = started (trace w).
Proof.
  induction n as [| n IH]; intros attempt w Hlt; [reflexivity |].
  assert (Hne : (attempt =? 1) = false) by (apply Z.eqb_neq; lia).
  cbn [attemptLoop]. unfold selectBody.
  destruct (doErr (net attempt)); [started_end Hne |].
  destruct (negb _).
  { destruct (doRetries && (attempt <? maxRetries)); [| started_end Hne].
    rewrite IH by lia. started_end Hne. }
  destruct (createErr (net attempt)); [started_end Hne |].
  destruct (writerErr (net attempt)); [started_end Hne |].
  destruct (ctxDone (net attempt)); [started_end Hne |].
  destruct (bodyErr (net attempt)) as [err |]; [| started_end Hne].
  destruct (negb (error_eqb_EOF err)); [| started_end Hne].
  destruct (doRetries && (attempt <? maxRetries)); [| started_end Hne].
  cbn [negb]. rewrite IH by lia. started_end Hne.
Qed.

Lemma attemptLoop_first_attempt net url dst doRetries n w :
  started (trace (fst (attemptLoop net url dst doRetries (S n) 1 w)))
  = started (trace w) ++ [Transfer url].
Proof.
  cbn [attemptLoop]. unfold selectBody.
  assert (Hne : (1 =? 1) = true) by reflexivity.
  destruct (doErr (net 1)); [started_end Hne |].
  destruct (negb _).
  { destruct (doRetries && (1 <? maxRetries)); [| started_end Hne].
    rewrite attemptLoop_later_attempts by lia. started_end Hne. }
  destruct (createErr (net 1)); [started_end Hne |].
  destruct (writerErr (net 1)); [started_end Hne |].
  destruct (ctxDone (net 1)); [started_end Hne |].
  destruct (bodyErr (net 1)) as [err |]; [| started_end Hne].
  destruct (negb (error_eqb_EOF err)); [| started_end Hne].
  destruct (doRetries && (1 <? maxRetries)); [| started_end Hne].
  cbn [negb]. rewrite attemptLoop_later_attempts by lia. started_end Hne.
Qed.

(** A call of [downloadFile] starts one transfer, of its URL. *)
Lemma downloadFile_started net url dst doRetries w :
  started (trace (fst (downloadFile net url dst doRetries w)))
  = started (trace w) ++ [Transfer url].
Proof. apply attemptLoop_first_attempt. Qed.

Lemma fetched_started net url dst doRetries w w1 err :
  downloadFile net url dst doRetries w = (w1, err) ->
  started (trace w1) = started (trace w) ++ [Transfer url].
Proof.
  intros H. rewrite <- (downloadFile_started net url dst doRetries w), H.
  reflexivity.
Qed.

Ltac asked :=
  unfold asks; try exact I;
  cbn [trace emit create];
  repeat match goal with
         | H : downloadFile _ _ _ _ _ = (_, _) |- _ =>
             apply fetched_started in H; cbn [trace emit create] in H
         end;
  repeat first
    [ rewrite started_app
    | match goal with
      | H : started (trace _) = _ |- _ => rewrite H; clear H
      end ];
  cbn [started flat_map app];
  rewrite ?app_nil_r, <- ?app_assoc; try reflexivity.

Section Asked.
Context (env : Env) (titleID outputDirectory : string).

Lemma metadataStage_asks w :
  wp (metadataStage env titleID outputDirectory)
    (asks w (fun _ => [Transfer (baseURLOf titleID +:+ "/" +:+ "tmd")])) w.
Proof. unfold metadataStage. wp_all; asked. Qed.

Lemma obtainTicket_asks v w :
  wp (obtainTicket env titleID outputDirectory v)
    (asks w (fun _ => [Transfer (baseURLOf titleID +:+ "/" +:+ "cetk")])) w.
Proof. unfold obtainTicket. wp_all; asked. Qed.

Lemma certificateStage_asks tmdData w :
  wp (certificateStage env outputDirectory tmdData)
    (asks w (fun _ => [Certificate])) w.
Proof. unfold certificateStage. wp_all; asked. Qed.

Lemma contentIteration_asks tmdData sizes i w :
  wp (contentIteration env titleID outputDirectory tmdData sizes i)
    (fun r w' =>
       r = Next false ->
       forall id fl sz,
         readContentID tmdData i = Done id ->
         readTypeFlags tmdData i = Done fl ->
         started (trace w')
         = started (trace w)
           ++ contentStarts (baseURLOf titleID)
                {| contentID := id; typeFlags := fl; contentSize := sz |}) w.
Proof.
  unfold contentIteration, fetchContent.
  wp_all; try discriminate; intros _ id fl sz Hid Hfl;
    injection Hid as <-; injection Hfl as <-;
    unfold contentStarts; cbn [contentID typeFlags];
    rewrite <- hasH3_bit;
    match goal with H : hasH3 _ = _ |- _ => rewrite H end;
    asked.
Qed.

Lemma contentLoop_asks tmdData sizes n :
  forall i w,
    wp (contentLoop env titleID outputDirectory tmdData sizes n i)
      (fun r w' =>
         r = Next LoopEnd ->
         forall recs,
           readContents tmdData sizes n i = Done recs ->
           started (trace w')
           = started (trace w)
             ++ flat_map (contentStarts (baseURLOf titleID)) recs) w.
Proof.
  induction n as [| n IH]; intros i w; cbn [contentLoop].
  - apply wp_ret. intros _ recs Hr. injection Hr as <-.
    cbn. now rewrite app_nil_r.
  - apply wp_bind.
    eapply wp_mono; [| apply contentIteration_asks].
    intros [[] | err |] w1 H1; cbn [andThen]; try discriminate.
    eapply wp_mono; [| apply IH].
    intros r w2 H2 Hr recs Hrecs. cbn [readContents] in Hrecs.
    destruct (readContentID tmdData i) as [id | |] eqn:Hid; try discriminate.
    destruct (sizeAt sizes i) as [sz | |] eqn:Hsz; try discriminate.
    destruct (readTypeFlags tmdData i) as [fl | |] eqn:Hfl; try discriminate.
    destruct (readContents tmdData sizes n (i + 1)) as [rest | |] eqn:Hrest;
      try discriminate.
    cbn [Go.bind] in Hrecs. injection Hrecs as <-.
    rewrite (H2 Hr rest eq_refl), (H1 eq_refl id fl sz eq_refl eq_refl).
    cbn [flat_map]. now rewrite <- app_assoc.
Qed.

End Asked.

(** X10. When the download stage runs to the end of the content loop, what
    [DownloadTitle] has started, by its own calls of [downloadFile] and of
    [GenerateCert], is, in this order and each once: the transfer of [tmd],
    the transfer of [cetk], the assembly of the certificate chain, and for
    every content record in the order of the metadata the transfer of its
    content and, exactly when bit 0x2 of the type flags is set, of its
    [.h3] file. What [GenerateCert] asks of the client it is handed is not
    part of downloader.go: whatever it is, it happens between the transfer
    of [cetk] and that of the first content. *)
Theorem transfers_follow_metadata_order env titleID outputDirectory w w' :
  downloadStage env titleID outputDirectory w = (w', Next LoopEnd) ->
  exists tmdData tmd,
    ReadFile env (Join env (outputDirOf outputDirectory) "title.tmd")
    = inr tmdData
    /\ parse tmdData = Done tmd
    /\ started (trace w')
       = started (trace w) ++ titleStarts (baseURLOf titleID) (contents tmd).
Proof.
  unfold downloadStage. intros H.
  apply bindM_Next in H as ([tmdData v] & w1 & H1 & H). cbn [fst snd] in H.
  pose proof (metadataStage_asks env titleID outputDirectory w) as A1.
  unfold wp in A1. rewrite H1 in A1. cbn [fst snd asks] in A1.
  apply metadataStage_Next in H1 as (Hrf & Hv & _ & Ht1).
  apply bindM_Next in H as ([] & w2 & H2 & H).
  pose proof (obtainTicket_asks env titleID outputDirectory v w1) as A2.
  unfold wp in A2. rewrite H2 in A2. cbn [fst snd asks] in A2.
  apply obtainTicket_Next in H2 as (_ & Ht2).
  apply bindM_Next in H as ([c sizes] & w3 & H3 & H). cbn [fst snd] in H.
  pose proof (certificateStage_asks env outputDirectory tmdData w2) as A3.
  unfold wp in A3. rewrite H3 in A3. cbn [fst snd asks] in A3.
  apply certificateStage_Next in H3 as (Hc & (ts & Hs) & _ & Ht3).
  pose proof (contentLoop_asks env titleID outputDirectory tmdData sizes
                (Z.to_nat c) 0 w3) as A4.
  unfold wp in A4. rewrite H in A4. cbn [fst snd] in A4.
  apply contentLoop_end in H as (recs & Hr & _);
    [| rewrite Ht3, Ht2, Ht1; reflexivity].
  exists tmdData,
    {| titleVersion := v; contentCount := c; titleSize := ts;
       contents := recs |}.
  split; [exact Hrf |]. split.
  { unfold parse. rewrite Hv. cbn [Go.bind]. rewrite Hc. cbn [Go.bind].
    rewrite Hs. cbn [Go.bind snd fst]. rewrite Hr. reflexivity. }
  cbn [contents]. rewrite (A4 eq_refl recs Hr), A3, A2, A1.
  unfold titleStarts. rewrite <- !app_assoc. reflexivity.
Qed.

(** X10 at the sample service: five transfers, and the certificate chain
    after the second. *)
Lemma transfers_follow_metadata_order_witness :
  started (trace (fst (downloadStage sampleEnv sampleTitleID "out/"
                          emptyWorld)))
  = [Transfer (baseURLOf sampleTitleID +:+ "/tmd");
     Transfer (baseURLOf sampleTitleID +:+ "/cetk");
     Certificate;
     Transfer (baseURLOf sampleTitleID +:+ "/00000000");
     Transfer (baseURLOf sampleTitleID +:+ "/00000001");
     Transfer (baseURLOf sampleTitleID +:+ "/00000001.h3")].
Proof.
  destruct (transfers_follow_metadata_order sampleEnv sampleTitleID "out/"
              emptyWorld
              (fst (downloadStage sampleEnv sampleTitleID "out/" emptyWorld)))
    as (tmdData & tmd & Hrf & Hp & Hq).
  - vm_compute. reflexivity.
  - injection Hrf as <-. rewrite Hq.
    vm_compute in Hp. injection Hp as <-. vm_compute. reflexivity.
Defined.

End TransferOrder.

(** ** Decryption *)

Section DecryptionFacts.
Import Go Downloader Title Acquisition Metadata Layout Observe Samples Logic
  Decryption.

Lemma decryptions_app l1 l2 :
  decryptions (l1 ++ l2) = (decryptions l1 + decryptions l2)%nat.
Proof. unfold decryptions. rewrite List.filter_app, length_app. reflexivity. Qed.

Lemma decryptions_quiet evs :
  forallb quiet evs = true -> decryptions evs = 0%nat.
Proof.
  unfold decryptions. induction evs as [| e evs IH]; [reflexivity |].
  cbn [forallb List.filter]. intros H. apply andb_true_iff in H as [He Hevs].
  rewrite He. cbn [negb]. auto.
Qed.

(** X11. When the output directory cannot be created, [DownloadTitle]
    returns the error of [os.MkdirAll] after resetting the counter and
    setting the title: nothing is requested, no file is created and the
    cancellation flag is not polled. *)
Theorem mkdir_error_stops_before_any_request env titleID outputDirectory
    doDecryption deleteEncryptedContents w e :
  MkdirAll env (outputDirOf outputDirectory) = Some e ->
  DownloadTitle env titleID outputDirectory doDecryption
    deleteEncryptedContents w
  = (mkWorld (trace w ++ [SetTotalDownloaded 0;
                          SetGameTitle (Name (getTitleEntryFromTid env titleID));
                          OsMkdirAll (outputDirOf outputDirectory)])
       (files w) (polls w) 0 [],
     Returned (Some e)).
Proof.
  intros Hmk.
  unfold DownloadTitle, downloadStage, bindM at 1 2.
  unfold metadataStage, bindM, setTotalDownloaded, call, check, enter.
  cbn [trace files polls totalDownloaded deferred].
  rewrite Hmk. unfold returns, runDeferred, emit.
  cbn [trace files polls totalDownloaded deferred].
  rewrite app_nil_r, <- !app_assoc. reflexivity.
Qed.

(** X12. Every run of [DownloadTitle] calls [DecryptContents] at most once.
    Without [doDecryption] it is never called and no file is removed. When
    it is called, the download stage had gone on to line 263 and the poll of
    [Cancelled()] there answered false, the call gets the trimmed output
    directory and [deleteEncryptedContents], and its result is the result
    of [DownloadTitle]. *)
Theorem decryption_called_at_most_once env titleID outputDirectory
    doDecryption deleteEncryptedContents w :
  let run := DownloadTitle env titleID outputDirectory doDecryption
               deleteEncryptedContents w in
  exists evs,
    trace (fst run) = trace w ++ evs
    /\ (decryptions evs <= 1)%nat
    /\ (doDecryption = false ->
        decryptions evs = 0%nat /\ files w ⊆ files (fst run))
    /\ (decryptions evs = 1%nat ->
        In (CallDecryptContents (outputDirOf outputDirectory)
              deleteEncryptedContents) evs
        /\ snd run
           = Returned (DecryptContents env (outputDirOf outputDirectory)
                         deleteEncryptedContents)
        /\ exists w1 ex,
             downloadStage env titleID outputDirectory (enter w)
             = (w1, Next ex)
             /\ cancelled env (polls w1) = false).
Proof.
  intros run.
  destruct (downloadStage env titleID outputDirectory (enter w))
    as [w1 r] eqn:E.
  pose proof (steady_downloadStage env titleID outputDirectory _ _ _ E)
    as [(evs & T & Q) (ds & D & R) F].
  cbn [enter trace deferred files] in T, D, F. rewrite app_nil_r in D.
  apply decryptions_quiet in Q as Q0. apply decryptions_quiet in R as R0.
  assert (Hnone : forall (P Q' : Prop) fs,
            files w ⊆ fs ->
            (decryptions (evs ++ ds) <= 1)%nat
            /\ (P -> decryptions (evs ++ ds) = 0%nat /\ files w ⊆ fs)
            /\ (decryptions (evs ++ ds) = 1%nat -> Q')).
  { intros P Q' fs Hfs. rewrite decryptions_app, Q0, R0.
    split; [lia |]. split; [auto | discriminate]. }
  subst run. unfold DownloadTitle, bindM. rewrite E.
  destruct r as [ex | err |].
  2,3: cbn [fst snd runDeferred trace files];
    exists (evs ++ ds); rewrite T, D, <- app_assoc;
    (split; [reflexivity | apply Hnone, F]).
  unfold decryptStage, bindM, Cancelled, ret, returns, decryptContents.
  destruct doDecryption; cbn [negb].
  2:{ cbn [fst snd runDeferred trace files].
      exists (evs ++ ds). rewrite T, D, <- app_assoc.
      split; [reflexivity | apply Hnone, F]. }
  destruct (cancelled env (polls w1)) eqn:Hc; cbn [negb].
  { cbn [fst snd runDeferred trace files deferred].
    exists (evs ++ ds). rewrite T, D, <- app_assoc.
    split; [reflexivity | apply Hnone, F]. }
  exists (evs ++ [CallDecryptContents (outputDirOf outputDirectory)
                    deleteEncryptedContents] ++ ds).
  assert (Hn : decryptions
                 (evs ++ [CallDecryptContents (outputDirOf outputDirectory)
                            deleteEncryptedContents] ++ ds) = 1%nat)
    by (rewrite !decryptions_app, Q0, R0; reflexivity).
  rewrite Hn.
  destruct (DecryptContents env (outputDirOf outputDirectory)
              deleteEncryptedContents) eqn:Hd;
    cbn [fst snd runDeferred trace files deferred];
    rewrite T, D, <- !app_assoc.
  all: split; [reflexivity |]; split; [lia |]; split; [discriminate |].
  all: intros _; split;
    [apply in_or_app; right; left; reflexivity |].
  all: split; [reflexivity | eauto].
Qed.

End DecryptionFacts.

(** ** A run with the cancellation flag set *)

Section FlagSet.
Import Go Downloader Title Acquisition Metadata Layout Observe Samples Logic.

Context (env : Env) (titleID outputDirectory : string) (tmdData : slice).
Hypothesis Hflag : forall k, cancelled env k = true.
Hypothesis Hmkdir : MkdirAll env (outputDirOf outputDirectory) = None.
Hypothesis Hread :
  ReadFile env (Join env (outputDirOf outputDirectory) "title.tmd")
  = inr tmdData.
Hypothesis Hcomplete : complete tmdData.
Hypothesis Hcreate :
  certCreate env (Join env (outputDirOf outputDirectory) "title.cert") = None.
Hypothesis Hwrite :
  forall cert,
    certWrite env (Join env (outputDirOf outputDirectory) "title.cert") cert
    = None.

Ltac flag_set :=
  try exact I;
  try match goal with
      | H : cancelled env _ = false |- _ => rewrite Hflag in H; discriminate
      | H : negb (cancelled env _) = true |- _ =>
          rewrite Hflag in H; discriminate
      | H : certWrite env _ _ = Some _ |- _ => rewrite Hwrite in H; discriminate
      end.

Lemma metadataStage_flag_set w :
  wp (metadataStage env titleID outputDirectory)
    (fun r w' => noError r w' /\ forall md, r = Next md -> fst md = tmdData) w.
Proof.
  destruct (requiredLength_inv _ Hcomplete) as [Hlen _].
  unfold metadataStage. rewrite Hmkdir, Hread.
  wp_run; flag_set; try (split; [exact I | discriminate]).
  rewrite (readTitleVersion_ok tmdData) by lia.
  wp_all. split; [exact I |].
  intros md Hmd. injection Hmd as <-. reflexivity.
Qed.

Lemma obtainTicket_flag_set v w :
  wp (obtainTicket env titleID outputDirectory v) noError w.
Proof. unfold obtainTicket. wp_all; flag_set. Qed.

Lemma certificateStage_flag_set w :
  wp (certificateStage env outputDirectory tmdData)
    (fun r w' =>
       noError r w'
       /\ forall cs, r = Next cs ->
            fst cs = declaredCount tmdData
            /\ snd cs = sizeField tmdData <$> seqZ 0 (fst cs)) w.
Proof.
  destruct (requiredLength_inv _ Hcomplete) as [Hlen Hrec].
  pose proof (declaredCount_range tmdData) as Hrange.
  destruct (readContentSizes_ok tmdData (Z.to_nat (declaredCount tmdData))
              0 0 []) as [ts Hs]; [lia | |].
  { destruct Hrec as [-> | Hrec]; [left; reflexivity | right; lia]. }
  unfold certificateStage. rewrite Hcreate.
  rewrite readContentCount_ok, <- declaredCount_below_len by lia.
  wp_run. rewrite Hs. wp_run; flag_set; try (split; [exact I | discriminate]).
  all: split; [exact I |]; intros cs Hcs; injection Hcs as <-; cbn [fst snd].
  all: split; [reflexivity |]; rewrite Z2Nat.id by lia; reflexivity.
Qed.

Lemma contentLoop_flag_set n :
  forall i w,
    0 <= i -> i + Z.of_nat n = declaredCount tmdData ->
    wp (contentLoop env titleID outputDirectory tmdData
          (sizeField tmdData <$> seqZ 0 (declaredCount tmdData)) n i)
      noError w.
Proof.
  destruct (requiredLength_inv _ Hcomplete) as [Hlen Hrec].
  induction n as [| n IH]; intros i w Hi Hn; cbn [contentLoop].
  - exact I.
  - assert (Hlast : 0xB04 + 0x30 * (declaredCount tmdData - 1) + 16
                    <= len tmdData) by (destruct Hrec; [lia | assumption]).
    assert (Hsz : sizeAt (sizeField tmdData <$> seqZ 0 (declaredCount tmdData)) i
                  = Done (sizeField tmdData i)).
    { unfold sizeAt. rewrite list_lookup_fmap.
      rewrite (lookup_seqZ_lt _ _ (Z.to_nat i)) by lia.
      cbn. do 2 f_equal. lia. }
    unfold contentIteration, fetchContent.
    rewrite (readContentID_ok tmdData i), Hsz, (readTypeFlags_ok tmdData i)
      by lia.
    wp_all; flag_set.
Qed.

Lemma decryptStage_flag_set doDecryption deleteEncryptedContents w :
  wp (decryptStage env outputDirectory doDecryption deleteEncryptedContents)
    noError w.
Proof. unfold decryptStage. wp_all; flag_set. Qed.

Lemma downloadStage_flag_set w :
  wp (downloadStage env titleID outputDirectory) noError w.
Proof.
  unfold downloadStage. apply wp_bind.
  eapply wp_mono; [| apply metadataStage_flag_set].
  intros [[d v] | [err |] |] w1 [H1 Hd]; cbn [andThen noError fst snd] in *;
    try exact I; try contradiction.
  pose proof (Hd _ eq_refl) as Hd'. cbn [fst] in Hd'. subst d. clear Hd.
  apply wp_bind.
  eapply wp_mono; [| apply obtainTicket_flag_set].
  intros [[] | [err |] |] w2 H2; cbn [andThen noError] in *;
    try exact I; try contradiction.
  apply wp_bind.
  eapply wp_mono; [| apply certificateStage_flag_set].
  intros [[c sizes] | [err |] |] w3 [H3 Hcs];
    cbn [andThen noError fst snd] in *; try exact I; try contradiction.
  destruct (Hcs _ eq_refl) as [Hc Hsizes]. cbn [fst snd] in Hc, Hsizes.
  subst c sizes.
  pose proof (declaredCount_range tmdData).
  apply contentLoop_flag_set; lia.
Qed.

End FlagSet.

Section FlagSetResult.
Import Go Downloader Title Acquisition Metadata Layout Observe Samples Logic.

(** X13. With the cancellation flag set throughout, a working file system
    and complete metadata, [DownloadTitle] returns nil whatever the network
    and [GenerateCert] do: no failed transfer surfaces as an error. *)
Theorem flag_set_returns_nil env titleID outputDirectory doDecryption
    deleteEncryptedContents tmdData w :
  (forall k, cancelled env k = true) ->
  MkdirAll env (outputDirOf outputDirectory) = None ->
  ReadFile env (Join env (outputDirOf outputDirectory) "title.tmd")
  = inr tmdData ->
  complete tmdData ->
  certCreate env (Join env (outputDirOf outputDirectory) "title.cert")
  = None ->
  (forall cert,
     certWrite env (Join env (outputDirOf outputDirectory) "title.cert") cert
     = None) ->
  snd (DownloadTitle env titleID outputDirectory doDecryption
         deleteEncryptedContents w)
  = Returned None.
Proof.
  intros Hflag Hmk Hrf Hc Hcc Hcw. unfold DownloadTitle.
  assert (H : wp (_ <~ downloadStage env titleID outputDirectory ;;
                  decryptStage env outputDirectory doDecryption
                    deleteEncryptedContents) noError (enter w)).
  { apply wp_bind.
    eapply wp_mono;
      [| eapply downloadStage_flag_set; eassumption].
    intros [ex | [err |] |] w1 H1; cbn [andThen noError] in *;
      try exact I; try contradiction.
    apply decryptStage_flag_set, Hflag. }
  unfold wp in H.
  destruct ((_ <~ downloadStage env titleID outputDirectory ;;
             decryptStage env outputDirectory doDecryption
               deleteEncryptedContents) (enter w)) as [w' [[] | [err |] |]];
    cbn [fst snd noError] in *; try reflexivity; contradiction.
Qed.

End FlagSetResult.

(** ** The progress counter *)

Section CounterFacts.
Import Go Downloader Title Acquisition Metadata Layout Observe Samples Logic
  Counter.

Ltac counted :=
  repeat match goal with
         | H : downloadFile _ _ _ _ _ = (_, _) |- _ =>
             apply downloadFile_transferred in H;
             apply tr_total in H;
             cbn [totalDownloaded emit create] in H
         end;
  cbn [totalDownloaded emit create];
  repeat match goal with
         | H : totalDownloaded _ = _ |- _ => rewrite H; clear H
         end;
  try reflexivity.

Context (env : Env) (titleID outputDirectory : string).

Lemma metadataStage_counter w :
  wp (metadataStage env titleID outputDirectory)
    (fun _ w' => totalDownloaded w' = 0) w.
Proof. unfold metadataStage. wp_all; counted. Qed.

Lemma obtainTicket_counter v w :
  wp (obtainTicket env titleID outputDirectory v)
    (fun _ w' => totalDownloaded w' = totalDownloaded w) w.
Proof. unfold obtainTicket. wp_all; counted. Qed.

Lemma certificateStage_counter tmdData w :
  wp (certificateStage env outputDirectory tmdData)
    (fun _ w' => totalDownloaded w' = totalDownloaded w) w.
Proof. unfold certificateStage. wp_all; counted. Qed.

Lemma decryptStage_counter doDecryption deleteEncryptedContents w :
  wp (decryptStage env outputDirectory doDecryption deleteEncryptedContents)
    (fun _ w' => totalDownloaded w' = totalDownloaded w) w.
Proof.
  unfold decryptStage. wp_all; counted.
  all: destruct (DecryptContents _ _ _); reflexivity.
Qed.

Lemma sizeAt_Done sizes i sz :
  sizeAt sizes i = Done sz -> sizes !! Z.to_nat i = Some sz.
Proof.
  unfold sizeAt. destruct (sizes !! Z.to_nat i); intros H; inversion H.
  reflexivity.
Qed.

Lemma contentIteration_counter tmdData sizes i w :
  wp (contentIteration env titleID outputDirectory tmdData sizes i)
    (fun r w' =>
       (r <> Next false /\ totalDownloaded w' = totalDownloaded w)
       \/ exists sz,
            sizes !! Z.to_nat i = Some sz
            /\ totalDownloaded w' = int64 (totalDownloaded w + int64 sz)) w.
Proof.
  unfold contentIteration, fetchContent.
  wp_all; counted;
    try (left; split; [discriminate | reflexivity]);
    right; eexists; (split; [apply sizeAt_Done; eassumption | reflexivity]).
Qed.

Lemma sumZ_app l1 l2 : sumZ (l1 ++ l2) = sumZ l1 + sumZ l2.
Proof.
  unfold sumZ. induction l1 as [| x l1 IH]; cbn [app foldr]; lia.
Qed.

Lemma contentLoop_counter tmdData sizes n :
  forall i w,
    0 <= i ->
    int64 (totalDownloaded w) = totalDownloaded w ->
    wp (contentLoop env titleID outputDirectory tmdData sizes n i)
      (fun _ w' =>
         exists k,
           totalDownloaded w'
           = int64 (totalDownloaded w
                    + sumZ (take k (drop (Z.to_nat i) sizes)))) w.
Proof.
  induction n as [| n IH]; intros i w Hi Hnorm; cbn [contentLoop].
  - apply wp_ret. exists 0%nat. cbn. now rewrite Z.add_0_r, Hnorm.
  - apply wp_bind.
    eapply wp_mono; [| apply contentIteration_counter].
    intros r w1 [[Hr Ht] | (sz & Hsz & Ht)].
    + assert (Hend : forall (r' : step loopExit),
                exists k,
                  totalDownloaded w1
                  = int64 (totalDownloaded w
                           + sumZ (take k (drop (Z.to_nat i) sizes)))).
      { intros _. exists 0%nat. cbn. now rewrite Z.add_0_r, Hnorm. }
      destruct r as [[] | err |]; cbn [andThen];
        [apply wp_ret, Hend; exact Abort | contradiction
        | apply Hend; exact Abort | apply Hend; exact Abort].
    + assert (Hone : exists k,
                totalDownloaded w1
                = int64 (totalDownloaded w
                         + sumZ (take k (drop (Z.to_nat i) sizes)))).
      { exists 1%nat. rewrite (drop_S _ _ _ Hsz). cbn [take sumZ foldr].
        rewrite Ht, Z.add_0_r. apply int64_add_r. }
      destruct r as [[] | err |]; cbn [andThen];
        [apply wp_ret, Hone | | exact Hone | exact Hone].
      eapply wp_mono; [| apply IH; [lia | rewrite Ht; apply int64_idem]].
      intros r2 w2 [k Hk]. exists (S k).
      rewrite (drop_S _ _ _ Hsz). cbn [take sumZ foldr].
      replace (Z.to_nat (i + 1)) with (S (Z.to_nat i)) in Hk by lia.
      rewrite Hk, Ht. fold (sumZ (take k (drop (S (Z.to_nat i)) sizes))).
      rewrite int64_add_l.
      replace (totalDownloaded w + int64 sz
               + sumZ (take k (drop (S (Z.to_nat i)) sizes)))
        with (totalDownloaded w
              + sumZ (take k (drop (S (Z.to_nat i)) sizes)) + int64 sz)
        by lia.
      rewrite int64_add_r. f_equal. lia.
Qed.

(** X14. However a run of [DownloadTitle] ends (nil, an error, a break or
    a panic), the cumulative counter of the progress collaborator holds the
    int64 sum of the sizes of the first [k] content records, for some [k]:
    it counts whole records in metadata order, never a partial one. *)
Theorem counter_holds_a_prefix_sum doDecryption deleteEncryptedContents w :
  exists k,
    totalDownloaded
      (fst (DownloadTitle env titleID outputDirectory doDecryption
              deleteEncryptedContents w))
    = int64 (sumZ (take k (sizesRead env outputDirectory))).
Proof.
  assert (Hzero : forall w' : World,
            totalDownloaded w' = 0 ->
            exists k, totalDownloaded w'
                      = int64 (sumZ (take k (sizesRead env outputDirectory))))
    by (intros w' ->; exists 0%nat; reflexivity).
  assert (H : wp (_ <~ downloadStage env titleID outputDirectory ;;
                  decryptStage env outputDirectory doDecryption
                    deleteEncryptedContents)
                (fun _ w' =>
                   exists k, totalDownloaded w'
                     = int64 (sumZ (take k (sizesRead env outputDirectory))))
                (enter w)).
  { apply wp_bind. unfold downloadStage. apply wp_bind.
    pose proof (metadataStage_counter (enter w)) as C1. unfold wp in C1 |- *.
    destruct (metadataStage env titleID outputDirectory (enter w))
      as [w1 [[tmdData v] | err |]] eqn:E1; cbn [fst snd andThen] in *;
      try (apply Hzero; exact C1).
    apply metadataStage_Next in E1 as (Hrf & _).
    apply wp_bind.
    pose proof (obtainTicket_counter v w1) as C2. unfold wp in C2 |- *.
    destruct (obtainTicket env titleID outputDirectory v w1)
      as [w2 [[] | err |]] eqn:E2; cbn [fst snd andThen] in *;
      try (apply Hzero; congruence).
    apply wp_bind.
    pose proof (certificateStage_counter tmdData w2) as C3.
    unfold wp in C3 |- *.
    destruct (certificateStage env outputDirectory tmdData w2)
      as [w3 [[c sizes] | err |]] eqn:E3; cbn [fst snd andThen] in *;
      try (apply Hzero; congruence).
    apply certificateStage_Next in E3 as (Hc & (ts & Hs) & _).
    assert (Hsizes : sizesRead env outputDirectory = sizes)
      by (unfold sizesRead; rewrite Hrf, Hc, Hs; reflexivity).
    assert (H3 : totalDownloaded w3 = 0) by congruence.
    eapply wp_mono;
      [| apply contentLoop_counter; [lia | rewrite H3; reflexivity]].
    intros r w4 [k Hk]. rewrite H3, Z.add_0_l in Hk. cbn [drop] in Hk.
    rewrite <- Hsizes in Hk.
    destruct r as [ex | err |]; cbn [andThen]; eauto.
    eapply wp_mono; [| apply decryptStage_counter].
    intros r' w5 H5. exists k. rewrite H5. exact Hk. }
  unfold wp in H. unfold DownloadTitle.
  destruct ((_ <~ downloadStage env titleID outputDirectory ;;
             decryptStage env outputDirectory doDecryption
               deleteEncryptedContents) (enter w)) as [w' [[] | err |]];
    cbn [fst snd runDeferred totalDownloaded] in *; exact H.
Qed.

End CounterFacts.

(** ** The deferred close of the certificate file *)

Section CertificateFacts.
Import Go Downloader Title Acquisition Metadata Layout Observe Samples Logic
  Certificate.

Lemma before_refl w : before w w.
Proof. split; [reflexivity |]. exists []. now rewrite app_nil_r. Qed.

Lemma before_trans w1 w2 w3 : before w1 w2 -> before w2 w3 -> before w1 w3.
Proof.
  intros [D1 (e1 & T1 & Q1)] [D2 (e2 & T2 & Q2)]. split; [congruence |].
  exists (e1 ++ e2). rewrite T2, T1, <- app_assoc. split; [reflexivity |].
  now rewrite forallb_app, Q1, Q2.
Qed.

Lemma transferEvent_early evs :
  forallb transferEvent evs = true -> forallb early evs = true.
Proof.
  induction evs as [| e evs IH]; [reflexivity |]. cbn [forallb].
  intros H. apply andb_true_iff in H as [He Hevs].
  rewrite IH by assumption. destruct e; try discriminate; reflexivity.
Qed.

Lemma early_notClose evs :
  forallb early evs = true -> forallb notClose evs = true.
Proof.
  induction evs as [| e evs IH]; [reflexivity |]. cbn [forallb].
  intros H. apply andb_true_iff in H as [He Hevs].
  rewrite IH by assumption. destruct e; try discriminate; reflexivity.
Qed.

Lemma transferred_before dst w w' : transferred dst w w' -> before w w'.
Proof.
  intros [_ _ Hd (evs & E & Q) _ _]. split; [exact Hd |].
  exists evs. split; [exact E | now apply transferEvent_early].
Qed.

Ltac unfetch :=
  repeat match goal with
         | H : downloadFile _ _ _ _ _ = (_, _) |- _ =>
             let D := fresh "D" in
             let e := fresh "e" in
             let T := fresh "T" in
             let Q := fresh "Q" in
             apply downloadFile_transferred, transferred_before in H;
             destruct H as [D (e & T & Q)];
             cbn [deferred trace emit create] in D, T
         end.

Ltac is_before :=
  unfetch; split;
  [ cbn [deferred emit create];
    repeat match goal with
           | D : deferred _ = _ |- _ => rewrite D; clear D
           end;
    reflexivity
  | cbn [trace emit create];
    repeat match goal with
           | T : trace _ = _ |- _ => rewrite T; clear T
           end;
    eexists;
    split; [first [rewrite <- ?app_assoc; reflexivity
                  | symmetry; apply app_nil_r] |];
    rewrite ?forallb_app; cbn [forallb early andb];
    repeat match goal with
           | Q : forallb early _ = true |- _ => rewrite Q; clear Q
           end;
    reflexivity ].

Context (env : Env) (titleID outputDirectory : string).

Lemma metadataStage_before w :
  wp (metadataStage env titleID outputDirectory) (fun _ w' => before w w') w.
Proof. unfold metadataStage. wp_all; is_before. Qed.

Lemma obtainTicket_before v w :
  wp (obtainTicket env titleID outputDirectory v) (fun _ w' => before w w') w.
Proof. unfold obtainTicket. wp_all; is_before. Qed.

Lemma contentIteration_before tmdData sizes i w :
  wp (contentIteration env titleID outputDirectory tmdData sizes i)
    (fun _ w' => before w w') w.
Proof. unfold contentIteration, fetchContent. wp_all; is_before. Qed.

Lemma contentLoop_before tmdData sizes n :
  forall i w,
    wp (contentLoop env titleID outputDirectory tmdData sizes n i)
      (fun _ w' => before w w') w.
Proof.
  induction n as [| n IH]; intros i w; cbn [contentLoop].
  - apply wp_ret, before_refl.
  - apply wp_bind. eapply wp_mono; [| apply contentIteration_before].
    intros [[] | err |] w1 H1; cbn [andThen]; try exact H1.
    eapply wp_mono; [| apply IH].
    intros r w2 H2. eapply before_trans; eassumption.
Qed.

Lemma decryptStage_before doDecryption deleteEncryptedContents w :
  wp (decryptStage env outputDirectory doDecryption deleteEncryptedContents)
    (fun _ w' => before w w') w.
Proof.
  unfold decryptStage. wp_all; try is_before.
  all: destruct (DecryptContents _ _ _); is_before.
Qed.

Lemma certificateStage_defers tmdData w :
  wp (certificateStage env outputDirectory tmdData)
    (fun r w' =>
       match r with
       | Next _ =>
           let certPath := Join env (outputDirOf outputDirectory) "title.cert" in
           deferred w' = CertClose certPath :: deferred w
           /\ exists evs,
                trace w' = trace w ++ evs
                /\ In (LoggerInfo certPath) evs
                /\ forallb notClose evs = true
       | _ => before w w'
       end) w.
Proof.
  unfold certificateStage. wp_all; try is_before.
  all: cbn [deferred trace emit create]; split; [reflexivity |].
  all: eexists; split; [rewrite <- !app_assoc; reflexivity |].
  all: split; [| reflexivity].
  all: cbn; auto 10.
Qed.

(** X15. The certificate file is closed by the deferred call of line 228
    only: in every run either the log line of 229 is never reached and
    [certFile.Close] is never called (so a failed write at line 225 leaves
    the created file open), or the close is the last call of the run,
    exactly once, also when the run ends in an error or a panic. *)
Theorem certificate_closed_last_or_never doDecryption
    deleteEncryptedContents w :
  let certPath := Join env (outputDirOf outputDirectory) "title.cert" in
  exists evs,
    trace (fst (DownloadTitle env titleID outputDirectory doDecryption
                  deleteEncryptedContents w))
    = trace w ++ evs
    /\ (forallb early evs = true
        \/ exists evs',
             evs = evs' ++ [CertClose certPath]
             /\ In (LoggerInfo certPath) evs'
             /\ forallb notClose evs' = true).
Proof.
  intros certPath.
  assert (Hearly : forall w' : World,
            before (enter w) w' ->
            exists evs,
              trace (runDeferred w') = trace w ++ evs
              /\ (forallb early evs = true
                  \/ exists evs',
                       evs = evs' ++ [CertClose certPath]
                       /\ In (LoggerInfo certPath) evs'
                       /\ forallb notClose evs' = true)).
  { intros w' [D (evs & T & Q)]. cbn [enter deferred trace] in D, T.
    exists evs. cbn [runDeferred trace]. rewrite D, T, app_nil_r. auto. }
  assert (H : wp (_ <~ downloadStage env titleID outputDirectory ;;
                  decryptStage env outputDirectory doDecryption
                    deleteEncryptedContents)
                (fun _ w' =>
                   exists evs,
                     trace (runDeferred w') = trace w ++ evs
                     /\ (forallb early evs = true
                         \/ exists evs',
                              evs = evs' ++ [CertClose certPath]
                              /\ In (LoggerInfo certPath) evs'
                              /\ forallb notClose evs' = true))
                (enter w)).
  { apply wp_bind. unfold downloadStage. apply wp_bind.
    eapply wp_mono; [| apply metadataStage_before].
    intros [[tmdData v] | err |] w1 H1; cbn [andThen fst snd]; auto.
    apply wp_bind.
    eapply wp_mono; [| apply obtainTicket_before].
    intros [[] | err |] w2 H2; cbn [andThen];
      try (apply Hearly; eapply before_trans; eassumption).
    pose proof (before_trans _ _ _ H1 H2) as H12.
    apply wp_bind.
    eapply wp_mono; [| apply certificateStage_defers].
    intros [[c sizes] | err |] w3 H3; cbn [andThen fst snd];
      try (apply Hearly; eapply before_trans; eassumption).
    fold certPath in H3.
    assert (Hlate : forall w' : World,
              before w3 w' ->
              exists evs,
                trace (runDeferred w') = trace w ++ evs
                /\ (forallb early evs = true
                    \/ exists evs',
                         evs = evs' ++ [CertClose certPath]
                         /\ In (LoggerInfo certPath) evs'
                         /\ forallb notClose evs' = true)).
    { intros w' [D4 (e4 & T4 & Q4)].
      destruct H12 as [D12 (e12 & T12 & Q12)].
      destruct H3 as [D3 (e3 & T3 & L3 & Q3)].
      cbn [enter deferred trace] in D12, T12.
      exists ((e12 ++ e3 ++ e4) ++ [CertClose certPath]).
      cbn [runDeferred trace]. rewrite D4, D3, D12, T4, T3, T12.
      split; [rewrite <- !app_assoc; reflexivity |].
      right. exists (e12 ++ e3 ++ e4). split; [reflexivity |].
      split; [apply in_or_app; right; apply in_or_app; left; exact L3 |].
      rewrite !forallb_app, Q3, (early_notClose _ Q12), (early_notClose _ Q4).
      reflexivity. }
    eapply wp_mono; [| apply contentLoop_before].
    intros [ex | err |] w4 H4; cbn [andThen]; auto.
    eapply wp_mono; [| apply decryptStage_before].
    intros r w5 H5. apply Hlate. eapply before_trans; eassumption. }
  unfold wp in H. unfold DownloadTitle.
  destruct ((_ <~ downloadStage env titleID outputDirectory ;;
             decryptStage env outputDirectory doDecryption
               deleteEncryptedContents) (enter w)) as [w' [[] | err |]];
    cbn [fst snd] in *; exact H.
Qed.

End CertificateFacts.

(** ** A cooperative environment *)

Section Cooperative.
Import Go Downloader Title Acquisition Metadata Layout Observe Samples Logic
  Runs.

Lemma downloadFile_first_attempt_completes net url dst doRetries w :
  completes (net 1) -> snd (downloadFile net url dst doRetries w) = None.
Proof.
  intros ((Hdo & Hst & Hc & Hw) & Hctx & Hb).
  unfold downloadFile. change (Z.to_nat maxRetries) with (S 4).
  generalize 4%nat. intros n. cbn [attemptLoop].
  rewrite Hdo, (status_ok_reads_ok _ Hst), Hc, Hw.
  unfold selectBody. rewrite Hctx.
  destruct Hb as [-> | ->]; reflexivity.
Qed.

Context (env : Env) (titleID outputDirectory : string) (tmdData : slice).
Hypothesis Hnet : forall url, completes (transfer env url 1).
Hypothesis Hflag : forall k, cancelled env k = false.
Hypothesis Hmkdir : MkdirAll env (outputDirOf outputDirectory) = None.
Hypothesis Hread :
  ReadFile env (Join env (outputDirOf outputDirectory) "title.tmd")
  = inr tmdData.
Hypothesis Hcomplete : complete tmdData.
Hypothesis Hcert :
  exists cert, GenerateCert env tmdData (declaredCount tmdData) = inr cert.
Hypothesis Hcreate :
  certCreate env (Join env (outputDirOf outputDirectory) "title.cert") = None.
Hypothesis Hwrite :
  forall cert,
    certWrite env (Join env (outputDirOf outputDirectory) "title.cert") cert
    = None.

Ltac cooperative :=
  repeat match goal with
         | H : downloadFile _ _ _ _ _ = (_, Some _) |- _ =>
             apply (f_equal snd) in H;
             rewrite downloadFile_first_attempt_completes in H by apply Hnet;
             discriminate H
         | H : cancelled env _ = true |- _ => rewrite Hflag in H; discriminate
         | H : certWrite env _ _ = Some _ |- _ =>
             rewrite Hwrite in H; discriminate
         end.

Lemma metadataStage_goes_on w :
  wp (metadataStage env titleID outputDirectory)
    (goesOn (fun md => fst md = tmdData)) w.
Proof.
  destruct (requiredLength_inv _ Hcomplete) as [Hlen _].
  unfold metadataStage. rewrite Hmkdir, Hread.
  wp_run; cooperative.
  rewrite (readTitleVersion_ok tmdData) by lia.
  wp_run. eexists. split; reflexivity.
Qed.

Lemma obtainTicket_goes_on v w :
  wp (obtainTicket env titleID outputDirectory v) (goesOn (fun _ => True)) w.
Proof.
  unfold obtainTicket. wp_run; cooperative. eexists. split; [reflexivity | exact I].
Qed.

Lemma certificateStage_goes_on w :
  wp (certificateStage env outputDirectory tmdData)
    (goesOn (fun cs =>
       fst cs = declaredCount tmdData
       /\ snd cs = sizeField tmdData <$> seqZ 0 (fst cs))) w.
Proof.
  destruct (requiredLength_inv _ Hcomplete) as [Hlen Hrec].
  pose proof (declaredCount_range tmdData) as Hrange.
  destruct (readContentSizes_ok tmdData (Z.to_nat (declaredCount tmdData))
              0 0 []) as [ts Hs]; [lia | |].
  { destruct Hrec as [-> | Hrec]; [left; reflexivity | right; lia]. }
  destruct Hcert as [cert Hc].
  unfold certificateStage. rewrite Hcreate.
  rewrite readContentCount_ok, <- declaredCount_below_len by lia.
  wp_run. rewrite Hs. wp_run; cooperative; try discriminate.
  eexists. split; [reflexivity |]. cbn [fst snd]. split; [reflexivity |].
  rewrite Z2Nat.id by lia. reflexivity.
Qed.

Lemma contentLoop_goes_on n :
  forall i w,
    0 <= i -> i + Z.of_nat n = declaredCount tmdData ->
    wp (contentLoop env titleID outputDirectory tmdData
          (sizeField tmdData <$> seqZ 0 (declaredCount tmdData)) n i)
      (goesOn (fun ex => ex = LoopEnd)) w.
Proof.
  destruct (requiredLength_inv _ Hcomplete) as [Hlen Hrec].
  induction n as [| n IH]; intros i w Hi Hn; cbn [contentLoop].
  - eexists. split; reflexivity.
  - assert (Hlast : 0xB04 + 0x30 * (declaredCount tmdData - 1) + 16
                    <= len tmdData) by (destruct Hrec; [lia | assumption]).
    assert (Hsz : sizeAt (sizeField tmdData <$> seqZ 0 (declaredCount tmdData)) i
                  = Done (sizeField tmdData i)).
    { unfold sizeAt. rewrite list_lookup_fmap.
      rewrite (lookup_seqZ_lt _ _ (Z.to_nat i)) by lia.
      cbn. do 2 f_equal. lia. }
    unfold contentIteration, fetchContent.
    rewrite (readContentID_ok tmdData i), Hsz, (readTypeFlags_ok tmdData i)
      by lia.
    wp_run; cooperative.
    all: apply IH; lia.
Qed.

Lemma downloadStage_goes_on w :
  wp (downloadStage env titleID outputDirectory)
    (goesOn (fun ex => ex = LoopEnd)) w.
Proof.
  unfold downloadStage. apply wp_bind.
  eapply wp_mono; [| apply metadataStage_goes_on].
  intros r w1 ([d v] & -> & Hd). cbn [fst] in Hd. subst d.
  cbn [andThen fst snd].
  apply wp_bind.
  eapply wp_mono; [| apply obtainTicket_goes_on].
  intros r w2 ([] & -> & _). cbn [andThen].
  apply wp_bind.
  eapply wp_mono; [| apply certificateStage_goes_on].
  intros r w3 ([c sizes] & -> & Hc & Hsizes). cbn [fst snd] in Hc, Hsizes.
  subst c sizes. cbn [andThen fst snd].
  pose proof (declaredCount_range tmdData).
  apply contentLoop_goes_on; lia.
Qed.

End Cooperative.

Section CooperativeResult.
Import Go Downloader Title Acquisition Metadata Layout Observe Samples Logic
  Runs.

(** X16. In a cooperative environment (every first GET is answered with 200
    and streams to the end, the flag is never set, directory, metadata and
    certificate file can be written, the metadata is complete and the
    certificate chain is built) the download stage runs to the end of the
    content loop, and [DownloadTitle] returns the result of
    [DecryptContents] when [doDecryption] is set and nil otherwise. *)
Theorem acquisition_completes env titleID outputDirectory doDecryption
    deleteEncryptedContents tmdData w :
  (forall url, completes (transfer env url 1)) ->
  (forall k, cancelled env k = false) ->
  MkdirAll env (outputDirOf outputDirectory) = None ->
  ReadFile env (Join env (outputDirOf outputDirectory) "title.tmd")
  = inr tmdData ->
  complete tmdData ->
  (exists cert, GenerateCert env tmdData (declaredCount tmdData) = inr cert) ->
  certCreate env (Join env (outputDirOf outputDirectory) "title.cert")
  = None ->
  (forall cert,
     certWrite env (Join env (outputDirOf outputDirectory) "title.cert") cert
     = None) ->
  snd (downloadStage env titleID outputDirectory (enter w)) = Next LoopEnd
  /\ snd (DownloadTitle env titleID outputDirectory doDecryption
            deleteEncryptedContents w)
     = Returned (if doDecryption
                 then DecryptContents env (outputDirOf outputDirectory)
                        deleteEncryptedContents
                 else None).
Proof.
  intros Hnet Hflag Hmk Hrf Hc Hcert Hcc Hcw.
  pose proof (downloadStage_goes_on env titleID outputDirectory tmdData
                Hnet Hflag Hmk Hrf Hc Hcert Hcc Hcw (enter w)) as H.
  unfold wp, goesOn in H. destruct H as (ex & Hex & ->).
  split; [exact Hex |].
  unfold DownloadTitle, bindM.
  destruct (downloadStage env titleID outputDirectory (enter w)) as [w1 r].
  cbn [snd] in Hex. subst r.
  unfold decryptStage, bindM, Cancelled, ret, returns, decryptContents.
  destruct doDecryption; [| reflexivity].
  rewrite Hflag. cbn [negb].
  destruct (DecryptContents env (outputDirOf outputDirectory)
              deleteEncryptedContents); reflexivity.
Qed.

End CooperativeResult.

(** ** The files a run creates *)

Section PathFacts.
Import Go Downloader Title Acquisition Metadata Layout Observe Samples Logic
  Paths Text.

Lemma hexDigit_no_separator d : isSeparator (hexDigit d) = false.
Proof.
  unfold hexDigit. generalize (Z.to_nat d). intros n.
  do 16 (destruct n as [| n]; [reflexivity |]).
  cbn [nth]. destruct n; reflexivity.
Qed.

Lemma chars_append (s t : string) :
  String.list_ascii_of_string (s +:+ t)
  = String.list_ascii_of_string s ++ String.list_ascii_of_string t.
Proof.
  induction s as [| c s IH]; [reflexivity |].
  change (String c s +:+ t) with (String c (s +:+ t)).
  cbn [String.list_ascii_of_string app]. now rewrite IH.
Qed.

Lemma hex8_no_separator id :
  forallb (fun c => negb (isSeparator c))
    (String.list_ascii_of_string (hex8 id)) = true.
Proof.
  unfold hex8. rewrite String.list_ascii_of_string_of_list_ascii.
  cbn [map forallb]. rewrite !hexDigit_no_separator. reflexivity.
Qed.

Lemma engineName_no_separator name :
  engineName name ->
  forallb (fun c => negb (isSeparator c)) (String.list_ascii_of_string name)
  = true.
Proof.
  intros [-> | [-> | [-> | [id [-> | ->]]]]]; try reflexivity.
  all: rewrite chars_append, forallb_app, hex8_no_separator; reflexivity.
Qed.

Context (env : Env) (titleID outputDirectory : string).

Lemma grows_refl w : grows env (outputDirOf outputDirectory) w w.
Proof. intros p Hp. auto. Qed.

Lemma grows_trans w1 w2 w3 :
  grows env (outputDirOf outputDirectory) w1 w2 ->
  grows env (outputDirOf outputDirectory) w2 w3 ->
  grows env (outputDirOf outputDirectory) w1 w3.
Proof. intros H1 H2 p Hp. apply H2 in Hp as [Hp | Hp]; auto. Qed.

Lemma inOutputDir_name name :
  engineName name ->
  inOutputDir env (outputDirOf outputDirectory)
    (Join env (outputDirOf outputDirectory) name).
Proof. intros H. exists name. auto. Qed.

Lemma engineName_app id : engineName (hex8 id +:+ ".app").
Proof. do 3 right. exists id. auto. Qed.

Lemma engineName_h3 id : engineName (hex8 id +:+ ".h3").
Proof. do 3 right. exists id. auto. Qed.

Ltac is_grown :=
  repeat match goal with
         | H : downloadFile _ _ _ _ _ = (_, _) |- _ =>
             apply downloadFile_transferred, tr_files_upper in H;
             cbn [files emit create] in H
         end;
  cbv beta; unfold grows;
  intros path Hpath; cbn [files emit create] in Hpath;
  pose proof (inOutputDir_name "title.tmd" (or_introl eq_refl));
  pose proof (inOutputDir_name "title.tik" (or_intror (or_introl eq_refl)));
  pose proof (inOutputDir_name "title.cert"
                (or_intror (or_intror (or_introl eq_refl))));
  repeat match goal with
         | H : readContentID _ _ = Done ?id |- _ =>
             pose proof (inOutputDir_name _ (engineName_app id));
             pose proof (inOutputDir_name _ (engineName_h3 id));
             clear H
         end;
  set_solver.

Lemma metadataStage_grows w :
  wp (metadataStage env titleID outputDirectory)
    (fun _ w' => grows env (outputDirOf outputDirectory) w w') w.
Proof. unfold metadataStage. wp_all; is_grown. Qed.

Lemma obtainTicket_grows v w :
  wp (obtainTicket env titleID outputDirectory v)
    (fun _ w' => grows env (outputDirOf outputDirectory) w w') w.
Proof. unfold obtainTicket. wp_all; is_grown. Qed.

Lemma certificateStage_grows tmdData w :
  wp (certificateStage env outputDirectory tmdData)
    (fun _ w' => grows env (outputDirOf outputDirectory) w w') w.
Proof. unfold certificateStage. wp_all; is_grown. Qed.

Lemma contentIteration_grows tmdData sizes i w :
  wp (contentIteration env titleID outputDirectory tmdData sizes i)
    (fun _ w' => grows env (outputDirOf outputDirectory) w w') w.
Proof. unfold contentIteration, fetchContent. wp_all; is_grown. Qed.

Lemma contentLoop_grows tmdData sizes n :
  forall i w,
    wp (contentLoop env titleID outputDirectory tmdData sizes n i)
      (fun _ w' => grows env (outputDirOf outputDirectory) w w') w.
Proof.
  induction n as [| n IH]; intros i w; cbn [contentLoop].
  - apply wp_ret, grows_refl.
  - apply wp_bind. eapply wp_mono; [| apply contentIteration_grows].
    intros [[] | err |] w1 H1; cbn [andThen]; try exact H1.
    eapply wp_mono; [| apply IH].
    intros r w2 H2. eapply grows_trans; eassumption.
Qed.

Lemma decryptStage_grows doDecryption deleteEncryptedContents w :
  wp (decryptStage env outputDirectory doDecryption deleteEncryptedContents)
    (fun _ w' => grows env (outputDirOf outputDirectory) w w') w.
Proof.
  unfold decryptStage. wp_all; try is_grown.
  all: destruct (DecryptContents _ _ _); wp_all; is_grown.
Qed.

(** X17. Whatever the metadata and the network hold, every file that a run
    of [DownloadTitle] creates is [filepath.Join] of the output directory
    and one of its own names: [title.tmd], [title.tik], [title.cert], or the
    eight hexadecimal digits of a content identifier with [.app] or [.h3];
    none of these names contains a path separator. *)
Theorem created_files_have_engine_names doDecryption deleteEncryptedContents
    w path :
  path ∈ files (fst (DownloadTitle env titleID outputDirectory doDecryption
                       deleteEncryptedContents w)) ->
  path ∈ files w
  \/ exists name,
       path = Join env (outputDirOf outputDirectory) name
       /\ engineName name
       /\ forallb (fun c => negb (isSeparator c))
            (String.list_ascii_of_string name) = true.
Proof.
  assert (H : wp (_ <~ downloadStage env titleID outputDirectory ;;
                  decryptStage env outputDirectory doDecryption
                    deleteEncryptedContents)
                (fun _ w' => grows env (outputDirOf outputDirectory) w w')
                (enter w)).
  { assert (Hstep : forall (w1 w2 : World) {A} (m : M A),
              grows env (outputDirOf outputDirectory) w w1 ->
              (forall w0, wp m (fun _ w' =>
                 grows env (outputDirOf outputDirectory) w0 w') w0) ->
              wp m (fun _ w' => grows env (outputDirOf outputDirectory) w w')
                w1).
    { intros w1 _ A m H1 Hm. eapply wp_mono; [| apply Hm].
      intros r w' H'. eapply grows_trans; eassumption. }
    apply wp_bind. unfold downloadStage. apply wp_bind.
    eapply wp_mono; [| apply metadataStage_grows].
    intros [[tmdData v] | err |] w1 H1; cbn [andThen fst snd]; try exact H1.
    apply wp_bind.
    eapply wp_mono;
      [| apply (Hstep w1 w1); [exact H1 | intros; apply obtainTicket_grows]].
    intros [[] | err |] w2 H2; cbn [andThen]; try exact H2.
    apply wp_bind.
    eapply wp_mono;
      [| apply (Hstep w2 w2); [exact H2 | intros; apply certificateStage_grows]].
    intros [[c sizes] | err |] w3 H3; cbn [andThen fst snd]; try exact H3.
    eapply wp_mono;
      [| apply (Hstep w3 w3); [exact H3 | intros; apply contentLoop_grows]].
    intros [ex | err |] w4 H4; cbn [andThen]; try exact H4.
    apply (Hstep w4 w4); [exact H4 | intros; apply decryptStage_grows]. }
  unfold wp in H. unfold DownloadTitle.
  destruct ((_ <~ downloadStage env titleID outputDirectory ;;
             decryptStage env outputDirectory doDecryption
               deleteEncryptedContents) (enter w)) as [w' [[] | err |]];
    cbn [fst snd runDeferred files] in *.
  all: intros Hp; apply H in Hp as [Hp | (name & Hn & ->)]; [left; exact Hp |].
  all: right; exists name; split; [reflexivity |]; split; [exact Hn |].
  all: apply engineName_no_separator, Hn.
Qed.

End PathFacts.

(** ** What the reads of the metadata can end in *)

Section FixedReads.
Import Go Metadata Layout Counter.

Lemma ReadFull_length r n bs :
  binary.ReadFull r n = Done bs -> (0 < n)%nat -> length bs = n.
Proof.
  unfold binary.ReadFull. destruct (bytes.remaining r) as [| b rest] eqn:E;
    [discriminate |].
  destruct (length (b :: rest) <? n)%nat eqn:Hlt; [discriminate |].
  intros H _. injection H as <-. apply Nat.ltb_ge in Hlt.
  rewrite length_take. lia.
Qed.

Lemma ReadUint16_range r v : binary.ReadUint16 r = Done v -> 0 <= v < 2 ^ 16.
Proof.
  unfold binary.ReadUint16.
  destruct (binary.ReadFull r 2) as [bs | |] eqn:E; cbn [Go.bind];
    intros H; inversion H; subst.
  apply ReadFull_length in E; [| lia].
  destruct (length2 _ E) as (a & b & ->). rewrite Uint16_value.
  pose proof (bigEndianValue_bound [a; b] 0). cbn [length] in *. lia.
Qed.

Lemma ReadUint32_range r v : binary.ReadUint32 r = Done v -> 0 <= v < 2 ^ 32.
Proof.
  unfold binary.ReadUint32.
  destruct (binary.ReadFull r 4) as [bs | |] eqn:E; cbn [Go.bind];
    intros H; inversion H; subst.
  apply ReadFull_length in E; [| lia].
  destruct (length4 _ E) as (a & b & c & d & ->). rewrite Uint32_value.
  pose proof (bigEndianValue_bound [a; b; c; d] 0). cbn [length] in *. lia.
Qed.

Lemma ReadUint64_range r v : binary.ReadUint64 r = Done v -> 0 <= v < 2 ^ 64.
Proof.
  unfold binary.ReadUint64.
  destruct (binary.ReadFull r 8) as [bs | |] eqn:E; cbn [Go.bind];
    intros H; inversion H; subst.
  apply ReadFull_length in E; [| lia].
  destruct (length8 _ E) as (a & b & c & d & e & f & g & h & ->).
  rewrite Uint64_value.
  pose proof (bigEndianValue_bound [a; b; c; d; e; f; g; h] 0).
  cbn [length] in *. lia.
Qed.

(** A read from a slice expression of exactly the size of the value ends
    in the value or, when the expression is out of range, in a panic. *)
Lemma sized_read_never_fails {A} (s : slice) (lo : Z) (n : nat)
    (decode : list byte -> A) e :
  (0 < n)%nat ->
  (b <- sliceExpr s lo (lo + Z.of_nat n) ;;
   bs <- binary.ReadFull (bytes.NewReader b) n ;; Done (decode bs))
  <> Fail e.
Proof.
  intros Hn. unfold sliceExpr.
  destruct ((0 <=? lo) && (lo <=? lo + Z.of_nat n)
            && (lo + Z.of_nat n <=? cap s)) eqn:Hc; [| discriminate].
  apply andb_true_iff in Hc as [Hc H3]. apply andb_true_iff in Hc as [H1 H2].
  apply Z.leb_le in H1, H2, H3. cbn [Go.bind].
  unfold bytes.NewReader. cbn [elems].
  rewrite ReadFull_exact; [discriminate | exact Hn |].
  rewrite length_take, length_drop. unfold cap in H3. lia.
Qed.

Lemma readTitleVersion_never_fails s e : readTitleVersion s <> Fail e.
Proof.
  apply (sized_read_never_fails s 476 2 binary.Uint16 e). lia.
Qed.

Lemma readContentCount_never_fails s e : readContentCount s <> Fail e.
Proof.
  apply (sized_read_never_fails s 478 2 binary.Uint16 e). lia.
Qed.

Lemma readContentSizes_never_fails s n e :
  forall i ts cs, readContentSizes s n i ts cs <> Fail e.
Proof.
  induction n as [| n IH]; intros i ts cs; [discriminate |].
  cbn [readContentSizes]. cbv zeta.
  pose proof (sized_read_never_fails s (0xB04 + 0x30 * i + 8) 8
                binary.Uint64 e) as Hread.
  change (Z.of_nat 8) with 8 in Hread.
  destruct (sliceExpr s (0xB04 + 0x30 * i + 8) (0xB04 + 0x30 * i + 8 + 8))
    as [b | e' |]; cbn [Go.bind] in *; [| | discriminate].
  - unfold binary.ReadUint64.
    destruct (binary.ReadFull (bytes.NewReader b) 8) as [bs | e' |];
      cbn [Go.bind] in *; [apply IH | | discriminate].
    intros H. injection H as ->. apply Hread; [lia | reflexivity].
  - intros H. injection H as ->. apply Hread; [lia | reflexivity].
Qed.

(** X18. The reads at fixed offsets (title version, content count, content
    sizes) end in a value or in a panic, never in an error: each reads
    exactly the bytes of its slice expression, so the [return err] of lines
    174, 193 and 203 cannot be reached. *)
Theorem fixed_offset_reads_return_no_error s e :
  readTitleVersion s <> Fail e
  /\ readContentCount s <> Fail e
  /\ forall n, readContentSizes s n 0 0 [] <> Fail e.
Proof.
  split; [apply readTitleVersion_never_fails |].
  split; [apply readContentCount_never_fails |].
  intros n. apply readContentSizes_never_fails.
Qed.

End FixedReads.

Section RecordReads.
Import Go Metadata Layout Counter.

(** X19. The read of a record's identifier at lines 235-239 is the one
    read that can return a truncation error: for the record at index [i] it
    returns [io.EOF] when the buffer ends at or before the record,
    [io.ErrUnexpectedEOF] when it ends inside the four bytes of the
    identifier, and the big-endian identifier otherwise. *)
Theorem readContentID_truncation s i :
  0 <= i ->
  (len s <= 2820 + 48 * i -> readContentID s i = Fail EOF)
  /\ (2820 + 48 * i < len s < 2820 + 48 * i + 4 ->
      readContentID s i = Fail ErrUnexpectedEOF)
  /\ (2820 + 48 * i + 4 <= len s ->
      readContentID s i = Done (fieldAt s (0xB04 + 0x30 * i) 4)).
Proof.
  intros Hi.
  assert (Hrem : length (bytes.remaining
                           (bytes.Seek (bytes.NewReader s) (2820 + 48 * i)))
                 = Z.to_nat (len s - (2820 + 48 * i))).
  { unfold bytes.remaining, bytes.Seek, bytes.NewReader. cbn [bytes.s bytes.i].
    rewrite length_drop. unfold len. lia. }
  split; [| split].
  - intros Hlen. unfold readContentID, ReadContentIDField, binary.ReadUint32,
      binary.ReadFull. cbv zeta.
    destruct (bytes.remaining _) as [| b rest]; [reflexivity |].
    cbn [length] in Hrem. lia.
  - intros Hlen. unfold readContentID, ReadContentIDField, binary.ReadUint32,
      binary.ReadFull. cbv zeta.
    destruct (bytes.remaining _) as [| b rest] eqn:E;
      [cbn [length] in Hrem; lia |].
    replace (length (b :: rest) <? 4)%nat with true; [reflexivity |].
    symmetry. apply Nat.ltb_lt. lia.
  - intros Hlen. apply readContentID_ok; lia.
Qed.

Lemma sumSizes_fmap recs : sumSizes recs = sumZ (contentSize <$> recs).
Proof.
  unfold sumSizes, sumZ. induction recs as [| r recs IH]; [reflexivity |].
  cbn [foldr fmap list_fmap]. rewrite IH. reflexivity.
Qed.

Lemma uint64_add_l a b : uint64 (uint64 a + b) = uint64 (a + b).
Proof. unfold uint64. rewrite Zplus_mod_idemp_l. reflexivity. Qed.

Lemma readContentSizes_Done s n :
  forall i ts cs ts' cs',
    readContentSizes s n i ts cs = Done (ts', cs') ->
    0 <= ts < 2 ^ 64 ->
    exists new,
      cs' = cs ++ new /\ length new = n
      /\ Forall (fun sz => 0 <= sz < 2 ^ 64) new
      /\ ts' = uint64 (ts + sumZ new).
Proof.
  induction n as [| n IH]; intros i ts cs ts' cs' H Hts0.
  - injection H as <- <-. exists []. rewrite app_nil_r, Z.add_0_r.
    unfold uint64. rewrite Z.mod_small by exact Hts0. auto.
  - cbn [readContentSizes] in H. cbv zeta in H.
    destruct (sliceExpr _ _ _) as [b | |]; cbn [Go.bind] in H;
      try discriminate.
    destruct (binary.ReadUint64 _) as [v | |] eqn:Ev; cbn [Go.bind] in H;
      try discriminate.
    apply IH in H as (new & -> & Hlen & Hall & Hts);
      [| unfold uint64; apply Z.mod_pos_bound; lia].
    exists (v :: new). rewrite <- app_assoc. split; [reflexivity |].
    split; [cbn [length]; lia |].
    split; [constructor; [eapply ReadUint64_range, Ev | exact Hall] |].
    rewrite Hts, uint64_add_l. cbn [sumZ foldr]. f_equal.
    fold (sumZ new). lia.
Qed.

Lemma readContents_Done s sizes n :
  forall i recs,
    0 <= i ->
    readContents s sizes n i = Done recs ->
    contentSize <$> recs = take n (drop (Z.to_nat i) sizes)
    /\ length recs = n
    /\ Forall (fun r => 0 <= contentID r < 2 ^ 32) recs.
Proof.
  induction n as [| n IH]; intros i recs Hi H.
  - injection H as <-. rewrite take_0. auto.
  - cbn [readContents] in H.
    destruct (readContentID s i) as [id | |] eqn:Hid; cbn [Go.bind] in H;
      try discriminate.
    destruct (sizeAt sizes i) as [sz | |] eqn:Hsz; cbn [Go.bind] in H;
      try discriminate.
    destruct (readTypeFlags s i) as [fl | |]; cbn [Go.bind] in H;
      try discriminate.
    destruct (readContents s sizes n (i + 1)) as [rest | |] eqn:Hrest;
      cbn [Go.bind] in H; try discriminate.
    injection H as <-. apply IH in Hrest as (Hsizes & Hlen & Hids); [| lia].
    apply sizeAt_Done in Hsz. rewrite (drop_S _ _ _ Hsz).
    cbn [fmap list_fmap take contentSize length].
    replace (Z.to_nat (i + 1)) with (S (Z.to_nat i)) in Hsizes by lia.
    change (list_fmap _ _ contentSize rest) with (contentSize <$> rest).
    rewrite Hsizes. split; [reflexivity |]. split; [lia |].
    constructor; [| exact Hids]. cbn [contentID].
    unfold readContentID, ReadContentIDField in Hid.
    eapply ReadUint32_range, Hid.
Qed.

(** X20. Whenever the parsing stage succeeds, title version and content
    count are below 2^16, there are as many records as the count says,
    every identifier is below 2^32 and every size below 2^64, and the total
    size is the sum of the record sizes modulo 2^64. *)
Theorem parsed_fields_fit_their_types s tmd :
  parse s = Done tmd ->
  0 <= titleVersion tmd < 2 ^ 16
  /\ 0 <= contentCount tmd < 2 ^ 16
  /\ Z.of_nat (length (contents tmd)) = contentCount tmd
  /\ Forall (fun r => 0 <= contentID r < 2 ^ 32
                      /\ 0 <= contentSize r < 2 ^ 64) (contents tmd)
  /\ titleSize tmd = uint64 (sumSizes (contents tmd)).
Proof.
  unfold parse. intros H.
  destruct (readTitleVersion s) as [v | |] eqn:Hv; cbn [Go.bind] in H;
    try discriminate.
  destruct (readContentCount s) as [c | |] eqn:Hc; cbn [Go.bind] in H;
    try discriminate.
  destruct (readContentSizes s (Z.to_nat c) 0 0 []) as [[ts sizes] | |] eqn:Hs;
    cbn [Go.bind fst snd] in H; try discriminate.
  destruct (readContents s sizes (Z.to_nat c) 0) as [recs | |] eqn:Hr;
    cbn [Go.bind] in H; try discriminate.
  injection H as <-. cbn [titleVersion contentCount contents titleSize].
  assert (Hvr : 0 <= v < 2 ^ 16).
  { unfold readTitleVersion in Hv.
    destruct (sliceExpr s 476 478); cbn [Go.bind] in Hv; try discriminate.
    eapply ReadUint16_range, Hv. }
  assert (Hcr : 0 <= c < 2 ^ 16).
  { unfold readContentCount in Hc.
    destruct (sliceExpr s 478 480); cbn [Go.bind] in Hc; try discriminate.
    eapply ReadUint16_range, Hc. }
  apply readContentSizes_Done in Hs as Hs'; [| lia].
  destruct Hs' as (new & Hnew & Hlen & Hall & Hts). cbn [app] in Hnew.
  subst new.
  apply readContents_Done in Hr as (Hsz & Hrl & Hids); [| lia].
  change (Z.to_nat 0) with 0%nat in Hsz.
  rewrite drop_0, take_ge in Hsz by lia.
  split; [exact Hvr |]. split; [exact Hcr |]. split; [lia |]. split.
  - apply Forall_forall. intros r Hin. split.
    + eapply (proj1 (Forall_forall _ _) Hids), Hin.
    + assert (Hin' : contentSize r ∈ sizes)
        by (rewrite <- Hsz; apply list_elem_of_fmap_2, Hin).
      eapply (proj1 (Forall_forall _ _) Hall) in Hin'. exact Hin'.
  - rewrite sumSizes_fmap, Hsz, Hts. reflexivity.
Qed.

Lemma readContentSizes_Done_cap s n i ts cs x :
  readContentSizes s n i ts cs = Done x -> 0 <= i -> (0 < n)%nat ->
  0xB04 + 0x30 * (i + Z.of_nat n - 1) + 16 <= cap s.
Proof.
  intros H Hi Hn.
  destruct (Z.le_gt_cases (0xB04 + 0x30 * (i + Z.of_nat n - 1) + 16) (cap s))
    as [Hle | Hgt]; [exact Hle |].
  rewrite (readContentSizes_short s n i ts cs) in H by lia. discriminate.
Qed.

Lemma readContents_never_fails s sizes n e :
  forall i,
    0 <= i ->
    (forall k, i <= k < i + Z.of_nat n -> 2820 + 48 * k + 4 <= len s) ->
    readContents s sizes n i <> Fail e.
Proof.
  induction n as [| n IH]; intros i Hi Hlen; [discriminate |].
  cbn [readContents]. rewrite readContentID_ok by (try apply Hlen; lia).
  cbn [Go.bind]. unfold sizeAt, readTypeFlags, index.
  destruct (sizes !! Z.to_nat i); cbn [Go.bind]; [| discriminate].
  destruct (0 <=? 2820 + 48 * i + 7); cbn [Go.bind]; [| discriminate].
  destruct (elems s !! Z.to_nat (2820 + 48 * i + 7)); cbn [Go.bind];
    [| discriminate].
  pose proof (IH (i + 1)) as IH'.
  destruct (readContents s sizes n (i + 1)); cbn [Go.bind];
    [discriminate | | discriminate].
  intros H. injection H as ->. eapply IH'; [lia | | reflexivity].
  intros k Hk. apply Hlen. lia.
Qed.

(** X21. For a buffer with at most eight spare bytes, or with a capacity
    below the end of the first record's size field (as [os.ReadFile]
    allocates for a file whose size it knows), the parsing stage returns no
    error at all: it ends in the parsed metadata or in a panic. *)
Theorem parse_returns_no_truncation_error s e :
  (length (spare s) <= 8)%nat \/ cap s < 0xB04 + 16 ->
  parse s <> Fail e.
Proof.
  intros Hshape. unfold parse.
  pose proof (readTitleVersion_never_fails s e) as Hv.
  destruct (readTitleVersion s) as [v | e1 |]; cbn [Go.bind];
    [| intros H; injection H as ->; now apply Hv | discriminate].
  pose proof (readContentCount_never_fails s e) as Hc.
  destruct (readContentCount s) as [c | e1 |]; cbn [Go.bind];
    [| intros H; injection H as ->; now apply Hc | discriminate].
  pose proof (readContentSizes_never_fails s (Z.to_nat c) e 0 0 []) as Hs.
  destruct (readContentSizes s (Z.to_nat c) 0 0 []) as [[ts sizes] | e1 |] eqn:Es;
    cbn [Go.bind fst snd];
    [| intros H; injection H as ->; now apply Hs | discriminate].
  assert (Hr : readContents s sizes (Z.to_nat c) 0 <> Fail e).
  { destruct (Z.to_nat c) as [| n] eqn:En; [discriminate |].
    apply readContentSizes_Done_cap in Es; [| lia | lia].
    apply readContents_never_fails; [lia |].
    intros k Hk. unfold cap, backing in *. rewrite length_app in *.
    unfold len. lia. }
  destruct (readContents s sizes (Z.to_nat c) 0); cbn [Go.bind];
    [discriminate | intros H; injection H as ->; now apply Hr
    | discriminate].
Qed.

End RecordReads.

(** ** Directory and file names *)

Section Names.
Import Go Title Acquisition Text.

Lemma append_nonempty (u : string) c : u +:+ String c "" <> "".
Proof. destruct u; discriminate. Qed.

Lemma TrimRight_suffix s cutset :
  exists t,
    s = TrimRight s cutset +:+ t
    /\ forallb (fun c => inCutset c cutset) (String.list_ascii_of_string t)
       = true.
Proof.
  induction s as [| c rest (t & Ht & Hall)].
  - exists "". auto.
  - cbn [TrimRight]. destruct (TrimRight rest cutset) as [| d r'] eqn:E.
    + change ("" +:+ t) with t in Ht. subst t.
      destruct (inCutset c cutset) eqn:Hc.
      * exists (String c rest). split; [reflexivity |].
        cbn [String.list_ascii_of_string forallb]. rewrite Hc. exact Hall.
      * exists rest. auto.
    + exists t. split; [| exact Hall].
      change (String c (String d r') +:+ t)
        with (String c (String d r' +:+ t)).
      rewrite <- Ht. reflexivity.
Qed.

Lemma TrimRight_last s cutset :
  forall u c, TrimRight s cutset = u +:+ String c "" ->
              inCutset c cutset = false.
Proof.
  induction s as [| x rest IH]; intros u c H.
  - symmetry in H. now apply append_nonempty in H.
  - cbn [TrimRight] in H. destruct (TrimRight rest cutset) as [| d r'] eqn:E.
    + destruct (inCutset x cutset) eqn:Hx.
      * symmetry in H. now apply append_nonempty in H.
      * destruct u as [| y u].
        -- change ("" +:+ String c "") with (String c "") in H.
           injection H as <-. exact Hx.
        -- change (String y u +:+ String c "")
             with (String y (u +:+ String c "")) in H.
           injection H as _ H. symmetry in H. now apply append_nonempty in H.
    + destruct u as [| y u].
      * change ("" +:+ String c "") with (String c "") in H. discriminate.
      * change (String y u +:+ String c "")
          with (String y (u +:+ String c "")) in H.
        injection H as _ H. eapply IH. exact H.
Qed.

Lemma separators c :
  inCutset c "/\" = true -> c = "/"%char \/ c = "\"%char.
Proof.
  unfold inCutset. cbn [String.list_ascii_of_string existsb].
  intros H. apply orb_true_iff in H as [H | H].
  - left. now apply Ascii.eqb_eq in H.
  - apply orb_true_iff in H as [H | H]; [| discriminate].
    right. now apply Ascii.eqb_eq in H.
Qed.

(** X22. The output directory of line 152 is the given directory without
    its trailing separators: what is cut off consists of [/] and [\] only,
    and what is left does not end in either. *)
Theorem output_directory_is_trimmed outputDirectory :
  (exists t,
     outputDirectory = outputDirOf outputDirectory +:+ t
     /\ Forall (fun c => c = "/"%char \/ c = "\"%char)
          (String.list_ascii_of_string t))
  /\ forall u c,
       outputDirOf outputDirectory = u +:+ String c "" ->
       c <> "/"%char /\ c <> "\"%char.
Proof.
  unfold outputDirOf. split.
  - destruct (TrimRight_suffix outputDirectory "/\") as (t & Ht & Hall).
    exists t. split; [exact Ht |].
    apply Forall_forall. intros c Hc. apply separators.
    rewrite forallb_forall in Hall. apply Hall.
    apply list_elem_of_In. exact Hc.
  - intros u c H. apply TrimRight_last in H.
    split; intros ->; discriminate.
Qed.

Lemma hexDigit_inj d d' :
  0 <= d < 16 -> 0 <= d' < 16 -> hexDigit d = hexDigit d' -> d = d'.
Proof.
  intros Hd Hd' H.
  assert (Hn : forall n m : nat,
            (n < 16)%nat -> (m < 16)%nat ->
            hexDigit (Z.of_nat n) = hexDigit (Z.of_nat m) -> n = m).
  { intros n m Hn Hm. unfold hexDigit. rewrite !Nat2Z.id. intros E.
    do 16 (destruct n as [| n];
           [do 16 (destruct m as [| m];
                   [first [reflexivity | cbn in E; discriminate E] |]);
            lia |]).
    lia. }
  specialize (Hn (Z.to_nat d) (Z.to_nat d')).
  rewrite !Z2Nat.id in Hn by lia.
  apply Z2Nat.inj; [lia | lia |]. apply Hn; [lia | lia | exact H].
Qed.

Lemma hex_digit_step a b k :
  0 <= k ->
  a / 16 ^ (k + 1) = b / 16 ^ (k + 1) ->
  (a / 16 ^ k) mod 16 = (b / 16 ^ k) mod 16 ->
  a / 16 ^ k = b / 16 ^ k.
Proof.
  intros Hk Hhi Hlo.
  rewrite Z.pow_add_r, <- !Z.div_div in Hhi by lia.
  change (16 ^ 1) with 16 in Hhi.
  rewrite (Z.div_mod (a / 16 ^ k) 16), (Z.div_mod (b / 16 ^ k) 16) by lia.
  congruence.
Qed.

Lemma hex8_inj a b :
  0 <= a < 2 ^ 32 -> 0 <= b < 2 ^ 32 -> hex8 a = hex8 b -> a = b.
Proof.
  intros Ha Hb H. unfold hex8 in H.
  cbn [map String.string_of_list_ascii] in H.
  injection H as H7 H6 H5 H4 H3 H2 H1 H0.
  apply hexDigit_inj in H7, H6, H5, H4, H3, H2, H1, H0;
    try (apply Z.mod_pos_bound; lia).
  assert (E8 : a / 16 ^ (7 + 1) = b / 16 ^ (7 + 1)).
  { change (16 ^ (7 + 1)) with (2 ^ 32). rewrite !Z.div_small by lia.
    reflexivity. }
  apply hex_digit_step in E8; [| lia | exact H7].
  change 7 with (6 + 1) in E8. apply hex_digit_step in E8; [| lia | exact H6].
  change 6 with (5 + 1) in E8. apply hex_digit_step in E8; [| lia | exact H5].
  change 5 with (4 + 1) in E8. apply hex_digit_step in E8; [| lia | exact H4].
  change 4 with (3 + 1) in E8. apply hex_digit_step in E8; [| lia | exact H3].
  change 3 with (2 + 1) in E8. apply hex_digit_step in E8; [| lia | exact H2].
  change 2 with (1 + 1) in E8. apply hex_digit_step in E8; [| lia | exact H1].
  change 1 with (0 + 1) in E8. apply hex_digit_step in E8; [| lia | exact H0].
  change (16 ^ 0) with 1 in E8. rewrite !Z.div_1_r in E8. exact E8.
Qed.

(** X23. Content records with different 32-bit identifiers get different
    file names: their [.app] names differ, their [.h3] names differ, and an
    [.app] name is never an [.h3] name. *)
Theorem content_file_names_are_distinct a b :
  0 <= a < 2 ^ 32 -> 0 <= b < 2 ^ 32 -> a <> b ->
  hex8 a +:+ ".app" <> hex8 b +:+ ".app"
  /\ hex8 a +:+ ".h3" <> hex8 b +:+ ".h3"
  /\ hex8 a +:+ ".app" <> hex8 b +:+ ".h3".
Proof.
  intros Ha Hb Hne.
  assert (Hdiff : hex8 a <> hex8 b) by (intros H; apply Hne, hex8_inj; auto).
  unfold hex8 in *. cbn [map String.string_of_list_ascii] in *.
  repeat split; intros H; try discriminate H.
  all: apply Hdiff; injection H as -> -> -> -> -> -> -> ->; reflexivity.
Qed.

End Names.

Section Caller.
Import Go Title Acquisition Text Window.

Lemma append_not_empty (u v : string) : v <> "" -> u +:+ v <> "".
Proof. destruct u; [auto | discriminate]. Qed.

Lemma TrimRight_append_kept u v cutset :
  TrimRight v cutset = v -> v <> "" ->
  TrimRight (u +:+ v) cutset = u +:+ v.
Proof.
  intros Hv Hne. induction u as [| x u IH]; [exact Hv |].
  change (String x u +:+ v) with (String x (u +:+ v)).
  cbn [TrimRight]. rewrite IH.
  destruct (u +:+ v) eqn:E; [| reflexivity].
  now apply append_not_empty in E.
Qed.

(** X24. For the directory that the main window hands to [DownloadTitle],
    [selectedPath/name [titleID]], the trim of line 152 changes nothing. *)
Theorem caller_directory_is_not_trimmed selectedPath nameStr tidStr :
  outputDirOf (downloadDirectory selectedPath nameStr tidStr)
  = downloadDirectory selectedPath nameStr tidStr.
Proof.
  unfold outputDirOf, downloadDirectory.
  assert (N : forall u v : string, v <> "" -> u +:+ v <> "")
    by apply append_not_empty.
  apply TrimRight_append_kept; [| auto 10 with nocore; discriminate].
  apply (TrimRight_append_kept "/"); [| apply N, N, N; discriminate].
  apply TrimRight_append_kept; [| apply N, N; discriminate].
  apply (TrimRight_append_kept " ["); [| apply N; discriminate].
  apply TrimRight_append_kept; [reflexivity | discriminate].
Qed.

End Caller.

(** ** The theorems at sample inputs *)

(** ** Cancellation in the content loop *)

Section LoopCancellation.
Import Go Downloader Title Acquisition Metadata Layout Observe Samples Logic
  Certificate Cases Cancellation.







End LoopCancellation.

Section Witnesses.
Import Go Downloader Title Acquisition Metadata Layout Observe Samples Logic
  Runs Started Decryption Counter Certificate Paths Cases Text.

(** The first two attempts at the flaky endpoints are retried. *)
Lemma flaky_start_retried (net : Z -> Attempt) :
  net 1 = unavailableAttempt -> net 2 = brokenAttempt ->
  forall j, 1 <= j < 3 -> retried (net j).
Proof.
  intros H1 H2 j Hj. assert (Hc : j = 1 \/ j = 2) by lia.
  destruct Hc as [-> | ->].
  - rewrite H1. left. split; [reflexivity | discriminate].
  - rewrite H2. right. split; [repeat split |].
    split; [reflexivity |]. eexists. split; [reflexivity | discriminate].
Defined.

(** X3 at an endpoint that answers 503, then breaks off a body, then
    refuses the connection. *)
Lemma transport_error_ends_transfer_witness :
  snd (downloadFile flakyThenRefused "u" "d" true emptyWorld)
  = Some (ErrCollaborator "connection refused")
  /\ attemptsMade
       (trace (fst (downloadFile flakyThenRefused "u" "d" true emptyWorld)))
     = 3%nat.
Proof.
  destruct (transport_error_ends_transfer flakyThenRefused "u" "d" true 3
              emptyWorld (ErrCollaborator "connection refused"))
    as (Hr & evs & T & A & P).
  - unfold maxRetries. lia.
  - reflexivity.
  - apply flaky_start_retried; reflexivity.
  - reflexivity.
  - split; [exact Hr |]. rewrite T. cbn [emptyWorld trace app].
    rewrite attemptsMade_app, A. reflexivity.
Defined.

(** X4 at the same endpoint when the third attempt cannot create the
    file. *)
Lemma create_error_ends_transfer_witness :
  snd (downloadFile flakyThenReadOnly "u" "d" true emptyWorld)
  = Some (ErrCollaborator "permission denied").
Proof.
  apply (create_error_ends_transfer flakyThenReadOnly "u" "d" true 3
           emptyWorld (ErrCollaborator "permission denied")).
  - unfold maxRetries. lia.
  - reflexivity.
  - apply flaky_start_retried; reflexivity.
  - reflexivity.
  - reflexivity.
  - reflexivity.
Defined.

(** X5 at the same endpoint when the third attempt is served. *)
Lemma retry_recovers_witness :
  snd (downloadFile flakyThenOk "u" "d" true emptyWorld) = None
  /\ "d" ∈ files (fst (downloadFile flakyThenOk "u" "d" true emptyWorld)).
Proof.
  destruct (retry_recovers flakyThenOk "u" "d" true 3 emptyWorld)
    as (Hr & Hf & _).
  - unfold maxRetries. lia.
  - reflexivity.
  - apply flaky_start_retried; reflexivity.
  - repeat split. left. reflexivity.
  - split; assumption.
Defined.

(** Every attempt at the endpoint that never serves is retried. *)
Lemma neverServes_retried j : 1 <= j <= maxRetries -> retried (neverServes j).
Proof.
  unfold maxRetries. intros Hj.
  assert (Hc : j = 1 \/ j = 2 \/ j = 3 \/ j = 4 \/ j = 5) by lia.
  destruct Hc as [-> | [-> | [-> | [-> | ->]]]].
  1,3,5: left; split; [reflexivity | discriminate].
  all: right; split; [repeat split |]; split; [reflexivity |];
    eexists; split; [reflexivity | discriminate].
Defined.

(** X6 at an endpoint that never serves. *)
Lemma retries_exhausted_witness :
  exists evs,
    trace (fst (downloadFile neverServes "u" "d" true emptyWorld))
    = trace emptyWorld ++ evs
    /\ Z.of_nat (attemptsMade evs) = maxRetries
    /\ pauses evs = repeat retryDelay (Z.to_nat (maxRetries - 1)).
Proof.
  apply (retries_exhausted neverServes "u" "d" emptyWorld).
  apply neverServes_retried.
Defined.

(** X7 at the endpoint that serves the third attempt. *)
Lemma nil_result_means_completed_witness :
  exists k,
    1 <= k <= maxRetries /\ completes (flakyThenOk k)
    /\ (forall j, 1 <= j < k -> retried (flakyThenOk j))
    /\ (1 < k -> true = true).
Proof.
  apply (nil_result_means_completed flakyThenOk "u" "d" true emptyWorld).
  vm_compute. reflexivity.
Defined.

(** X8 at an endpoint that answers 404 to every request. *)
Lemma destination_untouched_without_ok_witness :
  files (fst (downloadFile (fun _ => notFoundAttempt) "u" "d" true emptyWorld))
  = files emptyWorld.
Proof.
  apply (destination_untouched_without_ok (fun _ => notFoundAttempt) "u" "d"
           true emptyWorld).
  intros j _. right. discriminate.
Defined.

(** X11 for the sample title in a directory that cannot be created. *)
Lemma mkdir_error_stops_before_any_request_witness :
  DownloadTitle readOnlyEnv sampleTitleID "out/" true false emptyWorld
  = (mkWorld [SetTotalDownloaded 0; SetGameTitle "Sample"; OsMkdirAll "out"]
       ∅ 0 0 [],
     Returned (Some (ErrCollaborator "permission denied"))).
Proof.
  apply (mkdir_error_stops_before_any_request readOnlyEnv sampleTitleID "out/"
           true false emptyWorld (ErrCollaborator "permission denied")).
  reflexivity.
Defined.

(** X13 for the sample title with the flag set from the start. *)
Lemma flag_set_returns_nil_witness :
  snd (DownloadTitle flagSetEnv sampleTitleID "out/" true false emptyWorld)
  = Returned None.
Proof.
  apply (flag_set_returns_nil flagSetEnv sampleTitleID "out/" true false
           sampleTmd emptyWorld).
  - reflexivity.
  - reflexivity.
  - reflexivity.
  - vm_compute. discriminate.
  - reflexivity.
  - reflexivity.
Defined.

(** X19 at a metadata file that ends inside the first identifier. *)
Lemma readContentID_truncation_witness :
  readContentID cutInIdentifier 0 = Fail ErrUnexpectedEOF.
Proof.
  destruct (readContentID_truncation cutInIdentifier 0) as (_ & H & _);
    [lia |].
  apply H. vm_compute. split; reflexivity.
Defined.

(** X20 at the sample metadata. *)
Lemma parsed_fields_fit_their_types_witness :
  match parse sampleTmd with
  | Done tmd =>
      0 <= titleVersion tmd < 2 ^ 16
      /\ 0 <= contentCount tmd < 2 ^ 16
      /\ Z.of_nat (length (contents tmd)) = contentCount tmd
      /\ Forall (fun r => 0 <= contentID r < 2 ^ 32
                          /\ 0 <= contentSize r < 2 ^ 64) (contents tmd)
      /\ titleSize tmd = uint64 (sumSizes (contents tmd))
  | _ => False
  end.
Proof.
  destruct (parse sampleTmd) as [tmd | e |] eqn:E.
  - apply (parsed_fields_fit_their_types sampleTmd tmd E).
  - vm_compute in E. discriminate.
  - vm_compute in E. discriminate.
Defined.

(** X21 at the truncated sample, which panics. *)
Lemma parse_returns_no_truncation_error_witness :
  parse truncatedTmd <> Fail ErrUnexpectedEOF.
Proof.
  apply (parse_returns_no_truncation_error truncatedTmd ErrUnexpectedEOF).
  left. cbn. lia.
Defined.

(** X23 at the identifiers 0 and 1. *)
Lemma content_file_names_are_distinct_witness :
  hex8 0 +:+ ".app" <> hex8 1 +:+ ".app"
  /\ hex8 0 +:+ ".h3" <> hex8 1 +:+ ".h3"
  /\ hex8 0 +:+ ".app" <> hex8 1 +:+ ".h3".
Proof.
  apply (content_file_names_are_distinct 0 1); lia.
Defined.

(** X16 at the sample service when it also has the ticket. *)
Lemma acquisition_completes_witness :
  snd (downloadStage servingEnv sampleTitleID "out/" (enter emptyWorld))
  = Next LoopEnd
  /\ snd (DownloadTitle servingEnv sampleTitleID "out/" true false emptyWorld)
     = Returned None.
Proof.
  apply (acquisition_completes servingEnv sampleTitleID "out/" true false
           sampleTmd emptyWorld).
  - intros url. repeat split. left. reflexivity.
  - reflexivity.
  - reflexivity.
  - reflexivity.
  - vm_compute. discriminate.
  - eexists. reflexivity.
  - reflexivity.
  - reflexivity.
Defined.

(** X17 at the hash file of the second record of the sample title. *)
Lemma created_files_have_engine_names_witness :
  "out/00000001.h3" ∈ files emptyWorld
  \/ exists name,
       "out/00000001.h3" = Join sampleEnv (outputDirOf "out/") name
       /\ engineName name
       /\ forallb (fun c => negb (isSeparator c))
            (String.list_ascii_of_string name) = true.
Proof.
  apply (created_files_have_engine_names sampleEnv sampleTitleID "out/" true
           false emptyWorld "out/00000001.h3").
  vm_compute. set_solver.
Defined.

End Witnesses.
